(** * web-bases: the CSS scoping engine and the component loader

    A shallow embedding of [components/core/cssParser.js] (class [CSSParser])
    and of the component loader that drives it (class [ComponentLoader]).

    JavaScript strings are modelled by [string]; a character is one code
    unit in the range 0..255.  Numbers that the code only uses as counters
    and indices are integers ([Z]), with [-1] for "not found" as in
    [indexOf].  The [Map] of injected styles is a [gmap] with string keys. *)

From Stdlib Require Import ZArith Lia Bool Ascii String List.
From stdpp Require Import gmap strings.

Local Open Scope Z_scope.

(** ** The parts of [String.prototype] the code uses *)

Module JS.

(** [WhiteSpace] and [LineTerminator] code units below 256: what [trim]
    strips and what the regular expression class [\s] accepts. *)
Definition is_whitespace (c : ascii) : bool :=
  let n := N_of_ascii c in
  (((9 <=? n) && (n <=? 13)) || (n =? 32) || (n =? 160))%N.

(** Code units that [.] refuses in a regular expression. *)
Definition is_line_terminator (c : ascii) : bool :=
  let n := N_of_ascii c in ((n =? 10) || (n =? 13))%N.

Definition isEmpty (s : string) : bool :=
  match s with EmptyString => true | String _ _ => false end.

Fixpoint trimStart (s : string) : string :=
  match s with
  | EmptyString => EmptyString
  | String c s' => if is_whitespace c then trimStart s' else s
  end.

Fixpoint trimEnd (s : string) : string :=
  match s with
  | EmptyString => EmptyString
  | String c s' =>
      match trimEnd s' with
      | EmptyString => if is_whitespace c then EmptyString else String c EmptyString
      | t => String c t
      end
  end.

Definition trim (s : string) : string := trimEnd (trimStart s).

(** Whether [p] is the head of [s]. *)
Fixpoint isPrefix (p s : string) : bool :=
  match p with
  | EmptyString => true
  | String a p' =>
      match s with
      | EmptyString => false
      | String b s' => Ascii.eqb a b && isPrefix p' s'
      end
  end.

(** [s.startsWith(p)] *)
Definition startsWith (s p : string) : bool := isPrefix p s.

Fixpoint drop (n : nat) (s : string) : string :=
  match n, s with
  | O, _ => s
  | S n', String _ s' => drop n' s'
  | S _, EmptyString => EmptyString
  end.

Fixpoint take (n : nat) (s : string) : string :=
  match n, s with
  | S n', String c s' => String c (take n' s')
  | _, _ => EmptyString
  end.

Definition len (s : string) : Z := Z.of_nat (String.length s).

(** [s.indexOf(p)], searching from position [i] of the whole string, of
    which [s] is the rest. *)
Fixpoint indexOfFrom (p s : string) (i : Z) : Z :=
  if isPrefix p s then i
  else match s with
       | EmptyString => -1
       | String _ s' => indexOfFrom p s' (i + 1)
       end.

Definition indexOf (s p : string) : Z := indexOfFrom p s 0.

Fixpoint lastIndexOfFrom (p s : string) (i : Z) : Z :=
  let later := match s with
               | EmptyString => -1
               | String _ s' => lastIndexOfFrom p s' (i + 1)
               end in
  if 0 <=? later then later
  else if isPrefix p s then i else -1.

Definition lastIndexOf (s p : string) : Z := lastIndexOfFrom p s 0.

Definition includes (s p : string) : bool := 0 <=? indexOf s p.

(** [s.substring(a, b)]: both ends are clamped to [0, length] and swapped
    when they come in the wrong order. *)
Definition clamp (s : string) (i : Z) : Z := Z.max 0 (Z.min i (len s)).

Definition substring (s : string) (a b : Z) : string :=
  let lo := Z.min (clamp s a) (clamp s b) in
  let hi := Z.max (clamp s a) (clamp s b) in
  take (Z.to_nat (hi - lo)) (drop (Z.to_nat lo) s).

(** [s.substring(a)] *)
Definition substringFrom (s : string) (a : Z) : string := substring s a (len s).

(** [s.split(sep)] for a separator of one character. *)
Fixpoint split (sep : ascii) (s : string) : list string :=
  match s with
  | EmptyString => [EmptyString]
  | String c s' =>
      if Ascii.eqb c sep then EmptyString :: split sep s'
      else match split sep s' with
           | h :: t => String c h :: t
           | [] => [String c EmptyString]
           end
  end.

(** [parts.join(sep)] *)
Definition join (sep : string) (parts : list string) : string :=
  String.concat sep parts.

(** The replacement text of [replace] with a string pattern: [$$], [$&],
    [$`] and [$'] are substitution patterns; with no capture group, every
    other use of [$] stands for itself. *)
Fixpoint expandReplacement (repl matched before after : string) : string :=
  match repl with
  | EmptyString => EmptyString
  | String c r =>
      if Ascii.eqb c "$" then
        match r with
        | String d r' =>
            if Ascii.eqb d "$" then String "$" (expandReplacement r' matched before after)
            else if Ascii.eqb d "&" then matched +:+ expandReplacement r' matched before after
            else if Ascii.eqb d "`" then before +:+ expandReplacement r' matched before after
            else if Ascii.eqb d "'" then after +:+ expandReplacement r' matched before after
            else String c (expandReplacement r matched before after)
        | EmptyString => String c EmptyString
        end
      else String c (expandReplacement r matched before after)
  end.

(** [s.replace(pat, repl)] with a string pattern: the first occurrence only. *)
Definition replace (s pat repl : string) : string :=
  let i := indexOf s pat in
  if i <? 0 then s
  else
    let before := substring s 0 i in
    let after := substringFrom s (i + len pat) in
    before +:+ expandReplacement repl pat before after +:+ after.

End JS.

(** ** Regular expressions, as the backtracking matcher of the language runs them

    Only the constructs the patterns of the source use: literal text,
    character classes, greedy repetition of a class, sequence, capturing
    group, greedy option and the end-of-input assertion [$].  A leading
    [^] is the [anchored] argument of [exec]. *)

Module Regex.

Inductive t : Type :=
| Lit (l : string)
| Cls (p : ascii -> bool)
| Star (p : ascii -> bool)
| Plus (p : ascii -> bool)
| Seq (a b : t)
| Grp (r : t)
| Opt (r : t)
| Eoi.

(** Captures, numbered from 0 in the order of the opening parentheses;
    [None] is [undefined]. *)
Definition captures : Type := list (option string).

Fixpoint ngroups (r : t) : nat :=
  match r with
  | Seq a b => (ngroups a + ngroups b)%nat
  | Grp r => S (ngroups r)
  | Opt r => ngroups r
  | _ => O
  end.

(** The text consumed between the input [s] and its suffix [rest]. *)
Definition consumed (s rest : string) : string :=
  JS.take (String.length s - String.length rest) s.

Section Run.
Context {A : Type}.

(** Greedy [p*]: the longest run first, then shorter ones. *)
Fixpoint star (p : ascii -> bool) (s : string) (k : string -> option A) : option A :=
  match s with
  | EmptyString => k s
  | String c s' =>
      if p c then
        match star p s' k with
        | Some x => Some x
        | None => k s
        end
      else k s
  end.

Fixpoint run (r : t) (s : string) (caps : captures)
    (k : string -> captures -> option A) : option A :=
  match r with
  | Lit l =>
      if JS.isPrefix l s then k (JS.drop (String.length l) s) caps else None
  | Cls p =>
      match s with
      | String c s' => if p c then k s' caps else None
      | EmptyString => None
      end
  | Star p => star p s (fun s' => k s' caps)
  | Plus p =>
      match s with
      | String c s' => if p c then star p s' (fun s' => k s' caps) else None
      | EmptyString => None
      end
  | Seq a b => run a s caps (fun s' caps' => run b s' caps' k)
  | Grp r =>
      run r s (caps ++ [None])
        (fun s' caps' => k s' (<[length caps := Some (consumed s s')]> caps'))
  | Opt r =>
      match run r s caps k with
      | Some x => Some x
      | None => k s (caps ++ replicate (ngroups r) None)
      end
  | Eoi =>
      match s with
      | EmptyString => k s caps
      | String _ _ => None
      end
  end.
End Run.

(** A match that starts at the head of [s]: the rest of the input and
    the captures. *)
Definition matchHere (r : t) (s : string) : option (string * captures) :=
  run r s [] (fun rest caps => Some (rest, caps)).

(** The leftmost match in [s]: text before it, matched text, captures,
    text after it. *)
Record found : Type := Found {
  f_before : string; f_match : string; f_caps : captures; f_after : string }.

Fixpoint searchFrom (r : t) (before s : string) : option found :=
  match matchHere r s with
  | Some (rest, caps) => Some (Found before (consumed s rest) caps rest)
  | None =>
      match s with
      | EmptyString => None
      | String c s' => searchFrom r (before +:+ String c EmptyString) s'
      end
  end.

(** [re.exec(s)] and [s.match(re)] for a pattern without the [g] flag. *)
Definition exec (anchored : bool) (r : t) (s : string) : option found :=
  if anchored then
    match matchHere r s with
    | Some (rest, caps) => Some (Found EmptyString (consumed s rest) caps rest)
    | None => None
    end
  else searchFrom r EmptyString s.

(** [re.test(s)] *)
Definition test (anchored : bool) (r : t) (s : string) : bool :=
  match exec anchored r s with Some _ => true | None => false end.

(** Capture [i] of a match, numbered from 1 as in [m[i]].  The groups
    that the source reads take part in every match of their pattern; for
    a group that took no part ([undefined]) the empty string stands in. *)
Definition group (m : found) (i : nat) : string :=
  match f_caps m !! (i - 1)%nat with
  | Some (Some g) => g
  | _ => EmptyString
  end.

(** [s.replace(re, fn)] for a pattern with the [g] flag and a callback:
    every match, leftmost first, is replaced by [fn] of the match.
    [skip] counts the characters of a match that was just replaced and
    that are still to be passed over. *)
Fixpoint replaceAllFrom (r : t) (fn : string -> captures -> string)
    (skip : nat) (s : string) : string :=
  match skip with
  | S n =>
      match s with
      | EmptyString => EmptyString
      | String _ s' => replaceAllFrom r fn n s'
      end
  | O =>
      match matchHere r s with
      | Some (rest, caps) =>
          let m := consumed s rest in
          match s with
          | EmptyString => fn m caps
          | String c s' =>
              match String.length m with
              | O => fn m caps +:+ String c (replaceAllFrom r fn O s')
              | S n => fn m caps +:+ replaceAllFrom r fn n s'
              end
          end
      | None =>
          match s with
          | EmptyString => EmptyString
          | String c s' => String c (replaceAllFrom r fn O s')
          end
      end
  end.

Definition replaceAll (r : t) (fn : string -> captures -> string) (s : string) : string :=
  replaceAllFrom r fn O s.

(** Character classes of the patterns. *)
Definition letter_or_dash (c : ascii) : bool :=
  let n := N_of_ascii c in
  (((97 <=? n) && (n <=? 122)) || ((65 <=? n) && (n <=? 90)) || (n =? 45))%N.
Definition not_chr (x : ascii) (c : ascii) : bool := negb (Ascii.eqb c x).
Definition none_of (x y : ascii) (c : ascii) : bool :=
  negb (Ascii.eqb c x) && negb (Ascii.eqb c y).
Definition dot (c : ascii) : bool := negb (JS.is_line_terminator c).

Fixpoint seq (rs : list t) : t :=
  match rs with
  | [] => Lit EmptyString
  | [r] => r
  | r :: rs' => Seq r (seq rs')
  end.

End Regex.

(** ** [class CSSParser] *)

Module CSSParser.

Import Regex.

(** *** [parseRules]: the tokenizer *)

(** The local variables of [parseRules].  [stringChar] starts as the empty
    string, which no character equals: [None]. *)
Record PState : Type := mkPState {
  rules : list string;
  currentRule : string;
  depth : Z;
  inString : bool;
  stringChar : option ascii;
  inComment : bool;
  inVarFunction : bool;
  parenDepth : Z }.

Definition initial : PState :=
  mkPState [] EmptyString 0 false None false false 0.

Definition set_string (b : bool) (q : option ascii) (st : PState) : PState :=
  mkPState (rules st) (currentRule st) (depth st) b q
           (inComment st) (inVarFunction st) (parenDepth st).

Definition set_comment (b : bool) (st : PState) : PState :=
  mkPState (rules st) (currentRule st) (depth st) (inString st) (stringChar st)
           b (inVarFunction st) (parenDepth st).

Definition set_var (b : bool) (pd : Z) (st : PState) : PState :=
  mkPState (rules st) (currentRule st) (depth st) (inString st) (stringChar st)
           (inComment st) b pd.

Definition set_rule (rs : list string) (cur : string) (d : Z) (st : PState) : PState :=
  mkPState rs cur d (inString st) (stringChar st)
           (inComment st) (inVarFunction st) (parenDepth st).

(** How the loop index moves after the body: [Next] is the plain [i++] of
    the [for]; [SkipOne] is the extra [i++] before [continue] at a comment
    delimiter; [SkipLine] is the [while] that runs to the end of the line,
    whose line feed the [i++] of the [for] then passes over. *)
Inductive Jump : Type := Next | SkipOne | SkipLine.

(** A double quote (code 34) or a single quote. *)
Definition is_quote (c : ascii) : bool := Ascii.eqb c "034" || Ascii.eqb c "'".

Definition next_is (rest : string) (x : ascii) : bool :=
  match rest with
  | String n _ => Ascii.eqb n x
  | EmptyString => false
  end.

Definition same_char (a : option ascii) (c : ascii) : bool :=
  match a with Some x => Ascii.eqb x c | None => false end.

(** "Handle strings": the first statement of the loop body. *)
Definition quoteStep (prev : option ascii) (c : ascii) (st : PState) : PState :=
  if negb (inComment st) && is_quote c then
    if negb (inString st) then set_string true (Some c) st
    else if same_char (stringChar st) c && negb (same_char prev "\") then
      set_string false (stringChar st) st
    else st
  else st.

(** "Track var() functions". *)
Definition varStep (c : ascii) (rest : string) (st : PState) : PState :=
  if negb (inString st) then
    let st1 :=
      if Ascii.eqb c "v" && String.eqb (JS.take 4 (String c rest)) "var("
      then set_var true (parenDepth st) st else st in
    if inVarFunction st1 then
      if Ascii.eqb c "(" then set_var true (parenDepth st1 + 1) st1
      else if Ascii.eqb c ")" then
        let pd := parenDepth st1 - 1 in
        if pd =? 0 then set_var false pd st1 else set_var true pd st1
      else st1
    else st1
  else st.

(** [currentRule += char] and "Track braces for rule boundaries". *)
Definition braceStep (c : ascii) (st : PState) : PState :=
  let cur := currentRule st +:+ String c EmptyString in
  if Ascii.eqb c "{" && negb (inString st) && negb (inVarFunction st) then
    set_rule (rules st) cur (depth st + 1) st
  else if Ascii.eqb c "}" && negb (inString st) && negb (inVarFunction st) then
    let d := depth st - 1 in
    if d =? 0 then set_rule (rules st ++ [JS.trim cur]) EmptyString d st
    else set_rule (rules st) cur d st
  else set_rule (rules st) cur (depth st) st.

(** One run of the loop body at the character [c]: [prev] is [css[i - 1]]
    and [rest] is what follows [c]. *)
Definition body (prev : option ascii) (c : ascii) (rest : string) (st : PState)
    : PState * Jump :=
  let st1 := quoteStep prev c st in
  if negb (inString st1) && Ascii.eqb c "/" && next_is rest "*" then
    (set_comment true st1, SkipOne)
  else if inComment st1 && Ascii.eqb c "*" && next_is rest "/" then
    (set_comment false st1, SkipOne)
  else if inComment st1 then (st1, Next)
  else if negb (inString st1) && Ascii.eqb c "/" && next_is rest "/" then
    (st1, SkipLine)
  else (braceStep c (varStep c rest st1), Next).

(** The [for] loop over the characters of [css], from the one at the head
    of [s] on. *)
Fixpoint loop (j : Jump) (prev : option ascii) (s : string) (st : PState) : PState :=
  match s with
  | EmptyString => st
  | String c rest =>
      match j with
      | Next => let '(st', j') := body prev c rest st in loop j' (Some c) rest st'
      | SkipOne => loop Next (Some c) rest st
      | SkipLine =>
          if Ascii.eqb c "010" then loop Next (Some c) rest st
          else loop SkipLine (Some c) rest st
      end
  end.

(** "Add any remaining content". *)
Definition flush (st : PState) : list string :=
  if JS.isEmpty (JS.trim (currentRule st)) then rules st
  else rules st ++ [JS.trim (currentRule st)].

Definition parseRules (css : string) : list string :=
  flush (loop Next None css initial).

(** *** Selector scoping *)

(** The patterns are quoted with blanks between their tokens.

    The second group of the pseudo-class pattern, which the [:host]
    patterns share:  ( ::? [a-zA-Z-]+ ( \( [^)]* \) )? )  *)
Definition re_pseudo : Regex.t :=
  Grp (seq [Lit ":"; Opt (Lit ":"); Plus letter_or_dash;
            Opt (Grp (seq [Lit "("; Star (not_chr ")"); Lit ")"]))]).

(** ^ ( [a-zA-Z-]* ) ( ::? [a-zA-Z-]+ ( \( [^)]* \) )? ) $ *)
Definition re_base_pseudo : Regex.t :=
  seq [Grp (Star letter_or_dash); re_pseudo; Eoi].

(** ^ -- [a-zA-Z-]+ $ *)
Definition re_custom_property : Regex.t :=
  seq [Lit "--"; Plus letter_or_dash; Eoi].

(** ^ :host \( ( [^)]+ ) \) $ *)
Definition re_host_class : Regex.t :=
  seq [Lit ":host("; Grp (Plus (not_chr ")")); Lit ")"; Eoi].

(** ^ :host \( ( [^)]+ ) \) ( ::? [a-zA-Z-]+ ( \( [^)]* \) )? ) $ *)
Definition re_host_class_pseudo : Regex.t :=
  seq [Lit ":host("; Grp (Plus (not_chr ")")); Lit ")"; re_pseudo; Eoi].

(** ^ :host ( ::? [a-zA-Z-]+ ( \( [^)]* \) )? ) $ *)
Definition re_host_pseudo : Regex.t :=
  seq [Lit ":host"; re_pseudo; Eoi].

Definition handleHostSelector (selector scopeSelector : string) : string :=
  if String.eqb selector ":host" then scopeSelector
  else
    match exec true re_host_class selector with
    | Some m => scopeSelector +:+ group m 1
    | None =>
        match exec true re_host_class_pseudo selector with
        | Some m => scopeSelector +:+ group m 1 +:+ group m 2
        | None =>
            match exec true re_host_pseudo selector with
            | Some m => scopeSelector +:+ group m 1
            | None => JS.replace selector ":host" scopeSelector
            end
        end
    end.

(** The callback of [map] in [scopeSelectors]. *)
Definition scopeSelector1 (scopeSelector selector : string) : string :=
  let trimmed := JS.trim selector in
  if JS.startsWith trimmed "@" then trimmed
  else if String.eqb trimmed "html" || String.eqb trimmed ":root"
          || String.eqb trimmed "body" then trimmed
  else if JS.startsWith trimmed ":host" then handleHostSelector trimmed scopeSelector
  else
    match exec true re_base_pseudo trimmed with
    | Some m =>
        let base := group m 1 in
        let pseudo := group m 2 in
        if String.eqb base "host" || String.eqb base EmptyString
        then scopeSelector +:+ pseudo
        else scopeSelector +:+ " " +:+ base +:+ pseudo
    | None =>
        if test true re_custom_property trimmed then trimmed
        else scopeSelector +:+ " " +:+ trimmed
    end.

Definition scopeSelectors (selectors scopeSelector : string) : string :=
  JS.join ", " (map (scopeSelector1 scopeSelector) (JS.split "," selectors)).

(** The callback of [map] in [scopeSelectorsSafe]. *)
Definition scopeSelectorSafe1 (scopeSelector selector : string) : string :=
  let trimmed := JS.trim selector in
  if JS.startsWith trimmed "--" then trimmed
  else if JS.startsWith trimmed "@" then trimmed
  else if String.eqb trimmed "html" || String.eqb trimmed ":root"
          || String.eqb trimmed "body" then trimmed
  else if JS.startsWith trimmed ":host" then JS.replace trimmed ":host" scopeSelector
  else scopeSelector +:+ " " +:+ trimmed.

Definition scopeSelectorsSafe (selectors scopeSelector : string) : string :=
  JS.join ", " (map (scopeSelectorSafe1 scopeSelector) (JS.split "," selectors)).

(** *** The manual parser: [scopeWithManualParser], [scopeRule], [scopeAtRule]

    The three call each other; the recursion goes through the text between
    the braces of an at-rule, which is shorter than the rule.  [self] is the
    recursive call to [scopeWithManualParser]; [None] says that the bound on
    the nesting was reached. *)

Definition nonScopedAtRules : list string :=
  ["@keyframes"; "@-webkit-keyframes"; "@-moz-keyframes"; "@font-face";
   "@import"; "@charset"; "@namespace"].

Section ManualParser.
Variable self : string -> string -> option string.

Definition scopeAtRuleIn (rule beforeBrace afterBrace scopeSelector : string)
    : option string :=
  if existsb (JS.startsWith beforeBrace) nonScopedAtRules then Some rule
  else if JS.startsWith beforeBrace "@media" || JS.startsWith beforeBrace "@supports"
          || JS.startsWith beforeBrace "@container" || JS.startsWith beforeBrace "@layer"
  then
    let innerStart := JS.indexOf afterBrace "{" + 1 in
    let innerEnd := JS.lastIndexOf afterBrace "}" in
    if innerEnd <=? innerStart then Some rule
    else
      let innerCSS := JS.substring afterBrace innerStart innerEnd in
      match self innerCSS scopeSelector with
      | Some scopedInner => Some (beforeBrace +:+ " {" +:+ scopedInner +:+ "}")
      | None => None
      end
  else Some rule.

Definition scopeRuleIn (rule scopeSelector : string) : option string :=
  let firstBrace := JS.indexOf rule "{" in
  if firstBrace =? -1 then Some rule
  else
    let beforeBrace := JS.trim (JS.substring rule 0 firstBrace) in
    let afterBrace := JS.substringFrom rule firstBrace in
    if JS.startsWith beforeBrace "@" then
      scopeAtRuleIn rule beforeBrace afterBrace scopeSelector
    else Some (scopeSelectors beforeBrace scopeSelector +:+ afterBrace).

(** The loop [result += scopeRule(rule, scopeSelector) + "\n"]. *)
Fixpoint scopeRulesIn (result : string) (rs : list string) (scopeSelector : string)
    : option string :=
  match rs with
  | [] => Some result
  | rule :: rs' =>
      match scopeRuleIn rule scopeSelector with
      | Some scoped =>
          scopeRulesIn (result +:+ scoped +:+ String "010" EmptyString) rs' scopeSelector
      | None => None
      end
  end.
End ManualParser.

Fixpoint scopeWithManualParserN (n : nat) (css scopeSelector : string) : option string :=
  match n with
  | O => None
  | S n' => scopeRulesIn (scopeWithManualParserN n') EmptyString (parseRules css) scopeSelector
  end.

(** A rule list nested [k] deep is at least [2 * k] characters long. *)
Definition scopeWithManualParser (css scopeSelector : string) : option string :=
  scopeWithManualParserN (S (String.length css)) css scopeSelector.

(** [scopeRule] and [scopeAtRule] on a rule: the text between its braces
    is shorter than the rule. *)
Definition scopeRule (rule scopeSelector : string) : option string :=
  scopeRuleIn (scopeWithManualParserN (String.length rule)) rule scopeSelector.

Definition scopeAtRule (rule beforeBrace afterBrace scopeSelector : string)
    : option string :=
  scopeAtRuleIn (scopeWithManualParserN (String.length rule))
                rule beforeBrace afterBrace scopeSelector.

(** The head of a rule, [beforeBrace] in [scopeRule]. *)
Definition ruleHead (rule : string) : string :=
  JS.trim (JS.substring rule 0 (JS.indexOf rule "{")).

(** *** [scopeCSSSafe]: the line-based scoping of the render path *)

(** The local variables [result], [inRule] and [currentSelectors]. *)
Record SafeState : Type := mkSafe {
  result : string; inRule : bool; currentSelectors : string }.

Definition nl : string := String "010" EmptyString.

(** The body of [for (let line of lines)]. *)
Definition safeLine (scopeSelector : string) (st : SafeState) (line : string) : SafeState :=
  let trimmed := JS.trim line in
  if JS.isEmpty trimmed then
    mkSafe (result st +:+ line +:+ nl) (inRule st) (currentSelectors st)
  else if JS.includes trimmed "{" && negb (JS.includes trimmed "}") then
    let selectors := JS.trim (JS.substring trimmed 0 (JS.indexOf trimmed "{")) in
    let scopedSelectors := scopeSelectorsSafe selectors scopeSelector in
    mkSafe (result st +:+ scopedSelectors +:+ " {"
              +:+ JS.substringFrom trimmed (JS.indexOf trimmed "{" + 1) +:+ nl)
           true selectors
  else if JS.includes trimmed "}" && negb (JS.includes trimmed "{") then
    mkSafe (result st +:+ line +:+ nl) false (currentSelectors st)
  else if inRule st then
    mkSafe (result st +:+ line +:+ nl) (inRule st) (currentSelectors st)
  else if JS.startsWith trimmed "@media" || JS.startsWith trimmed "@supports"
          || JS.startsWith trimmed "@keyframes" || JS.startsWith trimmed "@font-face"
  then mkSafe (result st +:+ line +:+ nl) (inRule st) (currentSelectors st)
  else mkSafe (result st +:+ line +:+ nl) (inRule st) (currentSelectors st).

Definition scopeCSSSafe (css scopeSelector : string) : string :=
  result (fold_left (safeLine scopeSelector) (JS.split "010" css)
            (mkSafe EmptyString false EmptyString)).

(** *** [validate] *)

(** An error object, by its message. *)
Inductive Thrown : Type := Error (message : string).

(** What the page offers as [CSSStyleSheet]: nothing, or a constructor;
    [sheetThrows css] is what [new CSSStyleSheet()] followed by
    [replaceSync(css)] throws, if anything. *)
Inductive StyleSheetHost : Type :=
| NoCSSStyleSheet
| HasCSSStyleSheet (sheetThrows : string -> option Thrown).

(** "Basic bracket matching validation": the loop, which either runs to
    the end with a count of braces or throws. *)
Fixpoint validateLoop (prev : option ascii) (s : string)
    (braces : Z) (inStr : bool) (strChar : option ascii) : Thrown + Z :=
  match s with
  | EmptyString => inr braces
  | String c rest =>
      let '(inStr1, strChar1) :=
        if is_quote c then
          if negb inStr then (true, Some c)
          else if same_char strChar c && negb (same_char prev "\") then (false, strChar)
          else (inStr, strChar)
        else (inStr, strChar) in
      if negb inStr1 then
        let b1 := if Ascii.eqb c "{" then braces + 1 else braces in
        let b2 := if Ascii.eqb c "}" then b1 - 1 else b1 in
        if b2 <? 0 then inl (Error "Unmatched closing brace")
        else validateLoop (Some c) rest b2 inStr1 strChar1
      else validateLoop (Some c) rest braces inStr1 strChar1
  end.

(** The [try] block of [validate] without the [CSSStyleSheet] branch. *)
Definition validateManual (css : string) : Thrown + bool :=
  match validateLoop None css 0 false None with
  | inl e => inl e
  | inr braces => if braces =? 0 then inr true else inl (Error "Unmatched braces")
  end.

(** [validate]: whatever the [try] block throws is caught and answered by
    [false]. *)
Definition validate (host : StyleSheetHost) (css : string) : bool :=
  let attempt :=
    match host with
    | HasCSSStyleSheet sheetThrows =>
        match sheetThrows css with
        | Some error => inl error
        | None => inr true
        end
    | NoCSSStyleSheet => validateManual css
    end in
  match attempt with
  | inr b => b
  | inl _ => false
  end.

(** *** [fixBrokenCSS] and [needsFix] *)

Definition var_value_char (c : ascii) : bool := none_of ")" "," c.

(** var\( ( -- [a-zA-Z-]+ ) , \s* ( \[ [^\]]+ \] \s* [^),]+ ) \)  with the [g] flag *)
Definition brokenVarPattern : Regex.t :=
  seq [Lit "var("; Grp (seq [Lit "--"; Plus letter_or_dash]); Lit ",";
       Star JS.is_whitespace;
       Grp (seq [Lit "["; Plus (not_chr "]"); Lit "]"; Star JS.is_whitespace;
                 Plus var_value_char]);
       Lit ")"].

(** \] \s* ( .+ ) $ *)
Definition valuePattern : Regex.t :=
  seq [Lit "]"; Star JS.is_whitespace; Grp (Plus dot); Eoi].

(** The callback given to [replace]: [varName] and [brokenValue] are the
    two captures. *)
Definition fixOne (matched : string) (caps : captures) : string :=
  let m := Found EmptyString matched caps EmptyString in
  let varName := group m 1 in
  let brokenValue := group m 2 in
  let cleanValue :=
    match exec false valuePattern brokenValue with
    | Some valueMatch => group valueMatch 1
    | None => brokenValue
    end in
  "var(" +:+ varName +:+ ", " +:+ cleanValue +:+ ")".

Definition fixBrokenCSS (css : string) : string :=
  replaceAll brokenVarPattern fixOne css.

(** var\( -- [a-zA-Z-]+ , \s* \[ [^\]]+ \] \s* [^),]+ \) *)
Definition brokenPattern : Regex.t :=
  seq [Lit "var("; Lit "--"; Plus letter_or_dash; Lit ",";
       Star JS.is_whitespace;
       Lit "["; Plus (not_chr "]"); Lit "]"; Star JS.is_whitespace;
       Plus var_value_char;
       Lit ")"].

Definition needsFix (css : string) : bool := test false brokenPattern css.

(** *** [extractFromHTML] and [removeFromHTML]

    Both run the pattern
      < s t y l e \b [^>]* > ( [\s\S]*? ) < \/ s t y l e >
    with the flags [g] and [i]; [removeFromHTML] has it without the
    capturing group. *)

(** What the flag [i] compares, for a pattern character below 128: the
    letters [a] to [z] count as their capitals. *)
Definition upper (c : ascii) : ascii :=
  let n := N_of_ascii c in
  if ((97 <=? n) && (n <=? 122))%N then ascii_of_N (n - 32) else c.

(** Whether the literal [p] is at the head of [s], cases ignored. *)
Fixpoint isPrefixCI (p s : string) : bool :=
  match p with
  | EmptyString => true
  | String a p' =>
      match s with
      | EmptyString => false
      | String b s' => Ascii.eqb (upper a) (upper b) && isPrefixCI p' s'
      end
  end.

(** The class [\w]. *)
Definition is_word (c : ascii) : bool :=
  let n := N_of_ascii c in
  (((97 <=? n) && (n <=? 122)) || ((65 <=? n) && (n <=? 90))
   || ((48 <=? n) && (n <=? 57)) || (n =? 95))%N.

(** [\b] after the letter [e] of the tag name, a word character: what
    follows is the end of the text or no word character. *)
Definition boundaryAfterWord (s : string) : bool :=
  match s with
  | EmptyString => true
  | String c _ => negb (is_word c)
  end.

(** Lazy [[\s\S]*?]: the shortest run first, then longer ones. *)
Fixpoint lazyAny {A : Type} (s : string) (k : string -> option A) : option A :=
  match k s with
  | Some x => Some x
  | None =>
      match s with
      | EmptyString => None
      | String _ s' => lazyAny s' k
      end
  end.

(** A match of the pattern at the head of [s]: the text of the capturing
    group and the text after the match. *)
Definition matchStyle (s : string) : option (string * string) :=
  if isPrefixCI "<style" s then
    let s1 := JS.drop 6 s in
    if boundaryAfterWord s1 then
      star (not_chr ">") s1 (fun s2 =>
        if JS.isPrefix ">" s2 then
          let s3 := JS.drop 1 s2 in
          lazyAny s3 (fun s4 =>
            if isPrefixCI "</style>" s4 then Some (consumed s3 s4, JS.drop 8 s4)
            else None)
        else None)
    else None
  else None.

(** The loop [while ((match = styleRegex.exec(html)) !== null)] from the
    text [s] on: [css += match[1].trim() + "\n"] for every match, leftmost
    first, each search starting where the match before ended.  [skip]
    counts the characters of a match that are still to be passed over. *)
Fixpoint extractFrom (skip : nat) (s : string) : string :=
  match skip with
  | S n =>
      match s with
      | EmptyString => EmptyString
      | String _ s' => extractFrom n s'
      end
  | O =>
      match matchStyle s with
      | Some (content, rest) =>
          JS.trim content +:+ nl
            +:+ match s with
                | EmptyString => EmptyString
                | String _ s' =>
                    extractFrom (String.length s - String.length rest - 1) s'
                end
      | None =>
          match s with
          | EmptyString => EmptyString
          | String _ s' => extractFrom O s'
          end
      end
  end.

Definition extractFromHTML (html : string) : string := JS.trim (extractFrom O html).

(** [html.replace(pattern, "")] from the text [s] on. *)
Fixpoint removeFrom (skip : nat) (s : string) : string :=
  match skip with
  | S n =>
      match s with
      | EmptyString => EmptyString
      | String _ s' => removeFrom n s'
      end
  | O =>
      match matchStyle s with
      | Some (_, rest) =>
          match s with
          | EmptyString => EmptyString
          | String _ s' => removeFrom (String.length s - String.length rest - 1) s'
          end
      | None =>
          match s with
          | EmptyString => EmptyString
          | String c s' => String c (removeFrom O s')
          end
      end
  end.

Definition removeFromHTML (html : string) : string := removeFrom O html.

End CSSParser.

(** ** [class ComponentLoader] *)

Module ComponentLoader.

Import CSSParser.

(** The fields of [ComponentLoader.config] that the modelled methods read. *)
Record Config : Type := mkConfig {
  cache : bool;
  retryCount : nat;
  retryDelay : Z;
  scopeCSS : bool;
  validateCSS : bool;
  errorHandling : string }.

Definition defaultConfig : Config := mkConfig true 2 1000 true true "graceful".

(** What the page provides: whether [window.CSSParser] is set, and its
    [CSSStyleSheet]. *)
Record Host : Type := mkHost {
  windowCSSParser : bool;
  styleSheets : StyleSheetHost }.

(** *** Injected styles *)

(** A [style] element made by [document.createElement]; [node] is its
    identity. *)
Record StyleElement : Type := mkStyle {
  node : nat;
  componentScope : string;
  componentStyle : string;
  textContent : string }.

(** The children of [document.head], the map [ComponentLoader.styles] and
    the identity of the next element to be created. *)
Record Page : Type := mkPage {
  headChildren : list StyleElement;
  styles : gmap string (list StyleElement);
  nextNode : nat }.

Definition injectStyles (css scopeId : string) (page : Page)
    : option StyleElement * Page :=
  if JS.isEmpty (JS.trim css) then (None, page)
  else
    let style := mkStyle (nextNode page) scopeId "true" css in
    let head1 := headChildren page ++ [style] in
    let styles1 :=
      match styles page !! scopeId with
      | Some _ => styles page
      | None => <[scopeId := []]> (styles page)
      end in
    let styles2 := <[scopeId := default [] (styles1 !! scopeId) ++ [style]]> styles1 in
    (Some style, mkPage head1 styles2 (S (nextNode page))).

(** [parent.removeChild(style)]: an element is known by its identity. *)
Definition removeChild (style : StyleElement) (children : list StyleElement)
    : list StyleElement :=
  List.filter (fun child => negb (Nat.eqb (node child) (node style))) children.

(** Whether [style.parentNode] is set.  The loader puts the style elements
    it records into the head and nowhere else, so the parent of a recorded
    element is the head or [null]. *)
Definition hasParent (style : StyleElement) (children : list StyleElement) : bool :=
  existsb (fun child => Nat.eqb (node child) (node style)) children.

(** [cleanupStyles(scopeId)]: the list held for the scope id is an array
    and so counts as true, also when it is empty. *)
Definition cleanupStyles (scopeId : string) (page : Page) : Page :=
  match styles page !! scopeId with
  | Some recorded =>
      let head1 :=
        fold_left (fun children style =>
                     if hasParent style children then removeChild style children
                     else children)
                  recorded (headChildren page) in
      mkPage head1 (delete scopeId (styles page)) (nextNode page)
  | None => page
  end.

(** The attribute selector built from a scope id; code 34 is the double
    quote. *)
Definition quot : string := String "034" EmptyString.

Definition scopeSelectorOf (scopeId : string) : string :=
  "[data-component-id=" +:+ quot +:+ scopeId +:+ quot +:+ "]".

(** *** [simpleScopeCSS]: the fallback scoping *)

Definition simpleSelector (scopeSelector s : string) : string :=
  if JS.startsWith s ":host" then JS.replace s ":host" scopeSelector
  else if String.eqb s "html" || String.eqb s ":root" || JS.startsWith s "@" then s
  else scopeSelector +:+ " " +:+ s.

(** The body of the loop over the lines; [inVarFunction] is never assigned
    after its declaration. *)
Definition simpleLine (scopeSelector : string) (inVarFunction : bool) (line : string)
    : string :=
  if negb inVarFunction && JS.includes line "{" && negb (JS.includes line "}") then
    match JS.split "{" line with
    | [part0; content] =>
        let selectors := JS.trim part0 in
        if negb (JS.startsWith selectors "--") then
          JS.join ", " (map (simpleSelector scopeSelector)
                            (map JS.trim (JS.split "," selectors)))
            +:+ " {" +:+ content
        else line
    | _ => line
    end
  else line.

Definition simpleScopeCSS (css scopeId : string) : string :=
  let scopeSelector := scopeSelectorOf scopeId in
  fold_left (fun result line => result +:+ simpleLine scopeSelector false line +:+ nl)
            (JS.split "010" css) EmptyString.

(** *** [injectScopedStyles] *)

(** The text handed to [injectStyles], or the error of the strict policy;
    the warnings written to the console are left out. *)
Definition scopedText (cfg : Config) (host : Host) (css scopeId : string)
    : Thrown + string :=
  let css1 :=
    if windowCSSParser host && needsFix css then fixBrokenCSS css else css in
  let invalid :=
    validateCSS cfg && windowCSSParser host && negb (validate (styleSheets host) css1) in
  if invalid && String.eqb (errorHandling cfg) "strict" then
    inl (Error "Invalid CSS syntax")
  else if windowCSSParser host then
    let scopedCSS := scopeCSSSafe css1 (scopeSelectorOf scopeId) in
    inr (if needsFix scopedCSS then fixBrokenCSS scopedCSS else scopedCSS)
  else inr (simpleScopeCSS css1 scopeId).

Definition injectScopedStyles (cfg : Config) (host : Host) (css scopeId : string)
    (page : Page) : Thrown + (option StyleElement * Page) :=
  if JS.isEmpty (JS.trim css) then inr (None, page)
  else
    match scopedText cfg host css scopeId with
    | inl e => inl e
    | inr scopedCSS => inr (injectStyles scopedCSS scopeId page)
    end.

(** *** Fetching with retries *)

Record ComponentData : Type := mkData { html : string; css : string }.

(** What the loader does to the outside world, in order: a call of
    [fetchComponent] and a wait of [delay(ms)]. *)
Inductive Event : Type :=
| Fetch (name : string)
| Delay (ms : Z).

Definition is_fetch (e : Event) : bool :=
  match e with Fetch _ => true | Delay _ => false end.

(** How many calls of [fetchComponent] a trace holds. *)
Definition fetches (trace : list Event) : nat := length (List.filter is_fetch trace).

Section Network.

(** The network: what the call number [k] of [fetchComponent] (counted
    from 0) does for a component name, either a thrown error or the
    extracted markup and style text. *)
Variable network : nat -> string -> Thrown + ComponentData.

Definition fetchComponent (name : string) (trace : list Event)
    : (Thrown + ComponentData) * list Event :=
  (network (fetches trace) name, trace ++ [Fetch name]).

Definition delay (ms : Z) (trace : list Event) : list Event := trace ++ [Delay ms].

(** [for (let i = 0; i <= retryCount; i++)] from the iteration [i] on,
    when [left] iterations remain; after the loop, [throw lastError].
    [lastError] is [None] while it is [undefined].  The numbers of the
    configuration are whole numbers; the counter and the product
    [retryDelay * (i + 1)] are those of the code as long as they stay
    within [2^53] in absolute value, where its arithmetic on doubles
    is exact. *)
Fixpoint retryLoop (cfg : Config) (name : string) (left i : nat)
    (lastError : option Thrown) (trace : list Event)
    : (option Thrown + ComponentData) * list Event :=
  match left with
  | O => (inl lastError, trace)
  | S left' =>
      match fetchComponent name trace with
      | (inr data, trace1) => (inr data, trace1)
      | (inl error, trace1) =>
          let trace2 :=
            if (i <? retryCount cfg)%nat
            then delay (retryDelay cfg * (Z.of_nat i + 1)) trace1
            else trace1 in
          retryLoop cfg name left' (S i) (Some error) trace2
      end
  end.

Definition fetchComponentWithRetry (cfg : Config) (name : string) (trace : list Event)
    : (option Thrown + ComponentData) * list Event :=
  retryLoop cfg name (S (retryCount cfg)) 0 None trace.

(** *** [loadComponent] *)

(** A placeholder element: its [dataset] and its content. *)
Record Element : Type := mkElement {
  dataset : gmap string string;
  innerHTML : string }.

Definition set_data (k v : string) (el : Element) : Element :=
  mkElement (<[k := v]> (dataset el)) (innerHTML el).

Definition delete_data (k : string) (el : Element) : Element :=
  mkElement (delete k (dataset el)) (innerHTML el).

(** An entry of [ComponentLoader.loadingStates], without the element and
    the times. *)
Record LoadingState : Type := mkLoading {
  ls_name : string;
  ls_retryCount : nat;
  ls_error : option (option Thrown) }.

(** The static maps of the class and the trace of its effects. *)
Record Loader : Type := mkLoader {
  components : gmap string ComponentData;
  loadingStates : gmap string LoadingState;
  trace : list Event }.

(** [renderComponent] and the markup of the error panel work on the
    document; they are taken as given.  [renderComponent] answers with the
    element as it left it and with the error it threw, if any. *)
Variable renderComponent : Element -> ComponentData -> string -> option Thrown * Element.
Variable errorHTML : string -> option Thrown -> string.

Definition renderError (el : Element) (componentName : string) (error : option Thrown)
    : Element :=
  mkElement (<["errorComponent" := componentName]> (dataset el))
            (errorHTML componentName error).

(** [error.message]; reading it from [undefined] is not modelled, the
    retry loop never throws [undefined]. *)
Definition message_of (error : option Thrown) : string :=
  match error with
  | Some (Error m) => m
  | None => EmptyString
  end.

(** The outcome of [loadComponent]: it returns, or it rejects with the
    error it rethrows under the strict policy. *)
Inductive Outcome : Type :=
| Returned
| Rejected (error : option Thrown).

(** The [try] block up to the end of rendering: the text of the component
    from the cache or from the network, then [renderComponent].  The first
    component of the answer is what the block threw, if anything.  The
    second argument of [fetchComponentWithRetry] is not read by it. *)
Definition loadAndRender (cfg : Config) (name : string) (el : Element) (ld : Loader)
    : option (option Thrown) * Element * Loader :=
  let cached := if cache cfg then components ld !! name else None in
  let '(fetched, ld1) :=
    match cached with
    | Some data => (inr data, ld)
    | None =>
        match fetchComponentWithRetry cfg name (trace ld) with
        | (inr data, trace1) =>
            (inr data,
             mkLoader (if cache cfg then <[name := data]> (components ld)
                       else components ld)
                      (loadingStates ld) trace1)
        | (inl error, trace1) =>
            (inl error, mkLoader (components ld) (loadingStates ld) trace1)
        end
    end in
  match fetched with
  | inr data =>
      match renderComponent el data name with
      | (None, el1) => (None, el1, ld1)
      | (Some error, el1) => (Some (Some error), el1, ld1)
      end
  | inl error => (Some error, el, ld1)
  end.

(** [loadComponent(name, element, retry)]; [loadId] is the identifier the
    method builds from the clock and a random number.  What it writes to
    the log and the event it dispatches are left out. *)
Definition loadComponent (cfg : Config) (loadId name : string) (el : Element)
    (retry : nat) (ld : Loader) : Outcome * Element * Loader :=
  let el0 := set_data "loadId" loadId (set_data "loading" "true" el) in
  let ld0 := mkLoader (components ld)
                      (<[loadId := mkLoading name retry None]> (loadingStates ld))
                      (trace ld) in
  match loadAndRender cfg name el0 ld0 with
  | (None, el1, ld1) =>
      let el2 := delete_data "loadId" (delete_data "error"
                   (set_data "loading" "false" (set_data "loaded" "true" el1))) in
      (Returned, el2,
       mkLoader (components ld1) (delete loadId (loadingStates ld1)) (trace ld1))
  | (Some error, el1, ld1) =>
      let el2 := set_data "errorMessage" (message_of error)
                   (set_data "error" "true"
                     (set_data "loaded" "false" (set_data "loading" "false" el1))) in
      let ld2 :=
        mkLoader (components ld1)
                 (match loadingStates ld1 !! loadId with
                  | Some st => <[loadId := mkLoading (ls_name st) (ls_retryCount st)
                                             (Some error)]> (loadingStates ld1)
                  | None => loadingStates ld1
                  end)
                 (trace ld1) in
      if String.eqb (errorHandling cfg) "graceful" then
        let el3 :=
          match dataset el2 !! "errorRendered" with
          | Some v =>
              if JS.isEmpty v
              then set_data "errorRendered" "true" (renderError el2 name error)
              else el2
          | None => set_data "errorRendered" "true" (renderError el2 name error)
          end in
        (Returned, delete_data "loadId" el3, ld2)
      else (Rejected error, el2, ld2)
  end.

End Network.

(** *** [retryComponent] *)

Section Retrying.
Variable network : nat -> string -> Thrown + ComponentData.
Variable renderComponent : Element -> ComponentData -> string -> option Thrown * Element.
Variable errorHTML : string -> option Thrown -> string.

(** [retryComponent(button)] from the placeholder [errorDiv] that
    [button.closest] finds; the attribute [data-component] is
    [dataset.component].  The load that it starts is followed to its
    end.  The answer is [None] when the placeholder has neither name:
    the load of the name [null] is not modelled. *)
Definition retryComponent (cfg : Config) (loadId : string) (errorDiv : Element)
    (ld : Loader) : option (Outcome * Element * Loader) :=
  let name :=
    match dataset errorDiv !! "errorComponent" with
    | Some v => if JS.isEmpty v then dataset errorDiv !! "component" else Some v
    | None => dataset errorDiv !! "component"
    end in
  match name with
  | Some name =>
      let el1 := delete_data "errorMessage"
                   (delete_data "errorRendered" (delete_data "error" errorDiv)) in
      let el2 := mkElement (dataset el1) EmptyString in
      Some (loadComponent network renderComponent errorHTML cfg loadId name el2 0 ld)
  | None => None
  end.

End Retrying.

(** *** [getStatus] *)

(** An entry of [status.details], without the element. *)
Record Detail : Type := mkDetail {
  d_name : string;
  d_loaded : bool;
  d_loading : bool;
  d_error : bool;
  d_id : option string }.

Record Status : Type := mkStatus {
  s_total : nat;
  s_loaded : nat;
  s_loading : nat;
  s_error : nat;
  s_cached : nat;
  s_details : list Detail }.

(** [el.dataset[key] === "true"] *)
Definition data_is_true (el : Element) (key : string) : bool :=
  match dataset el !! key with
  | Some v => String.eqb v "true"
  | None => false
  end.

(** The callback of [forEach] in [getStatus], with the set [components]
    of the names met so far; the placeholders are the elements that have
    the attribute [data-component], which is [dataset.component]. *)
Definition statusStep (acc : gset string * Status) (el : Element) : gset string * Status :=
  let '(seen, status) := acc in
  let name := default EmptyString (dataset el !! "component") in
  if decide (name ∈ seen) then acc
  else
    (seen ∪ {[ name ]},
     mkStatus (S (s_total status))
       (if data_is_true el "loaded" then S (s_loaded status) else s_loaded status)
       (if data_is_true el "loading" then S (s_loading status) else s_loading status)
       (if data_is_true el "error" then S (s_error status) else s_error status)
       (s_cached status)
       (s_details status
          ++ [mkDetail name (data_is_true el "loaded") (data_is_true el "loading")
                (data_is_true el "error") (dataset el !! "componentId")])).

(** [document.querySelectorAll("[data-component]")] over the elements of
    the document, in document order. *)
Definition placeholders (document : list Element) : list Element :=
  List.filter (fun el => match dataset el !! "component" with
                         | Some _ => true
                         | None => false
                         end) document.

Definition getStatus (ld : Loader) (document : list Element) : Status :=
  snd (fold_left statusStep (placeholders document)
         (∅, mkStatus 0 0 0 0 (size (components ld)) [])).

(** *** [clearCache] and [cleanup] *)

(** [clearCache()] answers the number of entries the cache held. *)
Definition clearCache (ld : Loader) : nat * Loader :=
  (size (components ld), mkLoader ∅ (loadingStates ld) (trace ld)).

(** [cleanup()]: [forEach] visits every scope id of the map of styles,
    and [cleanupStyles] takes the visited entry out of the map.  The
    order of the visit, which the map of the model does not keep, plays
    no part in the result.  The map [pendingLoads], which no method
    fills, is left out. *)
Definition cleanup (ld : Loader) (page : Page) : Loader * Page :=
  let ld1 := snd (clearCache ld) in
  let page1 :=
    map_fold (fun scopeId _ p => cleanupStyles scopeId p) page (styles page) in
  (mkLoader (components ld1) ∅ (trace ld1), page1).

(** *** [log] *)

Definition logLevels : list string := ["error"; "warn"; "info"; "debug"].

(** [array.indexOf(x)], counting from [i]. *)
Fixpoint arrayIndexOf (x : string) (array : list string) (i : Z) : Z :=
  match array with
  | [] => -1
  | y :: array' => if String.eqb y x then i else arrayIndexOf x array' (i + 1)
  end.

(** [log(message, type)] under the configured [logLevel]: the console
    gets the message when [messageLevel <= currentLevel].  A line of the
    console is kept as the type and the message; the icon and the colour
    are left out. *)
Definition log (logLevel message type : string) (console : list (string * string))
    : list (string * string) :=
  let currentLevel := arrayIndexOf logLevel logLevels 0 in
  let messageLevel := arrayIndexOf type logLevels 0 in
  if messageLevel <=? currentLevel then console ++ [(type, message)] else console.

End ComponentLoader.

(** * Inputs of the examples *)

Module Samples.

Import CSSParser ComponentLoader.

(** The scope selector of the scope id [x]: the attribute selector
    data-component-id = x, with x in double quotes. *)
Definition scope_x : string := scopeSelectorOf "x".

(** The attribute selector id = x, with x in double quotes. *)
Definition id_x : string := "[id=" +:+ quot +:+ "x" +:+ quot +:+ "]".

Definition btn_rule : string := ".btn { background: var(--c, #fff); }".

Definition media_rule : string := "@media (max-width:768px){.a{color:red}}".

Definition keyframes_rule : string :=
  "@keyframes spin{from{transform:rotate(0deg)}to{transform:rotate(360deg)}}".

(** Three lines: the selector with the opening brace, one declaration,
    the closing brace. *)
Definition three_lines (selector declaration : string) : string :=
  selector +:+ " {" +:+ nl +:+ "  " +:+ declaration +:+ nl +:+ "}".

End Samples.

Module PageSamples.

Import ComponentLoader.

(** A page on which one style is recorded for the scope [x]. *)
Definition page_with_x : Page :=
  let style := mkStyle 0 "x" "true" ".a{}" in
  mkPage [style] {[ "x" := [style] ]} 1.

End PageSamples.

Module LoaderSamples.

Import CSSParser ComponentLoader.

(** A network on which every request is answered by 404. *)
Definition not_found : Thrown := Error "HTTP 404: Not Found".
Definition dead_network (k : nat) (name : string) : Thrown + ComponentData :=
  inl not_found.

(** A renderer that leaves the element alone, and an empty error panel. *)
Definition no_render (el : Element) (data : ComponentData) (name : string)
    : option Thrown * Element := (None, el).
Definition no_panel (name : string) (error : option Thrown) : string := EmptyString.

Definition placeholder : Element := mkElement ∅ EmptyString.
Definition fresh_loader : Loader := mkLoader ∅ ∅ [].

End LoaderSamples.

(** * Brace balance, stated apart from the code *)

Module Braces.

Import CSSParser.

(** Where a reader of the text stands: outside every string literal, or
    inside one opened by the quote [q]; [escaped] says that the character
    before was a backslash that escapes this one. *)
Inductive Lex : Type :=
| Outside
| Inside (q : ascii) (escaped : bool).

(** The characters of [s] that lie outside string literals.  A literal
    runs from a quote to the next same quote that is not escaped; inside
    a literal a backslash escapes the character after it. *)
Fixpoint outsideLiterals (st : Lex) (s : string) : string :=
  match s with
  | EmptyString => EmptyString
  | String c s' =>
      match st with
      | Outside =>
          if is_quote c then outsideLiterals (Inside c false) s'
          else String c (outsideLiterals Outside s')
      | Inside q true => outsideLiterals (Inside q false) s'
      | Inside q false =>
          if Ascii.eqb c "\" then outsideLiterals (Inside q true) s'
          else if Ascii.eqb c q then outsideLiterals Outside s'
          else outsideLiterals (Inside q false) s'
      end
  end.


(** How often the character [x] occurs in [w]. *)
Fixpoint count (x : ascii) (w : string) : Z :=
  match w with
  | EmptyString => 0
  | String c w' => (if Ascii.eqb c x then 1 else 0) + count x w'
  end.

(** No closing brace without an opening brace before it, and no opening
    brace left open at the end. *)
Definition balanced (w : string) : Prop :=
  (forall p r, w = p +:+ r -> count "}" p <= count "{" p)
  /\ count "{" w = count "}" w.

(** The loop of [validate] on a text without string literals. *)
Fixpoint countLoop (w : string) (b : Z) : Thrown + Z :=
  match w with
  | EmptyString => inr b
  | String c w' =>
      let b1 := if Ascii.eqb c "{" then b + 1 else b in
      let b2 := if Ascii.eqb c "}" then b1 - 1 else b1 in
      if b2 <? 0 then inl (Error "Unmatched closing brace") else countLoop w' b2
  end.



End Braces.

(** * The corruption pattern, stated apart from the matcher *)

Module Corruption.

Import Regex CSSParser.

(** Every character of [s] is in the class [p]. *)
Fixpoint all (p : ascii -> bool) (s : string) : bool :=
  match s with
  | EmptyString => true
  | String c s' => p c && all p s'
  end.

Definition nonEmpty (s : string) : bool := negb (JS.isEmpty s).

(** The text [var(--name,ws1[sel]ws2 value)]. *)
Definition brokenVar (name ws1 sel ws2 value : string) : string :=
  "var(--" +:+ name +:+ "," +:+ ws1 +:+ "[" +:+ sel +:+ "]" +:+ ws2
    +:+ value +:+ ")".

(** The parts of the corruption pattern: a name of letters and hyphens,
    blanks, a bracketed fragment without a closing bracket inside, blanks,
    and a value without closing parenthesis or comma. *)
Definition isBrokenVar (name ws1 sel ws2 value : string) : bool :=
  nonEmpty name && all letter_or_dash name
  && all JS.is_whitespace ws1
  && nonEmpty sel && all (not_chr "]") sel
  && all JS.is_whitespace ws2
  && nonEmpty value && all var_value_char value.


(** The repaired text [var(--name, value)]. *)
Definition repairedVar (name value : string) : string :=
  "var(--" +:+ name +:+ ", " +:+ value +:+ ")".

(** What is left of [s] after its longest head of characters of the
    class [p]. *)
Fixpoint skip (p : ascii -> bool) (s : string) : string :=
  match s with
  | String c s' => if p c then skip p s' else s
  | EmptyString => s
  end.

(** The text [s] begins like the corruption pattern: [var(--], a name of
    letters and hyphens, a comma, blanks and an opening bracket. *)
Definition beginsBroken (s : string) : bool :=
  JS.isPrefix "var(--" s
  && match JS.drop 6 s with
     | String c _ => letter_or_dash c
     | EmptyString => false
     end
  && (let afterName := skip letter_or_dash (JS.drop 6 s) in
      JS.isPrefix "," afterName
      && JS.isPrefix "[" (skip JS.is_whitespace (JS.drop 1 afterName))).

(** Such a beginning is somewhere in [s]. *)
Fixpoint holdsBeginning (s : string) : bool :=
  beginsBroken s
  || match s with
     | String _ s' => holdsBeginning s'
     | EmptyString => false
     end.

(** The pattern without its capturing groups. *)
Fixpoint strip (r : Regex.t) : Regex.t :=
  match r with
  | Seq a b => Seq (strip a) (strip b)
  | Grp r => strip r
  | Opt r => Opt (strip r)
  | _ => r
  end.

End Corruption.

(** * The language of a pattern, stated apart from the matcher *)

Module Language.

Import Regex.


End Language.

(** * Texts with several occurrences of the corruption pattern *)

Module Occurrences.

Import Regex CSSParser Corruption Language.







End Occurrences.

Module Greedy.

(** The text [rest] does not continue a run of the class [p]. *)
Definition stops (p : ascii -> bool) (rest : string) : bool :=
  match rest with
  | EmptyString => true
  | String c _ => negb (p c)
  end.

End Greedy.

Module RepairSamples.

Import CSSParser ComponentLoader Samples Corruption Occurrences.






Definition broken_font_lines : string := "var(--f, [y] serif" +:+ nl +:+ "bold)".

End RepairSamples.

Module TokenSamples.

Import CSSParser ComponentLoader.

Definition backslash : string := String "\" EmptyString.

(** Two rules; the content of the first is an escaped backslash, the
    content of the second is a closing brace, both in double quotes. *)
Definition escaped_backslash_css : string :=
  "a{content:" +:+ quot +:+ backslash +:+ backslash +:+ quot +:+ "} b{content:"
    +:+ quot +:+ "}" +:+ quot +:+ "}".

(** The first of the two rules alone. *)
Definition escaped_backslash_rule : string :=
  "a{content:" +:+ quot +:+ backslash +:+ backslash +:+ quot +:+ "}".


End TokenSamples.

Module Sizes.

Import CSSParser.

(** The characters held by a list of rules. *)
Fixpoint lengths (rs : list string) : nat :=
  match rs with
  | [] => O
  | r :: rs' => (String.length r + lengths rs')%nat
  end.

(** The characters that the tokenizer holds: the rules it has closed and
    the rule it is reading. *)
Definition weight (st : PState) : nat :=
  (lengths (rules st) + String.length (currentRule st))%nat.

End Sizes.

Module AtRules.

Import CSSParser.

(** The at-rules whose inner rule list [scopeAtRule] scopes. *)
Definition isNesting (head : string) : bool :=
  JS.startsWith head "@media" || JS.startsWith head "@supports"
  || JS.startsWith head "@container" || JS.startsWith head "@layer".

(** The text between the first opening brace and the last closing brace
    of a rule, [innerCSS] in [scopeAtRule]. *)
Definition innerOf (rule : string) : string :=
  let afterBrace := JS.substringFrom rule (JS.indexOf rule "{") in
  JS.substring afterBrace (JS.indexOf afterBrace "{" + 1) (JS.lastIndexOf afterBrace "}").

(** The rule has an opening brace and, after it, a closing brace with
    text in between. *)
Definition hasInner (rule : string) : bool :=
  let afterBrace := JS.substringFrom rule (JS.indexOf rule "{") in
  negb (JS.indexOf rule "{" =? -1)
  && negb (JS.lastIndexOf afterBrace "}" <=? JS.indexOf afterBrace "{" + 1).

End AtRules.

(** * The regions of a style text that hold no rule boundary *)

Module Regions.

Import CSSParser Corruption.


(** The body of a string literal in quotes [q]: neither the quote nor a
    backslash. *)
Definition plainIn (q : ascii) (c : ascii) : bool :=
  negb (Ascii.eqb c q) && negb (Ascii.eqb c "\").



(** The arguments of a [var()] call without inner call, literal or
    comment: no parenthesis, no quote, no slash. *)
Definition varBody (s : string) : bool :=
  all (fun c => negb (Ascii.eqb c "(") && negb (Ascii.eqb c ")")
                && negb (is_quote c) && negb (Ascii.eqb c "/")) s.

(** The state after the text [t] went to [currentRule] and nothing else
    changed but the flags given. *)
Definition kept (t : string) (inStr : bool) (q : option ascii) (st : PState) : PState :=
  mkPState (rules st) (currentRule st +:+ t) (depth st) inStr q
           (inComment st) (inVarFunction st) (parenDepth st).

(** The character before the one that follows [s], when [prev] is the
    character before [s]. *)
Fixpoint lastChar (prev : option ascii) (s : string) : option ascii :=
  match s with
  | EmptyString => prev
  | String c s' => lastChar (Some c) s'
  end.

End Regions.

(** * The trace of a run of retries *)

Module Attempts.

Import ComponentLoader.

(** [k] failed fetches from the iteration [i] on, each followed by the
    wait before the next one. *)
Fixpoint failedAttempts (retryDelay : Z) (name : string) (i k : nat) : list Event :=
  match k with
  | O => []
  | S k' =>
      Fetch name :: Delay (retryDelay * (Z.of_nat i + 1))
        :: failedAttempts retryDelay name (S i) k'
  end.

(** The whole numbers up to [2^53] in absolute value.  A double holds
    each of them, and where the numbers of the code and what it computes
    from them stay among these, its sums and products are those of whole
    numbers. *)
Definition exactNumber (z : Z) : Prop := Z.abs z <= 2 ^ 53.

(** A configuration with which the counter of the retry loop, which
    goes up to [retryCount + 1], and every product [retryDelay * (i + 1)]
    stay among these numbers. *)
Definition exactDelays (cfg : Config) : Prop :=
  exactNumber (Z.of_nat (retryCount cfg) + 1)
  /\ exactNumber (retryDelay cfg * Z.of_nat (retryCount cfg)).

(** The time of a wait is such a number. *)
Definition exactWait (e : Event) : Prop :=
  match e with
  | Delay ms => exactNumber ms
  | Fetch _ => True
  end.

End Attempts.

(** * Pages as the loader keeps them *)

Module Pages.

Import ComponentLoader.

(** The styles recorded for a scope id; none when the map has no entry. *)
Definition recorded (scopeId : string) (page : Page) : list StyleElement :=
  default [] (styles page !! scopeId).

(** What [injectStyles] and [cleanupStyles] keep true of a page: every
    element of the head was made before [nextNode], no two elements of
    the head share an identity, and every recorded style is in the head
    and carries the scope id it is recorded for. *)
Record PageOk (page : Page) : Prop := mkPageOk {
  ok_fresh : Forall (fun e => (node e < nextNode page)%nat) (headChildren page);
  ok_nodup : List.NoDup (map node (headChildren page));
  ok_recorded : forall scopeId l e,
    styles page !! scopeId = Some l -> In e l ->
    In e (headChildren page) /\ componentScope e = scopeId }.

(** The page before anything was injected. *)
Definition emptyPage : Page := mkPage [] ∅ 0.

End Pages.

(** * Placeholders and loaders of the examples *)

Module LoadSamples.

Import CSSParser ComponentLoader.

Definition header_data : ComponentData := mkData "<p>header</p>" EmptyString.

(** A loader that has the component [header] in its cache. *)
Definition loader_with_header : Loader := mkLoader {[ "header" := header_data ]} ∅ [].

(** A network that answers the first request by 404 and every later one
    by the text of the header. *)
Definition flaky_network (k : nat) (name : string) : Thrown + ComponentData :=
  match k with
  | O => inl (Error "HTTP 404: Not Found")
  | S _ => inr header_data
  end.

(** Whether [element.dataset.errorRendered] counts as true. *)
Definition errorRendered (el : Element) : bool :=
  match dataset el !! "errorRendered" with
  | Some v => negb (JS.isEmpty v)
  | None => false
  end.

End LoadSamples.

(** * Flat rules *)

Module Flat.

Import CSSParser Corruption.

(** A text without braces, quotes, slashes and parentheses: a selector
    or a list of declarations that holds no string literal, comment or
    function call. *)
Definition flatChar (c : ascii) : bool :=
  negb (Ascii.eqb c "{") && negb (Ascii.eqb c "}") && negb (is_quote c)
  && negb (Ascii.eqb c "/") && negb (Ascii.eqb c "(") && negb (Ascii.eqb c ")").

Definition flat (s : string) : bool := all flatChar s.

(** The state with the rules [rs] in front of its own. *)
Definition prepend (rs : list string) (st : PState) : PState :=
  set_rule (rs ++ rules st) (currentRule st) (depth st) st.

End Flat.

(** * Style blocks in a markup text *)

Module Html.

Import CSSParser Corruption.





End Html.

(** * The placeholders of a document *)

Module Documents.

Import ComponentLoader.

(** The component names of the placeholders, in document order. *)
Definition componentNames (document : list Element) : list string :=
  omap (fun el => dataset el !! "component") document.

(** What the loop of [getStatus] keeps true of the set of names and of
    the status. *)
Definition statusInv (cached : nat) (acc : gset string * Status) : Prop :=
  let '(seen, status) := acc in
  s_total status = size seen
  /\ length (s_details status) = s_total status
  /\ List.NoDup (map d_name (s_details status))
  /\ (forall n, In n (map d_name (s_details status)) -> n ∈ seen)
  /\ (s_loaded status <= s_total status)%nat
  /\ (s_loading status <= s_total status)%nat
  /\ (s_error status <= s_total status)%nat
  /\ s_cached status = cached.

End Documents.

(** * Properties of the scoping engine and of the loader *)

Import Regex CSSParser ComponentLoader.
Import Samples PageSamples LoaderSamples RepairSamples TokenSamples.
Import Braces Corruption Language Occurrences Greedy Sizes AtRules Regions.

(** ** Texts *)

#[local] Arguments String.append !_ _ / : simpl nomatch.

Lemma app_assoc_s (a b c : string) : (a +:+ b) +:+ c = a +:+ (b +:+ c).
Proof. induction a as [|x a IH]; simpl; congruence. Qed.

Lemma app_nil_r_s (a : string) : a +:+ EmptyString = a.
Proof. induction a as [|x a IH]; simpl; congruence. Qed.

Lemma length_app_s (a b : string) :
  String.length (a +:+ b) = (String.length a + String.length b)%nat.
Proof. induction a as [|x a IH]; simpl; congruence. Qed.

Lemma isPrefix_app (l rest : string) : JS.isPrefix l (l +:+ rest) = true.
Proof.
  induction l as [|x l IH]; simpl; [reflexivity|].
  rewrite Ascii.eqb_refl. exact IH.
Qed.

Lemma drop_app (l rest : string) : JS.drop (String.length l) (l +:+ rest) = rest.
Proof.
  induction l as [|x l IH]; simpl; [|exact IH].
  destruct rest; reflexivity.
Qed.

Lemma take_app (m rest : string) : JS.take (String.length m) (m +:+ rest) = m.
Proof.
  induction m as [|x m IH]; simpl.
  - destruct rest; reflexivity.
  - rewrite IH. reflexivity.
Qed.

Lemma consumed_app (m rest : string) : consumed (m +:+ rest) rest = m.
Proof.
  unfold consumed. rewrite length_app_s.
  replace (String.length m + String.length rest - String.length rest)%nat
    with (String.length m) by lia.
  apply take_app.
Qed.

(** ** Scoping on the render path *)

(** C1, the code at the failing input: [scopeCSSSafe], which
    [injectScopedStyles] calls, only scopes a selector on a line that holds
    an opening brace and no closing brace.  The rule [btn_rule] opens and
    closes on one line, so it comes back without the scope selector (and
    with a line feed); the text handed to [injectStyles] is that unscoped
    rule, whatever the page provides.  [scopeRule], the manual parser,
    does put the scope selector in front and leaves the declaration block
    untouched (the blank before the brace goes with the trimmed selector). *)
Theorem scopeCSSSafe_one_line_rule_unscoped :
  scopeCSSSafe btn_rule scope_x = btn_rule +:+ nl
  /\ (forall host, scopedText defaultConfig host btn_rule "x" = inr (btn_rule +:+ nl))
  /\ scopeRule btn_rule scope_x
     = Some (scope_x +:+ " .btn{ background: var(--c, #fff); }").
Proof.
  split; [vm_compute; reflexivity|]. split; [|vm_compute; reflexivity].
  intros [[] sheets]; unfold scopedText; cbn [windowCSSParser styleSheets].
  - replace (needsFix btn_rule) with false by (vm_compute; reflexivity).
    cbn [andb]. replace (String.eqb (errorHandling defaultConfig) "strict")
      with false by reflexivity.
    rewrite andb_false_r.
    vm_compute. reflexivity.
  - vm_compute. reflexivity.
Qed.

(** C5, the code at the failing input: on the render path a selector that
    starts with [:host] has the text [:host] replaced by the scope
    selector, so [:host(.active)] keeps its parentheses; [scopeSelectors],
    through [handleHostSelector], gives the scope selector alone, the
    scope selector followed by [.active] and the scope selector followed
    by [:hover], for every scope selector. *)
Theorem host_argument_keeps_parentheses :
  scopeSelectorsSafe ":host(.active)" scope_x = scope_x +:+ "(.active)"
  /\ scopeCSSSafe (three_lines ":host(.active)" "color:red") scope_x
     = three_lines (scope_x +:+ "(.active)") "color:red" +:+ nl
  /\ simpleScopeCSS (three_lines ":host(.active)" "color:red") "x"
     = three_lines (scope_x +:+ "(.active)") "color:red" +:+ nl
  /\ (forall scope,
        scopeSelectors ":host" scope = scope
        /\ scopeSelectors ":host(.active)" scope = scope +:+ ".active"
        /\ scopeSelectors ":host:hover" scope = scope +:+ ":hover").
Proof.
  repeat split; vm_compute; reflexivity.
Qed.

(** C6, the code at the failing inputs: [simpleScopeCSS] keeps [html] and
    [:root] but not [body], and it looks for [--] at the head of the whole
    selector list only; [scopeSelectors] keeps a selector that starts with
    [--] only when letters and hyphens alone follow.  [scopeSelectorsSafe]
    keeps all four forms. *)
Theorem body_and_custom_property_prefixed :
  simpleScopeCSS (three_lines "body" "margin: 0;") "x"
    = three_lines (scope_x +:+ " body") "margin: 0;" +:+ nl
  /\ simpleScopeCSS (three_lines "html, --gap" "margin: 0;") "x"
     = three_lines ("html, " +:+ scope_x +:+ " --gap") "margin: 0;" +:+ nl
  /\ scopeSelectors "--gap-2" scope_x = scope_x +:+ " --gap-2"
  /\ (forall scope,
        scopeSelectorsSafe "html" scope = "html"
        /\ scopeSelectorsSafe ":root" scope = ":root"
        /\ scopeSelectorsSafe "body" scope = "body"
        /\ scopeSelectorsSafe "--gap-2" scope = "--gap-2").
Proof.
  repeat split; vm_compute; reflexivity.
Qed.

(** ** The manual parser returns *)

Lemma length_trimStart s : (String.length (JS.trimStart s) <= String.length s)%nat.
Proof.
  induction s as [|c s IH]; cbn [JS.trimStart String.length]; [lia|].
  destruct (JS.is_whitespace c); cbn [String.length]; lia.
Qed.

Lemma length_trimEnd s : (String.length (JS.trimEnd s) <= String.length s)%nat.
Proof.
  induction s as [|c s IH]; cbn [JS.trimEnd String.length]; [lia|].
  destruct (JS.trimEnd s) as [|d t]; [destruct (JS.is_whitespace c)|];
    cbn [String.length] in *; lia.
Qed.

Lemma length_trim s : (String.length (JS.trim s) <= String.length s)%nat.
Proof.
  unfold JS.trim. pose proof (length_trimEnd (JS.trimStart s)).
  pose proof (length_trimStart s). lia.
Qed.

Lemma lengths_app rs r : lengths (rs ++ [r]) = (lengths rs + String.length r)%nat.
Proof. induction rs as [|x rs IH]; cbn [lengths app]; lia. Qed.

Lemma weight_quoteStep prev c st : weight (quoteStep prev c st) = weight st.
Proof.
  unfold quoteStep.
  repeat match goal with |- context [if ?b then _ else _] => destruct b end; reflexivity.
Qed.

Lemma weight_varStep c rest st : weight (varStep c rest st) = weight st.
Proof.
  unfold varStep.
  repeat match goal with |- context [if ?b then _ else _] => destruct b end; reflexivity.
Qed.

Lemma weight_braceStep c st : (weight (braceStep c st) <= S (weight st))%nat.
Proof.
  unfold braceStep, weight.
  repeat match goal with |- context [if ?b then _ else _] => destruct b end;
    cbn [rules currentRule set_rule String.length];
    rewrite ?lengths_app; try rewrite length_app_s; cbn [String.length];
    try (pose proof (length_trim (currentRule st +:+ String c EmptyString)) as Ht;
         rewrite length_app_s in Ht; cbn [String.length] in Ht); lia.
Qed.

Lemma weight_body prev c rest st : (weight (fst (body prev c rest st)) <= S (weight st))%nat.
Proof.
  unfold body.
  pose proof (weight_quoteStep prev c st) as Hq.
  pose proof (weight_braceStep c (varStep c rest (quoteStep prev c st))) as Hb.
  rewrite weight_varStep, Hq in Hb.
  repeat match goal with |- context [if ?b then _ else _] => destruct b end;
    cbn [fst]; try (unfold weight in *; cbn [rules currentRule set_comment] in *; lia).
Qed.

Lemma weight_loop s : forall j prev st,
  (weight (loop j prev s st) <= weight st + String.length s)%nat.
Proof.
  induction s as [|c s IH]; intros j prev st; cbn [loop String.length]; [lia|].
  destruct j.
  - pose proof (weight_body prev c s st) as Hb.
    destruct (body prev c s st) as [st' j']. cbn [fst] in Hb.
    pose proof (IH j' (Some c) st'). lia.
  - pose proof (IH Next (Some c) st). lia.
  - destruct (Ascii.eqb c "010"); [pose proof (IH Next (Some c) st) | pose proof (IH SkipLine (Some c) st)]; lia.
Qed.

Lemma lengths_Forall rs n : (lengths rs <= n)%nat -> Forall (fun r => (String.length r <= n)%nat) rs.
Proof.
  revert n. induction rs as [|r rs IH]; intros n H; constructor; cbn [lengths] in H; [lia|].
  apply IH. lia.
Qed.

Lemma parseRules_lengths css :
  Forall (fun r => (String.length r <= String.length css)%nat) (parseRules css).
Proof.
  unfold parseRules, flush.
  pose proof (weight_loop css Next None initial) as Hw.
  change (weight initial) with O in Hw. unfold weight in Hw.
  set (st := loop Next None css initial) in *.
  pose proof (length_trim (currentRule st)).
  destruct (JS.isEmpty _); apply lengths_Forall; rewrite ?lengths_app; lia.
Qed.

Lemma length_take n s : (String.length (JS.take n s) <= n)%nat.
Proof.
  revert s. induction n as [|n IH]; intros [|c s]; cbn [JS.take String.length]; try lia.
  specialize (IH s). lia.
Qed.

Lemma length_take_le n s : (String.length (JS.take n s) <= String.length s)%nat.
Proof.
  revert s. induction n as [|n IH]; intros [|c s]; cbn [JS.take String.length]; try lia.
  specialize (IH s). lia.
Qed.

Lemma length_drop n s : (String.length (JS.drop n s) <= String.length s)%nat.
Proof.
  revert s. induction n as [|n IH]; intros [|c s]; cbn [JS.drop String.length]; try lia.
  specialize (IH s). lia.
Qed.

Lemma length_substring s a b : (String.length (JS.substring s a b) <= String.length s)%nat.
Proof.
  unfold JS.substring. etransitivity; [apply length_take_le | apply length_drop].
Qed.

Lemma lastIndexOfFrom_bound c p s : forall i,
  JS.lastIndexOfFrom (String c p) s i < i + JS.len s \/ JS.lastIndexOfFrom (String c p) s i = -1.
Proof.
  unfold JS.len.
  induction s as [|d s IH]; intros i; cbn [JS.lastIndexOfFrom JS.isPrefix String.length].
  - right. reflexivity.
  - destruct (IH (i + 1)) as [H|H].
    + destruct (0 <=? _); [left; lia|].
      destruct (_ && _); [left; lia | right; reflexivity].
    + rewrite H. cbn [Z.leb Z.compare]. destruct (_ && _); [left; lia | right; reflexivity].
Qed.

Lemma indexOfFrom_lower p s : forall i, 0 <= i -> -1 <= JS.indexOfFrom p s i.
Proof.
  induction s as [|d s IH]; intros i Hi; cbn [JS.indexOfFrom];
    destruct (JS.isPrefix p _); try lia.
  apply IH. lia.
Qed.

(** The text between the braces of an at-rule is shorter than the text
    after the head of the rule. *)
Lemma inner_shorter afterBrace :
  let innerStart := JS.indexOf afterBrace "{" + 1 in
  let innerEnd := JS.lastIndexOf afterBrace "}" in
  (innerEnd <=? innerStart) = false ->
  (String.length (JS.substring afterBrace innerStart innerEnd)
   < String.length afterBrace)%nat.
Proof.
  intros innerStart innerEnd Hlt. apply Z.leb_gt in Hlt.
  assert (Hend : innerEnd < JS.len afterBrace \/ innerEnd = -1).
  { pose proof (lastIndexOfFrom_bound "}" EmptyString afterBrace 0) as H.
    unfold innerEnd, JS.lastIndexOf. lia. }
  assert (Hstart : 0 <= innerStart).
  { pose proof (indexOfFrom_lower "{" afterBrace 0 ltac:(lia)).
    unfold innerStart, JS.indexOf. lia. }
  unfold JS.substring. set (lo := Z.min _ _). set (hi := Z.max _ _).
  pose proof (length_take (Z.to_nat (hi - lo)) (JS.drop (Z.to_nat lo) afterBrace)) as Ht.
  subst lo hi. unfold JS.clamp, JS.len in *. lia.
Qed.

Lemma scopeRulesIn_some self scope rs : forall result,
  Forall (fun r => exists out, scopeRuleIn self r scope = Some out) rs ->
  exists out, scopeRulesIn self result rs scope = Some out.
Proof.
  induction rs as [|r rs IH]; intros result Hrs; cbn [scopeRulesIn]; [eauto|].
  inversion Hrs as [|? ? [out Hr] Hrest]; subst. rewrite Hr. apply IH. exact Hrest.
Qed.

Lemma scopeRuleIn_some self scope rule :
  (forall inner, (String.length inner < String.length rule)%nat ->
                 exists out, self inner scope = Some out) ->
  exists out, scopeRuleIn self rule scope = Some out.
Proof.
  intros Hself. unfold scopeRuleIn.
  destruct (_ =? -1); [eauto|].
  destruct (JS.startsWith _ "@"); [|eauto].
  unfold scopeAtRuleIn.
  destruct (existsb _ _); [eauto|].
  destruct (_ || _); [|eauto].
  destruct (_ <=? _) eqn:Hlt; [eauto|].
  apply inner_shorter in Hlt.
  pose proof (length_substring rule (JS.indexOf rule "{") (JS.len rule)) as Hafter.
  fold (JS.substringFrom rule (JS.indexOf rule "{")) in Hafter.
  match goal with
  | |- context [self ?inner scope] => destruct (Hself inner) as [out ->]; [lia | eauto]
  end.
Qed.

Lemma scopeWithManualParserN_some n : forall css scope,
  (String.length css < n)%nat ->
  exists out, scopeWithManualParserN n css scope = Some out.
Proof.
  induction n as [|n IH]; intros css scope Hn; [lia|].
  cbn [scopeWithManualParserN]. apply scopeRulesIn_some.
  eapply Forall_impl; [apply parseRules_lengths|].
  intros rule Hrule. apply scopeRuleIn_some. intros inner Hinner.
  apply IH. cbn beta in Hrule. lia.
Qed.

Lemma scopeWithManualParser_returns css scope :
  exists out, scopeWithManualParser css scope = Some out.
Proof. apply scopeWithManualParserN_some. lia. Qed.

Lemma scopeRulesIn_mono (self self' : string -> string -> option string) scope rs :
  (forall x out, self x scope = Some out -> self' x scope = Some out) ->
  forall result out,
  scopeRulesIn self result rs scope = Some out ->
  scopeRulesIn self' result rs scope = Some out.
Proof.
  intros Hself. induction rs as [|r rs IH]; intros result out; cbn [scopeRulesIn]; [auto|].
  unfold scopeRuleIn.
  destruct (_ =? -1); [apply IH|].
  destruct (JS.startsWith _ "@"); [|apply IH].
  unfold scopeAtRuleIn.
  destruct (existsb _ _); [apply IH|].
  destruct (_ || _); [|apply IH].
  destruct (_ <=? _); [apply IH|].
  destruct (self _ scope) as [inner|] eqn:Hin; [|discriminate].
  rewrite (Hself _ _ Hin). apply IH.
Qed.

Lemma scopeWithManualParserN_mono n : forall css scope out,
  scopeWithManualParserN n css scope = Some out ->
  scopeWithManualParserN (S n) css scope = Some out.
Proof.
  induction n as [|n IH]; intros css scope out; [discriminate|].
  intros H. cbn [scopeWithManualParserN] in H |- *.
  eapply scopeRulesIn_mono; [|exact H]. intros x o. apply IH.
Qed.

(** Beyond the length of the text the bound on the nesting plays no part. *)
Lemma scopeWithManualParserN_enough n css scope :
  (String.length css < n)%nat ->
  scopeWithManualParserN n css scope = scopeWithManualParser css scope.
Proof.
  intros Hn. unfold scopeWithManualParser.
  destruct (scopeWithManualParserN_some (S (String.length css)) css scope ltac:(lia)) as [out Hout].
  rewrite Hout. clear -Hn Hout.
  induction n as [|n IH]; [lia|].
  destruct (Nat.eq_dec n (String.length css)) as [->|Hne]; [exact Hout|].
  apply scopeWithManualParserN_mono. apply IH. lia.
Qed.

(** ** At-rules in the manual parser *)

Lemma startsWith_at (b p : string) :
  JS.startsWith b (String "@" p) = true -> JS.startsWith b "@" = true.
Proof.
  unfold JS.startsWith. destruct b as [|c b']; cbn [JS.isPrefix]; [discriminate|].
  intros H. apply andb_true_iff in H as [H _]. rewrite H. reflexivity.
Qed.

(** An at-rule whose head starts with one of the names of
    [nonScopedAtRules] is returned as it is. *)
Lemma scopeRuleIn_nonScoped self rule scope :
  existsb (JS.startsWith (ruleHead rule)) nonScopedAtRules = true ->
  scopeRuleIn self rule scope = Some rule.
Proof.
  intros H. unfold scopeRuleIn. fold (ruleHead rule).
  destruct (JS.indexOf rule "{" =? -1); [reflexivity|].
  assert (Hat : JS.startsWith (ruleHead rule) "@" = true).
  { unfold nonScopedAtRules in H. cbn [existsb] in H.
    repeat (apply orb_true_iff in H; destruct H as [H|H]);
      try discriminate; eapply startsWith_at; exact H. }
  rewrite Hat. unfold scopeAtRuleIn. rewrite H. reflexivity.
Qed.

Lemma prefixes_compatible h : forall p q,
  JS.isPrefix p h = true -> JS.isPrefix q h = true ->
  JS.isPrefix p q || JS.isPrefix q p = true.
Proof.
  induction h as [|c h IH]; intros [|a p] [|b q]; cbn [JS.isPrefix orb];
    try reflexivity; try discriminate.
  intros Hp Hq. apply andb_true_iff in Hp as [Ha Hp]. apply andb_true_iff in Hq as [Hb Hq].
  apply Ascii.eqb_eq in Ha, Hb. subst a b. rewrite Ascii.eqb_refl. cbn [andb].
  apply IH; assumption.
Qed.

Lemma nesting_not_nonScoped head :
  isNesting head = true -> existsb (JS.startsWith head) nonScopedAtRules = false.
Proof.
  unfold isNesting, nonScopedAtRules, JS.startsWith. cbn [existsb]. intros H.
  repeat (apply orb_true_iff in H; destruct H as [H|H]);
    repeat match goal with
           | |- context [JS.isPrefix ?q head] =>
               let E := fresh "E" in
               destruct (JS.isPrefix q head) eqn:E;
               [ pose proof (prefixes_compatible _ _ _ H E) as C;
                 vm_compute in C; discriminate C | ]
           end; reflexivity.
Qed.

(** A rule whose head starts with [@media], [@supports], [@container] or
    [@layer]: the text between its braces goes through
    [scopeWithManualParser] and is put back after the head. *)
Lemma scopeRule_nested rule scope :
  isNesting (ruleHead rule) = true ->
  hasInner rule = true ->
  exists inner,
    scopeWithManualParser (innerOf rule) scope = Some inner
    /\ scopeRule rule scope = Some (ruleHead rule +:+ " {" +:+ inner +:+ "}").
Proof.
  intros Hnest Hinner. unfold hasInner in Hinner.
  apply andb_true_iff in Hinner as [Hbrace Hinner].
  apply negb_true_iff in Hbrace, Hinner.
  destruct (scopeWithManualParser_returns (innerOf rule) scope) as [inner Hin].
  exists inner. split; [exact Hin|].
  unfold scopeRule, scopeRuleIn. fold (ruleHead rule). rewrite Hbrace.
  assert (Hat : JS.startsWith (ruleHead rule) "@" = true).
  { unfold isNesting in Hnest.
    repeat (apply orb_true_iff in Hnest; destruct Hnest as [Hnest|Hnest]);
      eapply startsWith_at; exact Hnest. }
  rewrite Hat. unfold scopeAtRuleIn.
  rewrite (nesting_not_nonScoped _ Hnest). fold (isNesting (ruleHead rule)).
  rewrite Hnest, Hinner. fold (innerOf rule).
  rewrite scopeWithManualParserN_enough, Hin; [reflexivity|].
  pose proof (inner_shorter _ Hinner) as Hs. fold (innerOf rule) in Hs.
  pose proof (length_substring rule (JS.indexOf rule "{") (JS.len rule)) as Hafter.
  fold (JS.substringFrom rule (JS.indexOf rule "{")) in Hafter. lia.
Qed.

(** C4, a counterexample: for the media rule of the specification no
    scoping function of [CSSParser] yields the text that the specification
    gives, without blank before the brace and without line feed. *)
Lemma media_rule_not_as_specified :
  let specified := "@media (max-width:768px){" +:+ id_x +:+ " .a{color:red}}" in
  scopeRule media_rule id_x <> Some specified
  /\ scopeWithManualParser media_rule id_x <> Some specified
  /\ scopeCSSSafe media_rule id_x <> specified.
Proof.
  repeat split; vm_compute; intros H; discriminate H.
Qed.

(** C4, as amended: [scopeRule] keeps the prelude of the media rule, puts
    a blank between it and the opening brace, scopes the inner rule list
    with the same algorithm and ends each scoped inner rule with a line
    feed; so it does for every rule whose head starts with [@media],
    [@supports], [@container] or [@layer]; a rule whose head starts with
    [@keyframes] is returned as it is. *)
Theorem media_rule_scoped_keyframes_kept :
  scopeRule media_rule id_x
    = Some ("@media (max-width:768px) {" +:+ id_x +:+ " .a{color:red}" +:+ nl +:+ "}")
  /\ (forall rule scope,
        isNesting (ruleHead rule) = true ->
        hasInner rule = true ->
        exists inner,
          scopeWithManualParser (innerOf rule) scope = Some inner
          /\ scopeRule rule scope = Some (ruleHead rule +:+ " {" +:+ inner +:+ "}"))
  /\ (forall rule scope,
        JS.startsWith (ruleHead rule) "@keyframes" = true ->
        scopeRule rule scope = Some rule).
Proof.
  split; [vm_compute; reflexivity|]. split; [exact scopeRule_nested|].
  intros rule scope H. apply scopeRuleIn_nonScoped.
  unfold nonScopedAtRules. cbn [existsb]. rewrite H. reflexivity.
Qed.

Lemma media_rule_scoped_keyframes_kept_witness :
  (exists inner,
     scopeWithManualParser (innerOf media_rule) id_x = Some inner
     /\ scopeRule media_rule id_x
        = Some (ruleHead media_rule +:+ " {" +:+ inner +:+ "}"))
  /\ scopeRule keyframes_rule id_x = Some keyframes_rule.
Proof.
  split.
  - apply (proj1 (proj2 media_rule_scoped_keyframes_kept)); vm_compute; reflexivity.
  - apply (proj2 (proj2 media_rule_scoped_keyframes_kept)). vm_compute. reflexivity.
Defined.

(** ** The tokenizer *)

(** A brace that is met while one of [inString], [inComment] and
    [inVarFunction] holds moves neither [depth] nor the list of rules. *)
Lemma body_brace_inside prev c rest st :
  c = "{"%char \/ c = "}"%char ->
  inString st || inComment st || inVarFunction st = true ->
  depth (fst (body prev c rest st)) = depth st
  /\ rules (fst (body prev c rest st)) = rules st.
Proof.
  intros Hc Hin. destruct st as [rs cur d inS q inC inV pd]. cbn [inString inComment inVarFunction] in Hin.
  destruct Hc as [-> | ->]; unfold body, quoteStep, varStep, braceStep;
    destruct inS, inC, inV; try discriminate Hin; split; reflexivity.
Qed.

(** The characters that the loop passes over after a comment delimiter
    or in a line comment leave the state alone. *)
Lemma loop_skipped c rest prev st :
  loop SkipOne prev (String c rest) st = loop Next (Some c) rest st
  /\ loop SkipLine prev (String c rest) st
     = loop (if Ascii.eqb c "010" then Next else SkipLine) (Some c) rest st.
Proof. split; [reflexivity|]. cbn [loop]. destruct (Ascii.eqb c "010"); reflexivity. Qed.

(** What is left in [currentRule] at the end of the text is the last
    rule of the result, unless it is blank. *)
Lemma parseRules_flush css :
  let st := loop Next None css initial in
  JS.isEmpty (JS.trim (currentRule st)) = false ->
  parseRules css = rules st ++ [JS.trim (currentRule st)].
Proof. intros st H. unfold parseRules, flush. fold st. rewrite H. reflexivity. Qed.

(** *** What the tokenizer passes over *)

Lemma is_quote_cases c : is_quote c = true -> c = "034"%char \/ c = "'"%char.
Proof.
  unfold is_quote. intros H. apply orb_true_iff in H.
  destruct H as [H|H]; apply Ascii.eqb_eq in H; auto.
Qed.


(** Inside a literal: every character but the quote goes to [currentRule]. *)
Lemma body_in_literal q prev c rest st :
  inString st = true -> inComment st = false -> stringChar st = Some q ->
  Ascii.eqb c q = false ->
  body prev c rest st = (kept (String c EmptyString) true (Some q) st, Next).
Proof.
  intros Hs Hc Hq Hne. destruct st as [rs cur d inS sc inC inV pd].
  cbn [inString inComment stringChar] in Hs, Hc, Hq. subst inS inC sc.
  unfold body, quoteStep, varStep, braceStep, kept.
  cbn [inString inComment stringChar inVarFunction set_string set_comment set_rule
       rules currentRule depth parenDepth negb andb same_char].
  rewrite (Ascii.eqb_sym q c), Hne.
  destruct (is_quote c); cbn [andb inString inComment negb];
    rewrite ?andb_false_r; reflexivity.
Qed.

Lemma kept_kept t1 t2 f1 q1 f2 q2 st :
  kept t2 f2 q2 (kept t1 f1 q1 st) = kept (t1 +:+ t2) f2 q2 st.
Proof. unfold kept. cbn [rules currentRule depth inComment inVarFunction parenDepth]. rewrite app_assoc_s. reflexivity. Qed.

Lemma kept_nil st : kept EmptyString (inString st) (stringChar st) st = st.
Proof. destruct st. unfold kept. cbn. rewrite app_nil_r_s. reflexivity. Qed.

Lemma loop_in_literal q body : forall prev rest st,
  inString st = true -> inComment st = false -> stringChar st = Some q ->
  all (fun c => negb (Ascii.eqb c q)) body = true ->
  loop Next prev (body +:+ rest) st
  = loop Next (lastChar prev body) rest (kept body true (Some q) st).
Proof.
  induction body as [|c body IH]; intros prev rest st Hs Hc Hq Hbody.
  - cbn [lastChar]. rewrite <- Hs, <- Hq, kept_nil. reflexivity.
  - cbn [all] in Hbody. apply andb_true_iff in Hbody as [Hne Hbody].
    apply negb_true_iff in Hne.
    change (String c body +:+ rest) with (String c (body +:+ rest)).
    cbn [loop lastChar]. rewrite (body_in_literal q) by assumption.
    rewrite IH by (try reflexivity; assumption).
    rewrite kept_kept. reflexivity.
Qed.

Lemma lastChar_plain q body : forall prev,
  all (plainIn q) body = true -> same_char prev "\" = false ->
  same_char (lastChar prev body) "\" = false.
Proof.
  induction body as [|c body IH]; intros prev Hbody Hprev; [exact Hprev|].
  cbn [all] in Hbody. apply andb_true_iff in Hbody as [Hc Hbody].
  cbn [lastChar]. apply IH; [exact Hbody|].
  unfold plainIn in Hc. apply andb_true_iff in Hc as [_ Hc].
  apply negb_true_iff in Hc. exact Hc.
Qed.

Lemma plain_not_quote q body :
  all (plainIn q) body = true -> all (fun c => negb (Ascii.eqb c q)) body = true.
Proof.
  induction body as [|c body IH]; [reflexivity|]. cbn [all]. intros H.
  apply andb_true_iff in H as [Hc H]. unfold plainIn in Hc.
  apply andb_true_iff in Hc as [Hc _]. rewrite Hc. exact (IH H).
Qed.

(** A string literal whose body holds neither its quote nor a backslash
    goes to [currentRule] as it is: the braces in it move neither [depth]
    nor the list of rules. *)
Lemma loop_literal q body prev rest st :
  is_quote q = true -> inString st = false -> inComment st = false ->
  all (plainIn q) body = true ->
  loop Next prev (String q (body +:+ String q rest)) st
  = loop Next (Some q) rest
      (kept (String q (body +:+ String q EmptyString)) false (Some q) st).
Proof.
  intros Hq Hs Hc Hbody.
  assert (Hq' : Ascii.eqb q "\" = false /\ Ascii.eqb q "/" = false /\ Ascii.eqb q "*" = false
                /\ Ascii.eqb q "v" = false /\ Ascii.eqb q "(" = false /\ Ascii.eqb q ")" = false
                /\ Ascii.eqb q "{" = false /\ Ascii.eqb q "}" = false).
  { apply is_quote_cases in Hq. destruct Hq; subst q; repeat split; reflexivity. }
  destruct Hq' as (Hbs & Hsl & Hst & Hv & Hop & Hcl & Hob & Hcb).
  assert (Hopen : CSSParser.body prev q (body +:+ String q rest) st
                  = (kept (String q EmptyString) true (Some q) st, Next)).
  { destruct st as [rs cur d inS sc inC inV pd].
    cbn [inString inComment] in Hs, Hc. subst inS inC.
    unfold CSSParser.body, quoteStep, varStep, braceStep, kept.
    cbn [inString inComment stringChar inVarFunction set_string set_comment set_rule
         rules currentRule depth parenDepth negb andb].
    rewrite Hq, Hsl, Hob, Hcb. reflexivity. }
  cbn [loop]. rewrite Hopen.
  rewrite (loop_in_literal q)
    by first [reflexivity | exact Hc | apply plain_not_quote; exact Hbody].
  rewrite kept_kept.
  set (st1 := kept _ true (Some q) st).
  assert (Hclose : CSSParser.body (lastChar (Some q) body) q rest st1
                   = (kept (String q EmptyString) false (Some q) st1, Next)).
  { pose proof (lastChar_plain q body (Some q) Hbody Hbs) as Hlast.
    subst st1. destruct st as [rs cur d inS sc inC inV pd].
    cbn [inString inComment] in Hs, Hc. subst inS inC.
    unfold CSSParser.body, quoteStep, varStep, braceStep, kept.
    cbn [inString inComment stringChar inVarFunction set_string set_comment set_rule
         rules currentRule depth parenDepth negb andb same_char].
    rewrite Hq, Ascii.eqb_refl, Hlast, Hsl, Hst, Hv, Hop, Hcl, Hob, Hcb.
    cbn [negb andb inString inComment inVarFunction set_string set_var].
    destruct inV; reflexivity. }
  cbn [loop]. rewrite Hclose. subst st1. rewrite kept_kept.
  change (String q EmptyString +:+ body) with (String q body).
  change (String q body +:+ String q EmptyString) with (String q (body +:+ String q EmptyString)).
  reflexivity.
Qed.






Lemma body_in_var prev c rest st :
  inString st = false -> inComment st = false -> inVarFunction st = true ->
  varBody (String c EmptyString) = true ->
  body prev c rest st = (kept (String c EmptyString) false (stringChar st) st, Next).
Proof.
  intros Hs Hc Hv Hbody. destruct st as [rs cur d inS sc inC inV pd].
  cbn [inString inComment inVarFunction] in Hs, Hc, Hv. subst inS inC inV.
  unfold varBody in Hbody. cbn [all] in Hbody. rewrite andb_true_r in Hbody.
  repeat (apply andb_true_iff in Hbody; destruct Hbody as [Hbody ?]).
  repeat match goal with H : negb _ = true |- _ => apply negb_true_iff in H end.
  unfold body, quoteStep, varStep, braceStep, kept.
  cbn [inString inComment stringChar inVarFunction set_string set_comment set_rule set_var
       rules currentRule depth parenDepth negb andb].
  repeat match goal with H : _ = false |- _ => rewrite H end.
  cbn [negb andb inString inComment].
  destruct (Ascii.eqb c "v" && _);
    cbn [inString inComment stringChar inVarFunction set_string set_comment set_rule set_var
         rules currentRule depth parenDepth negb andb];
    rewrite ?andb_false_r; reflexivity.
Qed.

Lemma loop_in_var body : forall prev rest st,
  inString st = false -> inComment st = false -> inVarFunction st = true ->
  varBody body = true ->
  loop Next prev (body +:+ rest) st
  = loop Next (lastChar prev body) rest (kept body false (stringChar st) st).
Proof.
  induction body as [|c body IH]; intros prev rest st Hs Hc Hv Hbody.
  - cbn [lastChar]. pose proof (kept_nil st) as E. rewrite Hs in E. rewrite E. reflexivity.
  - unfold varBody in Hbody. cbn [all] in Hbody. apply andb_true_iff in Hbody as [Hc1 Hbody].
    change (String c body +:+ rest) with (String c (body +:+ rest)).
    cbn [loop lastChar]. rewrite body_in_var; try assumption.
    + rewrite IH by first [reflexivity | assumption]. rewrite kept_kept. reflexivity.
    + unfold varBody. cbn [all]. rewrite Hc1. reflexivity.
Qed.

Lemma loop_Next prev c rest st :
  loop Next prev (String c rest) st
  = loop (snd (body prev c rest st)) (Some c) rest (fst (body prev c rest st)).
Proof. cbn [loop]. destruct (body prev c rest st). reflexivity. Qed.

(** A [var()] call whose arguments hold no parenthesis, quote or slash
    goes to [currentRule] as it is: the braces in it move neither [depth]
    nor the list of rules, and the call is over at its closing
    parenthesis. *)
Lemma loop_var_call body prev rest st :
  inString st = false -> inComment st = false ->
  inVarFunction st = false -> parenDepth st = 0 ->
  varBody body = true ->
  loop Next prev ("var(" +:+ body +:+ String ")" rest) st
  = loop Next (Some ")"%char) rest
      (kept ("var(" +:+ body +:+ ")") false (stringChar st) st).
Proof.
  intros Hs Hc Hv Hpd Hbody. destruct st as [rs cur d inS sc inC inV pd].
  cbn [inString inComment inVarFunction parenDepth] in Hs, Hc, Hv, Hpd. subst inS inC inV pd.
  change ("var(" +:+ body +:+ String ")" rest)
    with (String "v" (String "a" (String "r" (String "(" (body +:+ String ")" rest))))).
  rewrite !loop_Next.
  cbn -[loop String.append JS.trim lastChar].
  unfold set_rule, set_var.
  cbn [rules currentRule depth inString stringChar inComment inVarFunction parenDepth].
  rewrite loop_in_var by first [reflexivity | assumption].
  rewrite loop_Next. unfold kept.
  cbn -[loop String.append JS.trim lastChar].
  unfold set_rule, set_var.
  change (0 + 1 - 1 =? 0) with true. change (0 + 1 - 1) with 0.
  cbn [rules currentRule depth inString stringChar inComment inVarFunction parenDepth].
  do 2 f_equal. rewrite !app_assoc_s. reflexivity.
Qed.

(** C2, the code at the failing input: a closing quote counts as escaped
    whenever the character before it is a backslash, also when that
    backslash is itself escaped.  In [escaped_backslash_css] the literal of
    the first rule is therefore never closed, the closing brace inside the
    literal of the second rule is counted, and the text is cut there: the
    two rules come back as one chunk that ends inside the second literal
    and a rest of two characters. *)
Theorem parseRules_escaped_backslash :
  outsideLiterals Outside escaped_backslash_css = "a{content:} b{content:}"
  /\ parseRules escaped_backslash_css
     = ["a{content:" +:+ quot +:+ backslash +:+ backslash +:+ quot
          +:+ "} b{content:" +:+ quot +:+ "}";
        quot +:+ "}"].
Proof. split; vm_compute; reflexivity. Qed.

(** ** [validate] *)



Lemma countLoop_step c b :
  (if Ascii.eqb c "}" then (if Ascii.eqb c "{" then b + 1 else b) - 1
   else if Ascii.eqb c "{" then b + 1 else b)
  = b + (if Ascii.eqb c "{" then 1 else 0) - (if Ascii.eqb c "}" then 1 else 0).
Proof. destruct (Ascii.eqb c "}"), (Ascii.eqb c "{"); lia. Qed.

Lemma countLoop_spec w : forall b b',
  0 <= b ->
  countLoop w b = inr b' <->
  (forall p r, w = p +:+ r -> 0 <= b + count "{" p - count "}" p)
  /\ b' = b + count "{" w - count "}" w.
Proof.
  induction w as [|c w IH]; intros b b' Hb.
  - cbn [countLoop count]. split.
    + intros [= <-]. split; [|lia].
      intros p r Hp. destruct p; [cbn [count]; lia | discriminate Hp].
    + intros [_ ->]. f_equal. lia.
  - cbn [countLoop count]. rewrite countLoop_step.
    set (b2 := b + (if Ascii.eqb c "{" then 1 else 0) - (if Ascii.eqb c "}" then 1 else 0)).
    destruct (b2 <? 0) eqn:Hneg.
    + split; [discriminate|]. intros [Hpre _]. exfalso.
      specialize (Hpre (String c EmptyString) w eq_refl). cbn [count] in Hpre.
      apply Z.ltb_lt in Hneg. unfold b2 in Hneg. lia.
    + apply Z.ltb_ge in Hneg. rewrite (IH b2 b' Hneg). split.
      * intros [Hpre ->]. split; [|unfold b2; lia].
        intros p r Hp. destruct p as [|c' p]; [cbn [count]; lia|].
        injection Hp as <- Hw. specialize (Hpre p r Hw). cbn [count].
        unfold b2 in Hpre. lia.
      * intros [Hpre ->]. split; [|unfold b2; lia].
        intros p r Hw. specialize (Hpre (String c p) r). cbn [count] in Hpre.
        assert (Hs : String c w = String c p +:+ r) by (rewrite Hw; reflexivity).
        specialize (Hpre Hs). unfold b2. lia.
Qed.


Lemma balanced_countLoop w : balanced w <-> countLoop w 0 = inr 0.
Proof.
  rewrite (countLoop_spec w 0 0) by lia. unfold balanced. split.
  - intros [Hpre Htot]. split; [|lia]. intros p r Hp. specialize (Hpre p r Hp). lia.
  - intros [Hpre Htot]. split; [|lia]. intros p r Hp. specialize (Hpre p r Hp). lia.
Qed.




(** On a text with an escaped backslash before a closing quote the loop
    of [validate] stays inside the literal: the rule
    [escaped_backslash_rule] has balanced braces and is refused. *)
Remark validate_doubled_backslash :
  balanced (outsideLiterals Outside escaped_backslash_rule)
  /\ validate NoCSSStyleSheet escaped_backslash_rule = false.
Proof. split; [apply balanced_countLoop|]; vm_compute; reflexivity. Qed.

(** ** The matcher and capturing groups *)

Section Strip.
Context {A B : Type}.

Lemma star_none p s (f : string -> option A) (g : string -> option B) :
  (forall s', f s' = None <-> g s' = None) ->
  star p s f = None <-> star p s g = None.
Proof.
  intros Hfg. induction s as [|c s IH]; cbn [star]; [apply Hfg|].
  destruct (p c); [|apply Hfg].
  destruct (star p s f), (star p s g); try (apply Hfg);
    try (split; discriminate);
    destruct IH as [IH1 IH2]; try (discriminate (IH1 eq_refl)); try (discriminate (IH2 eq_refl)).
Qed.

Lemma run_strip r : forall s caps caps'
    (k : string -> captures -> option A) (k' : string -> captures -> option B),
  (forall s' c c', k s' c = None <-> k' s' c' = None) ->
  run r s caps k = None <-> run (strip r) s caps' k' = None.
Proof.
  induction r as [l|p|p|p|a IHa b IHb|r IH|r IH|]; intros s caps caps' k k' Hk;
    cbn [run strip].
  - destruct (JS.isPrefix l s); [apply Hk | tauto].
  - destruct s as [|c s]; [tauto|]. destruct (p c); [apply Hk | tauto].
  - apply star_none. intros s'. apply Hk.
  - destruct s as [|c s]; [tauto|]. destruct (p c); [|tauto].
    apply star_none. intros s'. apply Hk.
  - apply IHa. intros s' c c'. apply IHb. exact Hk.
  - apply IH. intros s' c c'. apply Hk.
  - specialize (IH s caps caps' k k' Hk).
    destruct (run r s caps k), (run (strip r) s caps' k'); try (apply Hk);
      try (split; discriminate);
      destruct IH as [IH1 IH2]; try (discriminate (IH1 eq_refl)); try (discriminate (IH2 eq_refl)).
  - destruct s; [apply Hk | tauto].
Qed.
End Strip.

Lemma matchHere_strip r s : matchHere r s = None <-> matchHere (strip r) s = None.
Proof. unfold matchHere. apply run_strip. intros; split; discriminate. Qed.

Lemma strip_brokenVarPattern s :
  matchHere (strip brokenVarPattern) s = matchHere brokenPattern s.
Proof. reflexivity. Qed.

Lemma searchFrom_none r b s :
  searchFrom r b s = None ->
  matchHere r s = None
  /\ match s with
     | EmptyString => True
     | String c s' => searchFrom r (b +:+ String c EmptyString) s' = None
     end.
Proof.
  destruct s as [|c s]; cbn [searchFrom]; destruct (matchHere r _) as [[rest caps]|];
    try discriminate; auto.
Qed.

Lemma replaceAll_without_match r r' fn s : forall b,
  (forall t, matchHere r' t = None -> matchHere r t = None) ->
  searchFrom r' b s = None ->
  replaceAllFrom r fn O s = s.
Proof.
  induction s as [|c s IH]; intros b Hrr Hs; apply searchFrom_none in Hs as [Hm Hs];
    cbn [replaceAllFrom]; rewrite (Hrr _ Hm); [reflexivity|].
  f_equal. eapply IH; eassumption.
Qed.

Lemma fixBrokenCSS_without_pattern css :
  needsFix css = false -> fixBrokenCSS css = css.
Proof.
  unfold needsFix, test, exec, fixBrokenCSS, replaceAll. intros H.
  destruct (searchFrom brokenPattern EmptyString css) eqn:Hs; [discriminate|].
  eapply replaceAll_without_match; [|exact Hs].
  intros t Ht. apply matchHere_strip. rewrite strip_brokenVarPattern. exact Ht.
Qed.

(** ** The matcher finds what is in the language *)

Section Complete.
Context {A : Type}.



End Complete.







(** ** A greedy run that is followed by what the pattern expects *)

Section GreedyRun.
Context {A : Type}.

Lemma star_greedy p a : forall rest (k : string -> option A) x,
  all p a = true -> stops p rest = true -> k rest = Some x ->
  star p (a +:+ rest) k = Some x.
Proof.
  induction a as [|c a IH]; intros rest k x Ha Hstop Hk; simpl.
  - destruct rest as [|c rest]; cbn [star]; [exact Hk|].
    cbn [stops] in Hstop. destruct (p c); [discriminate | exact Hk].
  - cbn [all] in Ha. apply andb_true_iff in Ha as [Hc Ha]. cbn [star]. rewrite Hc.
    rewrite (IH rest k x Ha Hstop Hk). reflexivity.
Qed.

Lemma run_Lit l rest caps (k : string -> captures -> option A) :
  run (Lit l) (l +:+ rest) caps k = k rest caps.
Proof. cbn [run]. rewrite isPrefix_app, drop_app. reflexivity. Qed.


Lemma run_Plus p a rest caps (k : string -> captures -> option A) x :
  nonEmpty a = true -> all p a = true -> stops p rest = true ->
  k rest caps = Some x ->
  run (Plus p) (a +:+ rest) caps k = Some x.
Proof.
  destruct a as [|c a]; [discriminate|]. intros _ Ha Hstop Hk.
  cbn [all] in Ha. apply andb_true_iff in Ha as [Hc Ha].
  simpl. rewrite Hc. apply star_greedy; assumption.
Qed.

Lemma run_Seq a b s caps (k : string -> captures -> option A) :
  run (Seq a b) s caps k = run a s caps (fun s' caps' => run b s' caps' k).
Proof. reflexivity. Qed.

Lemma run_Grp r s caps (k : string -> captures -> option A) :
  run (Grp r) s caps k
  = run r s (caps ++ [None])
      (fun s' caps' => k s' (<[length caps := Some (consumed s s')]> caps')).
Proof. reflexivity. Qed.

Lemma run_Eoi caps (k : string -> captures -> option A) :
  run Eoi EmptyString caps k = k EmptyString caps.
Proof. reflexivity. Qed.
End GreedyRun.



(** ** The pattern that takes the value out of the broken text *)

Lemma valuePattern_head c t : Ascii.eqb c "]" = false -> matchHere valuePattern (String c t) = None.
Proof.
  intros Hc. unfold matchHere, valuePattern. cbn [seq run JS.isPrefix].
  rewrite Ascii.eqb_sym, Hc. reflexivity.
Qed.

Lemma searchFrom_skip r pre s : forall b,
  (forall c t, all (not_chr "]") (String c EmptyString) = true -> matchHere r (String c t) = None) ->
  all (not_chr "]") pre = true ->
  searchFrom r b (pre +:+ s) = searchFrom r (b +:+ pre) s.
Proof.
  induction pre as [|c pre IH]; intros b Hr Hpre.
  - rewrite app_nil_r_s. reflexivity.
  - change (String c pre +:+ s) with (String c (pre +:+ s)).
    cbn [all] in Hpre. apply andb_true_iff in Hpre as [Hc Hpre].
    assert (Hnone : matchHere r (String c (pre +:+ s)) = None).
    { apply Hr. cbn [all]. rewrite Hc. reflexivity. }
    cbn [searchFrom]. rewrite Hnone.
    rewrite IH by assumption. rewrite app_assoc_s. reflexivity.
Qed.

Lemma searchFrom_here r b s rest caps :
  matchHere r s = Some (rest, caps) ->
  searchFrom r b s = Some (Found b (consumed s rest) caps rest).
Proof. intros H. destruct s; cbn [searchFrom]; rewrite H; reflexivity. Qed.


(** ** Replacing every match *)

Lemma replaceAllFrom_skip r fn m : forall post,
  replaceAllFrom r fn (String.length m) (m +:+ post) = replaceAllFrom r fn O post.
Proof.
  induction m as [|c m IH]; intros post; [reflexivity|].
  change (String c m +:+ post) with (String c (m +:+ post)).
  cbn [String.length replaceAllFrom]. apply IH.
Qed.

Lemma replaceAllFrom_match r fn m post caps :
  nonEmpty m = true ->
  matchHere r (m +:+ post) = Some (post, caps) ->
  replaceAllFrom r fn O (m +:+ post) = fn m caps +:+ replaceAllFrom r fn O post.
Proof.
  intros Hm Hmatch. destruct m as [|c m]; [discriminate|].
  pose proof (consumed_app (String c m) post) as Hcons.
  change (String c m +:+ post) with (String c (m +:+ post)) in *.
  cbn [replaceAllFrom]. rewrite Hmatch, Hcons.
  cbn [String.length]. rewrite replaceAllFrom_skip. reflexivity.
Qed.



(** ** Text in which no match starts *)

Lemma indexOfFrom_suffix p g1 : forall t i,
  0 <= i -> JS.indexOfFrom p (g1 +:+ t) i < 0 -> JS.isPrefix p t = false.
Proof.
  induction g1 as [|c g1 IH]; intros t i Hi Hneg.
  - change (EmptyString +:+ t) with t in Hneg.
    destruct t; cbn [JS.indexOfFrom] in Hneg;
      destruct (JS.isPrefix p _); try reflexivity; lia.
  - change (String c g1 +:+ t) with (String c (g1 +:+ t)) in Hneg.
    cbn [JS.indexOfFrom] in Hneg.
    destruct (JS.isPrefix p (String c (g1 +:+ t))); [lia|].
    apply (IH t (i + 1)); [lia | exact Hneg].
Qed.

Lemma includes_suffix gap p g1 t :
  JS.includes gap p = false -> gap = g1 +:+ t -> JS.isPrefix p t = false.
Proof.
  unfold JS.includes, JS.indexOf. intros Hinc ->. apply Z.leb_gt in Hinc.
  apply (indexOfFrom_suffix p g1 t 0); [lia | exact Hinc].
Qed.


(** ** Where an occurrence of the pattern can begin *)

Lemma isPrefix_split a : forall b s,
  JS.isPrefix (a +:+ b) s = JS.isPrefix a s && JS.isPrefix b (JS.drop (String.length a) s).
Proof.
  induction a as [|x a IH]; intros b s; [reflexivity|].
  destruct s as [|y s]; [reflexivity|].
  cbn [String.append JS.isPrefix String.length JS.drop].
  rewrite IH, andb_assoc. reflexivity.
Qed.






Section Reach.
Context {A : Type}.


Lemma run_Lit_if l s caps (k : string -> captures -> option A) :
  run (Lit l) s caps k
  = if JS.isPrefix l s then k (JS.drop (String.length l) s) caps else None.
Proof. reflexivity. Qed.

Lemma run_Plus_if p c s caps (k : string -> captures -> option A) :
  run (Plus p) (String c s) caps k
  = if p c then star p s (fun s' => k s' caps) else None.
Proof. reflexivity. Qed.

Lemma run_Star_eq p s caps (k : string -> captures -> option A) :
  run (Star p) s caps k = star p s (fun s' => k s' caps).
Proof. reflexivity. Qed.
End Reach.







(** ** What a match of the pattern looks like *)

Section Inversion.
Context {A : Type}.

Lemma star_inv p s : forall (k : string -> option A) x,
  star p s k = Some x ->
  exists a rest, s = a +:+ rest /\ all p a = true /\ k rest = Some x.
Proof.
  induction s as [|c s IH]; intros k x H; cbn [star] in H.
  - exists EmptyString, EmptyString. auto.
  - destruct (p c) eqn:Hc; [|exists EmptyString, (String c s); auto].
    destruct (star p s k) as [y|] eqn:Hs; [|exists EmptyString, (String c s); auto].
    injection H as <-. destruct (IH k y Hs) as (a & rest & -> & Ha & Hk).
    exists (String c a), rest. cbn [all]. rewrite Hc. auto.
Qed.

Lemma star_last p s (k : string -> option A) x :
  k s = Some x -> exists y, star p s k = Some y.
Proof.
  intros H. destruct s as [|c s]; cbn [star]; [eauto|].
  destruct (p c); [|eauto]. destruct (star p s k); eauto.
Qed.

Lemma run_Lit_inv l s caps (k : string -> captures -> option A) x :
  run (Lit l) s caps k = Some x ->
  exists s', s = l +:+ s' /\ k s' caps = Some x.
Proof.
  rewrite run_Lit_if. destruct (JS.isPrefix l s) eqn:Hl; [|discriminate].
  intros H. exists (JS.drop (String.length l) s). split; [|exact H].
  clear H. revert s Hl. induction l as [|a l IH]; intros s Hl; [reflexivity|].
  destruct s as [|b s]; [discriminate|]. cbn [JS.isPrefix] in Hl.
  apply andb_true_iff in Hl as [Hab Hl]. apply Ascii.eqb_eq in Hab as <-.
  cbn [String.length JS.drop String.append]. f_equal. apply IH. exact Hl.
Qed.

Lemma run_Plus_inv p s caps (k : string -> captures -> option A) x :
  run (Plus p) s caps k = Some x ->
  exists a s', s = a +:+ s' /\ nonEmpty a = true /\ all p a = true /\ k s' caps = Some x.
Proof.
  destruct s as [|c s]; [discriminate|]. rewrite run_Plus_if.
  destruct (p c) eqn:Hc; [|discriminate]. intros H.
  apply star_inv in H as (a & s' & -> & Ha & Hk).
  exists (String c a), s'. cbn [all]. rewrite Hc. auto.
Qed.
End Inversion.

Lemma matchHere_brokenVar_inv s rest caps :
  matchHere brokenVarPattern s = Some (rest, caps) ->
  exists name ws1 sel ws2 value,
    isBrokenVar name ws1 sel ws2 value = true
    /\ s = brokenVar name ws1 sel ws2 value +:+ rest
    /\ caps = [Some ("--" +:+ name); Some ("[" +:+ sel +:+ "]" +:+ ws2 +:+ value)].
Proof.
  unfold matchHere, brokenVarPattern. cbn [seq]. intros H.
  rewrite run_Seq in H. apply run_Lit_inv in H as (s1 & -> & H).
  rewrite run_Seq, run_Grp, run_Seq in H. apply run_Lit_inv in H as (s2 & -> & H).
  apply run_Plus_inv in H as (name & s3 & -> & Hname1 & Hname & H).
  rewrite run_Seq in H. apply run_Lit_inv in H as (s4 & -> & H).
  rewrite run_Seq, run_Star_eq in H. apply star_inv in H as (ws1 & s5 & -> & Hws1 & H).
  rewrite run_Seq, run_Grp, run_Seq in H. apply run_Lit_inv in H as (s6 & -> & H).
  rewrite run_Seq in H. apply run_Plus_inv in H as (sel & s7 & -> & Hsel1 & Hsel & H).
  rewrite run_Seq in H. apply run_Lit_inv in H as (s8 & -> & H).
  rewrite run_Seq, run_Star_eq in H. apply star_inv in H as (ws2 & s9 & -> & Hws2 & H).
  apply run_Plus_inv in H as (value & s10 & -> & Hvalue1 & Hvalue & H).
  apply run_Lit_inv in H as (s11 & -> & H).
  injection H as <- <-.
  exists name, ws1, sel, ws2, value.
  split; [unfold isBrokenVar;
          rewrite Hname1, Hname, Hws1, Hsel1, Hsel, Hws2, Hvalue1, Hvalue; reflexivity|].
  split; [unfold brokenVar; rewrite !app_assoc_s; reflexivity|].
  f_equal; [|f_equal]; f_equal.
  - exact (consumed_app ("--" +:+ name) _).
  - transitivity (consumed (("[" +:+ sel +:+ "]" +:+ ws2 +:+ value) +:+ String ")" s11)
                           (String ")" s11)); [|apply consumed_app].
    f_equal. rewrite !app_assoc_s. reflexivity.
Qed.

(** ** Occurrences that no earlier match reaches *)





(** A text without [var(] holds no beginning of the pattern. *)
Lemma holdsBeginning_without_var gap :
  JS.includes gap "var(" = false -> holdsBeginning gap = false.
Proof.
  intros Hinc.
  assert (H : forall g1 t, gap = g1 +:+ t -> beginsBroken t = false).
  { intros g1 t Hsplit. unfold beginsBroken.
    change "var(--" with ("var(" +:+ "--").
    rewrite isPrefix_split, (includes_suffix gap "var(" g1 t Hinc Hsplit). reflexivity. }
  clear Hinc. induction gap as [|c gap IH]; cbn [holdsBeginning].
  - rewrite (H EmptyString EmptyString eq_refl). reflexivity.
  - rewrite (H EmptyString (String c gap) eq_refl). cbn [orb].
    apply IH. intros g1 t ->. apply (H (String c g1) t). reflexivity.
Qed.



(** Blanks after the fragment are no part of the value that is kept. *)
Remark fixBrokenCSS_leading_blanks :
  fixBrokenCSS (brokenVar "c" " " "x" EmptyString "  #fff") = repairedVar "c" "#fff"
  /\ fixBrokenCSS (brokenVar "c" " " "x" "  " "#fff") = repairedVar "c" "#fff".
Proof. split; vm_compute; reflexivity. Qed.




(** ** The value of a match that stays on one line *)

Lemma run_Eoi_inv {A : Type} s caps (k : string -> captures -> option A) x :
  run Eoi s caps k = Some x -> s = EmptyString /\ k EmptyString caps = Some x.
Proof. destruct s; [auto | discriminate]. Qed.

Lemma valuePattern_one_line sel tail :
  all (not_chr "]") sel = true -> nonEmpty tail = true -> all dot tail = true ->
  exists m, exec false valuePattern ("[" +:+ sel +:+ "]" +:+ tail) = Some m
            /\ (String.length (group m 1) <= String.length tail)%nat.
Proof.
  intros Hsel Htail Hdot. unfold exec.
  change ("[" +:+ sel +:+ "]" +:+ tail) with (("[" +:+ sel) +:+ "]" +:+ tail).
  rewrite searchFrom_skip.
  2:{ intros c t Hc. apply valuePattern_head. cbn [all] in Hc.
      rewrite andb_true_r in Hc. unfold not_chr in Hc.
      destruct (Ascii.eqb c "]"); [discriminate | reflexivity]. }
  2:{ change ("[" +:+ sel) with (String "[" sel). cbn [all]. rewrite Hsel. reflexivity. }
  set (K := fun s' : string =>
              run (Seq (Grp (Plus dot)) Eoi) s' []
                (fun rest caps => Some (rest, caps))).
  assert (Hrun : matchHere valuePattern ("]" +:+ tail) = star JS.is_whitespace tail K).
  { unfold matchHere, valuePattern. cbn [seq]. rewrite run_Seq, run_Lit, run_Seq, run_Star_eq.
    reflexivity. }
  assert (Hlast : exists y, K tail = Some y).
  { unfold K. rewrite run_Seq, run_Grp. eexists.
    pose proof (fun caps k x =>
                  @run_Plus (string * captures) dot tail EmptyString caps k x
                    Htail Hdot eq_refl) as Hplus.
    rewrite app_nil_r_s in Hplus. apply Hplus. rewrite run_Eoi. reflexivity. }
  destruct Hlast as [y0 Hlast].
  destruct (star_last JS.is_whitespace tail K y0 Hlast) as [[rest caps] Hstar].
  rewrite <- Hrun in Hstar. rewrite (searchFrom_here _ _ _ _ _ Hstar).
  eexists. split; [reflexivity|].
  rewrite Hrun in Hstar. apply star_inv in Hstar as (a & s' & Hsplit & _ & HK).
  unfold K in HK. rewrite run_Seq, run_Grp in HK.
  apply run_Plus_inv in HK as (v & s2 & -> & _ & _ & HK).
  apply run_Eoi_inv in HK as [-> HK]. injection HK as <- <-.
  unfold group. cbn [f_caps]. rewrite consumed_app.
  cbn. rewrite Hsplit, !length_app_s. lia.
Qed.

Lemma fixOne_shorter name ws1 sel ws2 value :
  isBrokenVar name ws1 sel ws2 value = true ->
  all dot (ws2 +:+ value) = true ->
  (String.length
     (fixOne (brokenVar name ws1 sel ws2 value)
             [Some ("--" +:+ name); Some ("[" +:+ sel +:+ "]" +:+ ws2 +:+ value)])
   < String.length (brokenVar name ws1 sel ws2 value))%nat.
Proof.
  unfold isBrokenVar. intros Hocc Hdot.
  apply andb_true_iff in Hocc as [Hocc _]. apply andb_true_iff in Hocc as [Hocc Hvalue].
  apply andb_true_iff in Hocc as [Hocc _]. apply andb_true_iff in Hocc as [Hocc Hsel].
  apply andb_true_iff in Hocc as [_ Hsel1].
  assert (Htail : nonEmpty (ws2 +:+ value) = true).
  { destruct ws2; [exact Hvalue | reflexivity]. }
  destruct (valuePattern_one_line sel (ws2 +:+ value) Hsel Htail Hdot) as (m & Hm & Hlen).
  unfold fixOne. cbv zeta. set (found := Found _ _ _ _).
  change (group found 1) with ("--" +:+ name).
  change (group found 2) with ("[" +:+ sel +:+ "]" +:+ ws2 +:+ value).
  rewrite Hm. unfold brokenVar. rewrite !length_app_s in *. cbn [String.length].
  destruct sel; [discriminate|]. cbn [String.length]. lia.
Qed.

(** ** A repair makes the text shorter *)

Lemma all_app p a b : all p (a +:+ b) = all p a && all p b.
Proof.
  induction a as [|c a IH]; [reflexivity|].
  cbn [String.append all]. rewrite IH, andb_assoc. reflexivity.
Qed.

Lemma all_dot_parts name ws1 sel ws2 value rest :
  all dot (brokenVar name ws1 sel ws2 value +:+ rest) = true ->
  all dot (ws2 +:+ value) = true /\ all dot rest = true.
Proof.
  unfold brokenVar. rewrite !all_app. intros H.
  repeat match goal with
         | H : _ && _ = true |- _ => apply andb_true_iff in H; destruct H
         end.
  split; [apply andb_true_iff; split|]; assumption.
Qed.

Lemma replaceAllFrom_shorter n : forall s,
  (String.length s <= n)%nat -> all dot s = true ->
  (String.length (replaceAllFrom brokenVarPattern fixOne 0 s) <= String.length s)%nat
  /\ (matchHere brokenVarPattern s <> None ->
      (String.length (replaceAllFrom brokenVarPattern fixOne 0 s) < String.length s)%nat).
Proof.
  induction n as [|n IH]; intros s Hn Hdot.
  - destruct s; [|cbn [String.length] in Hn; lia].
    split; [reflexivity | intros H; exfalso; apply H; reflexivity].
  - destruct (matchHere brokenVarPattern s) as [[rest caps]|] eqn:Hmatch.
    + destruct (matchHere_brokenVar_inv s rest caps Hmatch)
        as (name & ws1 & sel & ws2 & value & Hocc & -> & ->).
      set (m := brokenVar name ws1 sel ws2 value) in *.
      apply all_dot_parts in Hdot as [Hdot Hrest].
      pose proof (fixOne_shorter name ws1 sel ws2 value Hocc Hdot) as Hfix.
      fold m in Hfix.
      rewrite (replaceAllFrom_match _ _ m rest _ eq_refl Hmatch).
      destruct (IH rest) as [Hle _]; [|exact Hrest|].
      { rewrite length_app_s in Hn.
        assert (1 <= String.length m)%nat by (unfold m, brokenVar; cbn [String.length String.append]; lia).
        lia. }
      rewrite !length_app_s. split; [lia | intros _; lia].
    + split; [|intros H; contradiction].
      destruct s as [|c s]; [reflexivity|].
      cbn [replaceAllFrom]. rewrite Hmatch. cbn [String.length] in *.
      cbn [all] in Hdot. apply andb_true_iff in Hdot as [_ Hdot].
      destruct (IH s ltac:(lia) Hdot) as [Hle _]. lia.
Qed.

Lemma fixBrokenCSS_shorter s : forall b,
  searchFrom brokenPattern b s <> None -> all dot s = true ->
  (String.length (fixBrokenCSS s) < String.length s)%nat.
Proof.
  unfold fixBrokenCSS, replaceAll.
  induction s as [|c s IH]; intros b Hfound Hdot.
  - exfalso. apply Hfound. reflexivity.
  - destruct (matchHere brokenVarPattern (String c s)) as [[rest caps]|] eqn:Hmatch.
    + apply (replaceAllFrom_shorter (String.length (String c s)) (String c s));
        [lia | exact Hdot | rewrite Hmatch; discriminate].
    + assert (Hnone : matchHere brokenPattern (String c s) = None).
      { rewrite <- strip_brokenVarPattern. apply (matchHere_strip brokenVarPattern).
        exact Hmatch. }
      cbn [searchFrom] in Hfound. rewrite Hnone in Hfound.
      cbn [replaceAllFrom]. rewrite Hmatch. cbn [String.length].
      cbn [all] in Hdot. apply andb_true_iff in Hdot as [_ Hdot].
      specialize (IH _ Hfound Hdot). lia.
Qed.

Lemma fixBrokenCSS_changes css :
  needsFix css = true -> all dot css = true -> fixBrokenCSS css <> css.
Proof.
  unfold needsFix, test, exec. intros Hneeds Hdot Heq.
  assert (Hfound : searchFrom brokenPattern EmptyString css <> None).
  { destruct (searchFrom brokenPattern EmptyString css); [discriminate | discriminate]. }
  pose proof (fixBrokenCSS_shorter css EmptyString Hfound Hdot) as Hlen.
  rewrite Heq in Hlen. lia.
Qed.

(** C9: where [needsFix] answers [false], [fixBrokenCSS] returns the text
    it was given, so a repaired text on which [needsFix] answers [false]
    is not changed by a second repair; and on a text without line break
    the converse holds too: where [needsFix] answers [true] the text is
    changed.  The text [broken_font_lines] has a value that goes over two
    lines: [needsFix] answers [true] on it and [fixBrokenCSS] returns it
    as it was, the bracketed fragment still in it. *)
Theorem fixBrokenCSS_identity_with_pattern :
  (forall css, needsFix css = false -> fixBrokenCSS css = css)
  /\ (forall css,
        needsFix (fixBrokenCSS css) = false ->
        fixBrokenCSS (fixBrokenCSS css) = fixBrokenCSS css)
  /\ (forall css,
        all dot css = true -> needsFix css = true -> fixBrokenCSS css <> css)
  /\ needsFix broken_font_lines = true
  /\ fixBrokenCSS broken_font_lines = broken_font_lines.
Proof.
  split; [exact fixBrokenCSS_without_pattern|].
  split; [intros css; apply fixBrokenCSS_without_pattern|].
  split; [intros css Hdot Hneeds; apply fixBrokenCSS_changes; assumption|].
  split; vm_compute; reflexivity.
Qed.

(** ** Style injection *)

Import Pages.

(** A page that is in order stays so when a style is injected. *)
Lemma PageOk_injectStyles css scopeId page :
  PageOk page -> PageOk (snd (injectStyles css scopeId page)).
Proof.
  intros Hok. unfold injectStyles. destruct (JS.isEmpty (JS.trim css)); [exact Hok|].
  cbn [snd]. destruct Hok as [Hfresh Hnd Hrec]. constructor; cbn [headChildren nextNode styles].
  - apply Forall_app. split.
    + eapply Forall_impl; [exact Hfresh|]. cbn beta. intros e He. lia.
    + constructor; [cbn [node]; lia | constructor].
  - rewrite map_app. cbn [map node]. apply List.NoDup_app.
    + exact Hnd.
    + constructor; [intros [] | constructor].
    + intros n Hn [<-|[]]. apply in_map_iff in Hn as (e & He & Hin).
      rewrite List.Forall_forall in Hfresh. specialize (Hfresh e Hin). lia.
  - intros k l e Hl Hin. destruct (decide (k = scopeId)) as [->|Hne].
    + rewrite lookup_insert_eq in Hl. injection Hl as <-.
      apply in_app_iff in Hin as [Hin | [<-|[]]].
      * destruct (styles page !! scopeId) as [old|] eqn:E.
        -- rewrite E in Hin. cbn [default] in Hin.
           destruct (Hrec scopeId old e E Hin) as [Hh Hs]. split; [|exact Hs].
           apply in_app_iff. left. exact Hh.
        -- rewrite lookup_insert_eq in Hin. contradiction.
      * split; [apply in_app_iff; right; left; reflexivity | reflexivity].
    + rewrite lookup_insert_ne in Hl by congruence.
      assert (Hl' : styles page !! k = Some l).
      { destruct (styles page !! scopeId); [exact Hl|].
        rewrite lookup_insert_ne in Hl by congruence. exact Hl. }
      destruct (Hrec k l e Hl' Hin) as [Hh Hs]. split; [|exact Hs].
      apply in_app_iff. left. exact Hh.
Qed.

Lemma PageOk_page_with_x : PageOk page_with_x.
Proof.
  constructor; unfold page_with_x; cbn [headChildren styles nextNode].
  - constructor; [cbn [node]; lia | constructor].
  - constructor; [intros [] | constructor].
  - intros scopeId l e Hl Hin.
    destruct (decide (scopeId = "x")) as [->|Hne].
    + rewrite lookup_singleton_eq in Hl. injection Hl as <-.
      destruct Hin as [<-|[]]. split; [left; reflexivity | reflexivity].
    + rewrite lookup_singleton_ne in Hl by congruence. discriminate.
Qed.

(** C10: with blank text, [injectStyles] answers [null] and leaves the
    head and the map of styles alone; otherwise it makes one new style
    element that carries the scope id and the text, puts it last in the
    head and last in the list that the map holds for the scope id (an
    empty list when there was none), touches no other entry of the map,
    and returns the element.  The element is new: it takes the identity
    [nextNode], the page counts one identity further, and on a page in
    order, where every element was made before [nextNode], its identity
    is the one of no element of the head and of no recorded style, and
    the page is in order again. *)
Theorem injectStyles_effect (css scopeId : string) (page : Page) :
  (JS.isEmpty (JS.trim css) = true ->
     injectStyles css scopeId page = (None, page))
  /\ (JS.isEmpty (JS.trim css) = false ->
      exists style page',
        injectStyles css scopeId page = (Some style, page')
        /\ style = mkStyle (nextNode page) scopeId "true" css
        /\ headChildren page' = headChildren page ++ [style]
        /\ styles page' !! scopeId
           = Some (default [] (styles page !! scopeId) ++ [style])
        /\ (forall other, other <> scopeId ->
              styles page' !! other = styles page !! other)
        /\ nextNode page' = S (nextNode page)
        /\ (PageOk page ->
              (forall e, In e (headChildren page) -> node e <> node style)
              /\ (forall other l e,
                    styles page !! other = Some l -> In e l -> node e <> node style)
              /\ PageOk page')).
Proof.
  split.
  { unfold injectStyles. intros Hblank. rewrite Hblank. reflexivity. }
  intros Hblank.
  pose proof (PageOk_injectStyles css scopeId page) as Hkept.
  unfold injectStyles in *. rewrite Hblank in *. cbn [snd] in Hkept.
  eexists _, _. split; [reflexivity|]. split; [reflexivity|].
  cbn [headChildren styles nextNode node]. split; [reflexivity|].
  assert (Hmap : (<[scopeId := default []
                     (match styles page !! scopeId with
                      | Some _ => styles page
                      | None => <[scopeId := []]> (styles page)
                      end !! scopeId)
                     ++ [mkStyle (nextNode page) scopeId "true" css]]>
                    match styles page !! scopeId with
                    | Some _ => styles page
                    | None => <[scopeId := []]> (styles page)
                    end) !! scopeId
                 = Some (default [] (styles page !! scopeId)
                         ++ [mkStyle (nextNode page) scopeId "true" css])
                 /\ forall other, other <> scopeId ->
                      (<[scopeId := default []
                          (match styles page !! scopeId with
                           | Some _ => styles page
                           | None => <[scopeId := []]> (styles page)
                           end !! scopeId)
                          ++ [mkStyle (nextNode page) scopeId "true" css]]>
                         match styles page !! scopeId with
                         | Some _ => styles page
                         | None => <[scopeId := []]> (styles page)
                         end) !! other = styles page !! other).
  { destruct (styles page !! scopeId) as [old|] eqn:Hold.
    - split.
      + rewrite lookup_insert_eq, Hold. reflexivity.
      + intros other Hne. rewrite lookup_insert_ne by congruence. reflexivity.
    - split.
      + rewrite !lookup_insert_eq. reflexivity.
      + intros other Hne. rewrite !lookup_insert_ne by congruence. reflexivity. }
  split; [exact (proj1 Hmap)|]. split; [exact (proj2 Hmap)|]. split; [reflexivity|].
  intros Hok. split; [|split; [|exact (Hkept Hok)]].
  - intros e He. pose proof (ok_fresh page Hok) as Hfresh.
    rewrite List.Forall_forall in Hfresh. specialize (Hfresh e He). lia.
  - intros other l e Hl He.
    destruct (ok_recorded page Hok other l e Hl He) as [Hhead _].
    pose proof (ok_fresh page Hok) as Hfresh.
    rewrite List.Forall_forall in Hfresh. specialize (Hfresh e Hhead). lia.
Qed.

Lemma injectStyles_effect_witness :
  injectStyles "  " "x" page_with_x = (None, page_with_x)
  /\ exists style page',
       injectStyles ".b{}" "x" page_with_x = (Some style, page')
       /\ style = mkStyle 1 "x" "true" ".b{}"
       /\ headChildren page' = headChildren page_with_x ++ [style]
       /\ styles page' !! "x"
          = Some (default [] (styles page_with_x !! "x") ++ [style])
       /\ nextNode page' = 2%nat
       /\ (forall e, In e (headChildren page_with_x) -> node e <> node style)
       /\ PageOk page'.
Proof.
  split.
  - apply (proj1 (injectStyles_effect "  " "x" page_with_x)). reflexivity.
  - destruct (proj2 (injectStyles_effect ".b{}" "x" page_with_x) eq_refl)
      as (style & page' & Hret & Hstyle & Hhead & Hmap & _ & Hnext & Hnew).
    destruct (Hnew PageOk_page_with_x) as (Hfresh & _ & Hok).
    exists style, page'.
    split; [exact Hret|]. split; [exact Hstyle|]. split; [exact Hhead|].
    split; [exact Hmap|]. split; [exact Hnext|]. split; [exact Hfresh | exact Hok].
Defined.

(** ** Retries *)

Lemma fetches_app (t1 t2 : list Event) :
  fetches (t1 ++ t2) = (fetches t1 + fetches t2)%nat.
Proof. unfold fetches. rewrite List.filter_app, length_app. reflexivity. Qed.

Section Retry.
Variable network : nat -> string -> Thrown + ComponentData.
Variable err : nat -> Thrown.
Variable name : string.
Hypothesis always_fails : forall k, network k name = inl (err k).

(** One failed iteration of the loop: a fetch, then the wait if a retry
    is left. *)
Lemma retryLoop_fail cfg left i last tr :
  retryLoop network cfg name (S left) i last tr
  = retryLoop network cfg name left (S i) (Some (err (fetches tr)))
      (if (i <? retryCount cfg)%nat
       then tr ++ [Fetch name; Delay (retryDelay cfg * (Z.of_nat i + 1))]
       else tr ++ [Fetch name]).
Proof using always_fails.
  cbn [retryLoop]. unfold fetchComponent. rewrite always_fails.
  destruct (i <? retryCount cfg)%nat; [|reflexivity].
  unfold delay. rewrite <- app_assoc. reflexivity.
Qed.

(** With [retryCount = 2]: three fetches, the waits [retryDelay * 1] and
    [retryDelay * 2] before the two retries, and the error of the third
    fetch is thrown. *)
Lemma fetchComponentWithRetry_exhausted cfg tr :
  retryCount cfg = 2%nat ->
  fetchComponentWithRetry network cfg name tr
  = (inl (Some (err (fetches tr + 2)%nat)),
     tr ++ [Fetch name; Delay (retryDelay cfg * 1);
            Fetch name; Delay (retryDelay cfg * 2); Fetch name]).
Proof using always_fails.
  intros H2. unfold fetchComponentWithRetry. rewrite H2.
  rewrite !retryLoop_fail, H2. cbn [Nat.ltb Nat.leb retryLoop].
  rewrite !fetches_app. rewrite <- !app_assoc. cbn [app].
  assert (E : forall z, fetches [Fetch name; Delay z] = 1%nat) by reflexivity.
  rewrite !E. change (Z.of_nat 0 + 1) with 1. change (Z.of_nat 1 + 1) with 2.
  replace (fetches tr + 1 + 1)%nat with (fetches tr + 2)%nat by lia. reflexivity.
Qed.
End Retry.

(** C8: when every fetch of the component fails and [retryCount] is 2,
    [fetchComponentWithRetry] makes three fetches, waits [retryDelay * 1]
    before the first retry and [retryDelay * 2] before the second, and
    throws the error of the last fetch; [loadComponent], when the cache
    does not answer, then leaves the placeholder in the error state, and
    returns under the graceful policy or rejects with that error. *)
Theorem retry_exhaustion
    (network : nat -> string -> Thrown + ComponentData)
    (renderComponent : Element -> ComponentData -> string -> option Thrown * Element)
    (errorHTML : string -> option Thrown -> string)
    (err : nat -> Thrown) (cfg : Config) (loadId name : string)
    (el : Element) (retry : nat) (ld : Loader) :
  (forall k, network k name = inl (err k)) ->
  retryCount cfg = 2%nat ->
  cache cfg = false \/ components ld !! name = None ->
  let attempts := [Fetch name; Delay (retryDelay cfg * 1);
                   Fetch name; Delay (retryDelay cfg * 2); Fetch name] in
  let last := err (fetches (trace ld) + 2)%nat in
  fetchComponentWithRetry network cfg name (trace ld)
    = (inl (Some last), trace ld ++ attempts)
  /\ match loadComponent network renderComponent errorHTML cfg loadId name el retry ld with
     | (outcome, el', ld') =>
         trace ld' = trace ld ++ attempts
         /\ fetches (trace ld') = (fetches (trace ld) + 3)%nat
         /\ dataset el' !! "loading" = Some "false"
         /\ dataset el' !! "loaded" = Some "false"
         /\ dataset el' !! "error" = Some "true"
         /\ dataset el' !! "errorMessage" = Some (message_of (Some last))
         /\ outcome = (if String.eqb (errorHandling cfg) "graceful"
                       then Returned else Rejected (Some last))
     end.
Proof.
  intros Hfail H2 Hmiss attempts last.
  pose proof (fetchComponentWithRetry_exhausted network err name Hfail cfg (trace ld) H2)
    as Hretry.
  split; [exact Hretry|].
  assert (Hcache : (if cache cfg then components ld !! name else None) = None).
  { destruct Hmiss as [-> | ->]; [reflexivity | destruct (cache cfg); reflexivity]. }
  unfold loadComponent, loadAndRender. cbn [components trace loadingStates].
  rewrite Hcache, Hretry. cbn [components trace loadingStates].
  fold attempts. fold last.
  assert (Hn : fetches (trace ld ++ attempts) = (fetches (trace ld) + 3)%nat).
  { rewrite fetches_app. reflexivity. }
  destruct (String.eqb (errorHandling cfg) "graceful").
  - split; [reflexivity|]. split; [exact Hn|].
    unfold delete_data, set_data, renderError. cbn [dataset innerHTML].
    destruct (_ !! "errorRendered") as [v|]; [destruct (JS.isEmpty v)|];
      cbn [dataset innerHTML]; repeat split; simplify_map_eq; reflexivity.
  - split; [reflexivity|]. split; [exact Hn|].
    unfold set_data. cbn [dataset]. repeat split; simplify_map_eq; reflexivity.
Qed.

Lemma retry_exhaustion_witness :
  fetchComponentWithRetry dead_network defaultConfig "header" []
    = (inl (Some not_found),
       [Fetch "header"; Delay 1000; Fetch "header"; Delay 2000; Fetch "header"])
  /\ dataset (snd (fst (loadComponent dead_network no_render no_panel defaultConfig
                          "header-1-abc" "header" placeholder 0 fresh_loader)))
       !! "error" = Some "true".
Proof.
  pose proof (retry_exhaustion dead_network no_render no_panel (fun _ => not_found)
                defaultConfig "header-1-abc" "header" placeholder 0 fresh_loader
                (fun k => eq_refl) eq_refl (or_intror eq_refl)) as [Hfetch Hload].
  split; [exact Hfetch|].
  destruct (loadComponent _ _ _ _ _ _ _ _ _) as [[outcome el'] ld'].
  exact (proj1 (proj2 (proj2 (proj2 (proj2 Hload))))).
Defined.

(** * Further properties of the scoping engine and of the loader *)

Import Attempts Pages LoadSamples Flat Html Documents.

(** ** The tokenizer, further *)

(** ** [trim] *)

Lemma trimStart_head s :
  match JS.trimStart s with
  | EmptyString => True
  | String c _ => JS.is_whitespace c = false
  end.
Proof.
  induction s as [|c s IH]; cbn [JS.trimStart]; [exact I|].
  destruct (JS.is_whitespace c) eqn:E; [exact IH | exact E].
Qed.

Lemma trimEnd_head c s :
  JS.is_whitespace c = false ->
  exists t, JS.trimEnd (String c s) = String c t.
Proof.
  intros Hc. cbn [JS.trimEnd]. destruct (JS.trimEnd s) as [|d t]; [rewrite Hc|]; eauto.
Qed.

Lemma trimEnd_idem s : JS.trimEnd (JS.trimEnd s) = JS.trimEnd s.
Proof.
  induction s as [|c s IH]; [reflexivity|]. cbn [JS.trimEnd].
  destruct (JS.trimEnd s) as [|d t] eqn:E.
  - destruct (JS.is_whitespace c) eqn:Hc; [reflexivity|]. cbn [JS.trimEnd]. rewrite Hc. reflexivity.
  - cbn [JS.trimEnd] in IH |- *. rewrite IH. reflexivity.
Qed.

Lemma trim_idem s : JS.trim (JS.trim s) = JS.trim s.
Proof.
  unfold JS.trim. pose proof (trimStart_head s) as Hh.
  destruct (JS.trimStart s) as [|c t]; [reflexivity|].
  destruct (trimEnd_head c t Hh) as [t' Ht]. rewrite Ht.
  cbn [JS.trimStart]. rewrite Hh. rewrite <- Ht. apply trimEnd_idem.
Qed.

Lemma trimEnd_snoc s c :
  JS.is_whitespace c = false ->
  JS.trimEnd (s +:+ String c EmptyString) = s +:+ String c EmptyString.
Proof.
  intros Hc. induction s as [|d s IH].
  - cbn [String.append JS.trimEnd]. rewrite Hc. reflexivity.
  - change (String d s +:+ String c EmptyString) with (String d (s +:+ String c EmptyString)).
    cbn [JS.trimEnd]. rewrite IH. destruct s; reflexivity.
Qed.

Lemma trimStart_snoc s c :
  JS.is_whitespace c = false ->
  exists s', JS.trimStart (s +:+ String c EmptyString) = s' +:+ String c EmptyString.
Proof.
  intros Hc. induction s as [|d s IH].
  - exists EmptyString. cbn [String.append JS.trimStart]. rewrite Hc. reflexivity.
  - change (String d s +:+ String c EmptyString) with (String d (s +:+ String c EmptyString)).
    cbn [JS.trimStart]. destruct (JS.is_whitespace d); [exact IH|].
    exists (String d s). reflexivity.
Qed.

Lemma trim_snoc_nonEmpty s c :
  JS.is_whitespace c = false -> JS.trim (s +:+ String c EmptyString) <> EmptyString.
Proof.
  intros Hc. unfold JS.trim. destruct (trimStart_snoc s c Hc) as [s' ->].
  rewrite trimEnd_snoc by exact Hc. destruct s'; discriminate.
Qed.

Lemma trimStart_blank s : all JS.is_whitespace s = true -> JS.trimStart s = EmptyString.
Proof.
  induction s as [|c s IH]; [reflexivity|]. cbn [all JS.trimStart]. intros H.
  apply andb_true_iff in H as [Hc Hs]. rewrite Hc. exact (IH Hs).
Qed.

Lemma trim_blank s : all JS.is_whitespace s = true -> JS.trim s = EmptyString.
Proof. intros H. unfold JS.trim. rewrite trimStart_blank by exact H. reflexivity. Qed.

(** ** The chunks of [parseRules] *)

Lemma rules_quoteStep prev c st : rules (quoteStep prev c st) = rules st.
Proof.
  unfold quoteStep.
  repeat match goal with |- context [if ?b then _ else _] => destruct b end; reflexivity.
Qed.

Lemma rules_varStep c rest st : rules (varStep c rest st) = rules st.
Proof.
  unfold varStep.
  repeat match goal with |- context [if ?b then _ else _] => destruct b end; reflexivity.
Qed.

Lemma rules_braceStep c st :
  rules (braceStep c st) = rules st
  \/ exists cur, rules (braceStep c st) = rules st ++ [JS.trim (cur +:+ "}")].
Proof.
  unfold braceStep.
  destruct (Ascii.eqb c "{" && _ && _); [left; reflexivity|].
  destruct (Ascii.eqb c "}" && negb (inString st) && negb (inVarFunction st)) eqn:E;
    [|left; reflexivity].
  destruct (_ =? 0); [|left; reflexivity].
  right. exists (currentRule st). cbn [rules set_rule].
  apply andb_true_iff in E as [E _]. apply andb_true_iff in E as [E _].
  apply Ascii.eqb_eq in E. subst c. reflexivity.
Qed.

Lemma rules_body prev c rest st :
  rules (fst (body prev c rest st)) = rules st
  \/ exists cur, rules (fst (body prev c rest st)) = rules st ++ [JS.trim (cur +:+ "}")].
Proof.
  unfold body.
  pose proof (rules_braceStep c (varStep c rest (quoteStep prev c st))) as Hb.
  rewrite rules_varStep, rules_quoteStep in Hb.
  repeat match goal with |- context [if ?b then _ else _] => destruct b end;
    cbn [fst rules set_comment]; rewrite ?rules_quoteStep; auto.
Qed.

Lemma rules_loop (P : string -> Prop) s : forall j prev st,
  (forall cur, P (JS.trim (cur +:+ "}"))) ->
  Forall P (rules st) -> Forall P (rules (loop j prev s st)).
Proof.
  induction s as [|c s IH]; intros j prev st HP Hst; cbn [loop]; [exact Hst|].
  destruct j.
  - pose proof (rules_body prev c s st) as Hb.
    destruct (body prev c s st) as [st' j']. cbn [fst] in Hb.
    apply IH; [exact HP|]. destruct Hb as [-> | [cur ->]]; [exact Hst|].
    apply Forall_app. split; [exact Hst|]. constructor; [apply HP | constructor].
  - apply IH; assumption.
  - destruct (Ascii.eqb c "010"); apply IH; assumption.
Qed.

(** X1: Every chunk that [parseRules] returns is trimmed and is not empty. *)
Theorem parseRules_chunks_trimmed css :
  Forall (fun r => JS.trim r = r /\ r <> EmptyString) (parseRules css).
Proof.
  unfold parseRules, flush.
  assert (H : Forall (fun r => JS.trim r = r /\ r <> EmptyString)
                     (rules (loop Next None css initial))).
  { apply rules_loop; [|constructor].
    intros cur. split; [apply trim_idem | apply trim_snoc_nonEmpty; reflexivity]. }
  destruct (JS.isEmpty _) eqn:E; [exact H|].
  apply Forall_app. split; [exact H|]. constructor; [|constructor].
  split; [apply trim_idem|]. intros Hn. rewrite Hn in E. discriminate E.
Qed.

(** X2: The chunks that [parseRules] returns hold, taken together, no more
    characters than the text. *)
Theorem parseRules_total_length css :
  (lengths (parseRules css) <= String.length css)%nat.
Proof.
  unfold parseRules, flush.
  pose proof (weight_loop css Next None initial) as Hw.
  change (weight initial) with O in Hw. unfold weight in Hw.
  set (st := loop Next None css initial) in *.
  pose proof (length_trim (currentRule st)).
  destruct (JS.isEmpty _); rewrite ?lengths_app; lia.
Qed.

(** ** Blank text *)

Lemma whitespace_plain c :
  JS.is_whitespace c = true ->
  is_quote c = false /\ Ascii.eqb c "/" = false /\ Ascii.eqb c "v" = false
  /\ Ascii.eqb c "(" = false /\ Ascii.eqb c ")" = false
  /\ Ascii.eqb c "{" = false /\ Ascii.eqb c "}" = false.
Proof.
  destruct c as [[] [] [] [] [] [] [] []]; intros H; try discriminate H;
    repeat split; reflexivity.
Qed.

Lemma body_blank prev c rest st :
  inString st = false -> inComment st = false -> inVarFunction st = false ->
  JS.is_whitespace c = true ->
  body prev c rest st = (kept (String c EmptyString) false (stringChar st) st, Next).
Proof.
  intros Hs Hc Hv Hw. destruct st as [rs cur d inS sc inC inV pd].
  cbn [inString inComment inVarFunction] in Hs, Hc, Hv. subst inS inC inV.
  destruct (whitespace_plain c Hw) as (Hq & Hsl & Hvv & Hop & Hcl & Hob & Hcb).
  unfold body, quoteStep, varStep, braceStep, kept.
  cbn [inString inComment stringChar inVarFunction set_string set_comment set_rule set_var
       rules currentRule depth parenDepth negb andb].
  rewrite Hq, Hsl, Hvv, Hob, Hcb.
  cbn [inString inComment stringChar inVarFunction set_string set_comment set_rule set_var
       rules currentRule depth parenDepth negb andb].
  reflexivity.
Qed.

Lemma loop_blank blank : forall prev rest st,
  inString st = false -> inComment st = false -> inVarFunction st = false ->
  all JS.is_whitespace blank = true ->
  loop Next prev (blank +:+ rest) st
  = loop Next (lastChar prev blank) rest (kept blank false (stringChar st) st).
Proof.
  induction blank as [|c blank IH]; intros prev rest st Hs Hc Hv Hb.
  - cbn [lastChar]. pose proof (kept_nil st) as E. rewrite Hs in E. rewrite E. reflexivity.
  - cbn [all] in Hb. apply andb_true_iff in Hb as [Hw Hb].
    change (String c blank +:+ rest) with (String c (blank +:+ rest)).
    cbn [loop lastChar]. rewrite body_blank by assumption.
    rewrite IH by first [reflexivity | assumption]. rewrite kept_kept. reflexivity.
Qed.

(** X3: A text of white space only, the empty text included, holds no rule:
    [parseRules] returns the empty list and [scopeWithManualParser] the
    empty text, whatever the scope selector. *)
Theorem parseRules_blank css :
  all JS.is_whitespace css = true ->
  parseRules css = []
  /\ forall scope, scopeWithManualParser css scope = Some EmptyString.
Proof.
  intros Hb.
  assert (Hp : parseRules css = []).
  { pose proof (loop_blank css None EmptyString initial eq_refl eq_refl eq_refl Hb) as Hl.
    rewrite app_nil_r_s in Hl. unfold parseRules, flush. rewrite Hl.
    cbn [loop kept currentRule rules initial String.append].
    rewrite trim_blank by exact Hb. reflexivity. }
  split; [exact Hp|].
  intros scope. unfold scopeWithManualParser. cbn [scopeWithManualParserN].
  rewrite Hp. reflexivity.
Qed.

Lemma parseRules_blank_witness :
  parseRules "  " = []
  /\ forall scope, scopeWithManualParser "  " scope = Some EmptyString.
Proof. apply (parseRules_blank "  "). reflexivity. Defined.

(** ** How the manual parser is put together *)

Lemma scopeRuleIn_agree self self' rule scope :
  (forall inner, (String.length inner < String.length rule)%nat ->
                 self inner scope = self' inner scope) ->
  scopeRuleIn self rule scope = scopeRuleIn self' rule scope.
Proof.
  intros Hself. unfold scopeRuleIn.
  destruct (_ =? -1); [reflexivity|].
  destruct (JS.startsWith _ "@"); [|reflexivity].
  unfold scopeAtRuleIn.
  destruct (existsb _ _); [reflexivity|].
  destruct (_ || _); [|reflexivity].
  destruct (_ <=? _) eqn:Hlt; [reflexivity|].
  apply inner_shorter in Hlt.
  pose proof (length_substring rule (JS.indexOf rule "{") (JS.len rule)) as Hafter.
  fold (JS.substringFrom rule (JS.indexOf rule "{")) in Hafter.
  rewrite Hself by lia. reflexivity.
Qed.

(** Inside [scopeWithManualParser], on a rule of the text, the recursive
    calls answer as [scopeRule] does. *)
Lemma scopeRuleIn_scopeRule n rule scope :
  (String.length rule <= n)%nat ->
  scopeRuleIn (scopeWithManualParserN n) rule scope = scopeRule rule scope.
Proof.
  intros Hn. unfold scopeRule. apply scopeRuleIn_agree. intros inner Hin.
  rewrite !scopeWithManualParserN_enough by lia. reflexivity.
Qed.

Lemma scopeRulesIn_concat self scope rs : forall result outs,
  Forall2 (fun r o => scopeRuleIn self r scope = Some o) rs outs ->
  scopeRulesIn self result rs scope
  = Some (result +:+ String.concat EmptyString (map (fun o => o +:+ nl) outs)).
Proof.
  induction rs as [|r rs IH]; intros result outs H; inversion H as [|? o ? outs' Hr Hrest]; subst.
  - cbn [scopeRulesIn map String.concat]. rewrite app_nil_r_s. reflexivity.
  - cbn [scopeRulesIn map]. rewrite Hr. rewrite (IH _ outs' Hrest).
    f_equal. rewrite app_assoc_s. f_equal.
    destruct outs' as [|o' outs'']; cbn [map String.concat].
    + rewrite app_nil_r_s. reflexivity.
    + cbn [String.append]. rewrite !app_assoc_s. reflexivity.
Qed.

Lemma scopeRule_returns rule scope : exists out, scopeRule rule scope = Some out.
Proof.
  unfold scopeRule. apply scopeRuleIn_some. intros inner Hin.
  apply scopeWithManualParserN_some. exact Hin.
Qed.

Lemma Forall2_scopeRule scope rs :
  exists outs, Forall2 (fun r o => scopeRule r scope = Some o) rs outs.
Proof.
  induction rs as [|r rs [outs IH]]; [exists []; constructor|].
  destruct (scopeRule_returns r scope) as [o Ho].
  exists (o :: outs). constructor; assumption.
Qed.

(** The result of [scopeWithManualParser], from what [scopeRule] makes
    of the chunks. *)
Lemma scopeWithManualParser_concat css scope outs :
  Forall2 (fun r o => scopeRule r scope = Some o) (parseRules css) outs ->
  scopeWithManualParser css scope
  = Some (String.concat EmptyString (map (fun o => o +:+ nl) outs)).
Proof.
  intros Houts. unfold scopeWithManualParser. cbn [scopeWithManualParserN].
  rewrite (scopeRulesIn_concat _ scope (parseRules css) EmptyString outs); [reflexivity|].
  pose proof (parseRules_lengths css) as Hlen.
  revert Houts Hlen. generalize (parseRules css). intros rs Houts.
  induction Houts as [|r o rs outs' Hr _ IH]; intros Hlen; constructor.
  - inversion Hlen; subst. rewrite scopeRuleIn_scopeRule by assumption. exact Hr.
  - apply IH. inversion Hlen; subst. assumption.
Qed.

(** X4: [scopeWithManualParser] returns on every text, however deep its
    at-rules nest: its result is what [scopeRule] makes of each chunk of
    [parseRules], in order, each followed by a line feed. *)
Theorem scopeWithManualParser_by_rule css scope :
  exists outs,
    Forall2 (fun r o => scopeRule r scope = Some o) (parseRules css) outs
    /\ scopeWithManualParser css scope
       = Some (String.concat EmptyString (map (fun o => o +:+ nl) outs)).
Proof.
  destruct (Forall2_scopeRule scope (parseRules css)) as [outs Houts].
  exists outs. split; [exact Houts|].
  apply scopeWithManualParser_concat. exact Houts.
Qed.

(** ** [scopeRule] *)

Lemma indexOfFrom_char_split x s : forall i,
  0 <= i -> JS.indexOfFrom (String x EmptyString) s i <> -1 ->
  exists before after,
    s = before +:+ String x after
    /\ all (not_chr x) before = true
    /\ JS.indexOfFrom (String x EmptyString) s i = i + JS.len before.
Proof.
  induction s as [|c s IH]; intros i Hi Hfound; cbn [JS.indexOfFrom JS.isPrefix] in Hfound |- *.
  - contradiction.
  - destruct (Ascii.eqb_spec x c) as [<-|Hne]; cbn [andb] in Hfound |- *.
    + exists EmptyString, s. repeat split. unfold JS.len. cbn [String.length]. lia.
    + destruct (IH (i + 1) ltac:(lia) Hfound) as (before & after & -> & Hall & Hidx).
      exists (String c before), after. split; [reflexivity|]. split.
      * cbn [all]. rewrite Hall. unfold not_chr.
        destruct (Ascii.eqb_spec c x); [congruence | reflexivity].
      * rewrite Hidx. unfold JS.len. cbn [String.length]. lia.
Qed.

Lemma take_all s : JS.take (String.length s) s = s.
Proof. rewrite <- (app_nil_r_s s) at 2. rewrite take_app. reflexivity. Qed.

Lemma substring_prefix before rest :
  JS.substring (before +:+ rest) 0 (JS.len before) = before.
Proof.
  unfold JS.substring, JS.clamp, JS.len. rewrite length_app_s.
  replace (Z.min (Z.max 0 (Z.min 0 _)) (Z.max 0 (Z.min _ _))) with 0 by lia.
  replace (Z.max (Z.max 0 (Z.min 0 _)) (Z.max 0 (Z.min _ _)))
    with (Z.of_nat (String.length before)) by lia.
  rewrite Z.sub_0_r, Nat2Z.id. cbn [Z.to_nat JS.drop]. apply take_app.
Qed.

Lemma substringFrom_suffix before rest :
  JS.substringFrom (before +:+ rest) (JS.len before) = rest.
Proof.
  unfold JS.substringFrom, JS.substring, JS.clamp, JS.len. rewrite length_app_s.
  set (a := String.length before). set (b := String.length rest).
  replace (Z.min (Z.max 0 (Z.min (Z.of_nat a) _)) (Z.max 0 (Z.min _ _)))
    with (Z.of_nat a) by lia.
  replace (Z.max (Z.max 0 (Z.min (Z.of_nat a) _)) (Z.max 0 (Z.min _ _)))
    with (Z.of_nat (a + b)) by lia.
  replace (Z.to_nat (Z.of_nat (a + b) - Z.of_nat a)) with b by lia.
  rewrite Nat2Z.id. subst a b. rewrite drop_app. apply take_all.
Qed.

Lemma indexOf_absent s p : JS.includes s p = false -> JS.indexOf s p = -1.
Proof.
  unfold JS.includes, JS.indexOf. intros H. apply Z.leb_gt in H.
  pose proof (indexOfFrom_lower p s 0 ltac:(lia)). lia.
Qed.

(** X5: [scopeRule] returns the rule as it is when the rule has no opening
    brace, and when its head starts with [@] unless it is one of [@media],
    [@supports], [@container], [@layer] with text between its braces: an
    at-rule that the parser does not know is never changed. *)
Theorem scopeRule_unchanged rule scope :
  JS.includes rule "{" = false
  \/ (JS.startsWith (ruleHead rule) "@" = true
      /\ isNesting (ruleHead rule) && hasInner rule = false) ->
  scopeRule rule scope = Some rule.
Proof.
  intros H. unfold scopeRule, scopeRuleIn. fold (ruleHead rule).
  destruct H as [H | [Hat H]].
  - rewrite (indexOf_absent _ _ H). reflexivity.
  - destruct (JS.indexOf rule "{" =? -1) eqn:Hbrace; [reflexivity|].
    rewrite Hat. unfold scopeAtRuleIn.
    destruct (existsb _ _); [reflexivity|].
    fold (isNesting (ruleHead rule)).
    destruct (isNesting (ruleHead rule)); [|reflexivity].
    cbn [andb] in H. unfold hasInner in H. rewrite Hbrace in H. cbn [negb andb] in H.
    apply negb_false_iff in H. rewrite H. reflexivity.
Qed.

Lemma scopeRule_unchanged_witness :
  scopeRule "@page :first{margin:0}" scope_x = Some "@page :first{margin:0}"
  /\ scopeRule "color:red" scope_x = Some "color:red".
Proof.
  split.
  - apply scopeRule_unchanged. right. split; reflexivity.
  - apply scopeRule_unchanged. left. reflexivity.
Defined.

(** X6: On a rule whose head does not start with [@], [scopeRule] scopes the
    text before the first opening brace and puts the rest of the rule,
    from that brace on, behind it untouched: the declarations are never
    rewritten. *)
Theorem scopeRule_keeps_block rule scope :
  JS.includes rule "{" = true ->
  JS.startsWith (ruleHead rule) "@" = false ->
  exists before block,
    rule = before +:+ String "{" block
    /\ all (not_chr "{") before = true
    /\ scopeRule rule scope
       = Some (scopeSelectors (JS.trim before) scope +:+ String "{" block).
Proof.
  intros Hinc Hat.
  assert (Hfound : JS.indexOfFrom "{" rule 0 <> -1).
  { unfold JS.includes, JS.indexOf in Hinc. apply Z.leb_le in Hinc. lia. }
  destruct (indexOfFrom_char_split "{" rule 0 ltac:(lia) Hfound)
    as (before & block & Hrule & Hall & Hidx).
  exists before, block. split; [exact Hrule|]. split; [exact Hall|].
  unfold ruleHead in Hat. unfold scopeRule, scopeRuleIn.
  unfold JS.indexOf in *. rewrite Hidx in *. rewrite Z.add_0_l in *.
  destruct (JS.len before =? -1) eqn:E; [apply Z.eqb_eq in E; unfold JS.len in E; lia|].
  rewrite Hat. subst rule.
  rewrite substring_prefix, substringFrom_suffix. reflexivity.
Qed.

Lemma scopeRule_keeps_block_witness :
  exists before block,
    btn_rule = before +:+ String "{" block
    /\ all (not_chr "{") before = true
    /\ scopeRule btn_rule scope_x
       = Some (scopeSelectors (JS.trim before) scope_x +:+ String "{" block).
Proof. apply (scopeRule_keeps_block btn_rule scope_x); reflexivity. Defined.

(** * Lists of selectors and lines of text *)

(** ** [split] and [join] *)

Lemma split_nonempty sep s : JS.split sep s <> [].
Proof.
  destruct s as [|c s]; cbn [JS.split]; [discriminate|].
  destruct (Ascii.eqb c sep); [discriminate|]. destruct (JS.split sep s); discriminate.
Qed.

Lemma split_app sep a b :
  JS.split sep (a +:+ String sep b) = JS.split sep a ++ JS.split sep b.
Proof.
  induction a as [|c a IH].
  - cbn [String.append JS.split]. rewrite Ascii.eqb_refl. reflexivity.
  - change (String c a +:+ String sep b) with (String c (a +:+ String sep b)).
    cbn [JS.split]. rewrite IH. destruct (Ascii.eqb c sep); [reflexivity|].
    pose proof (split_nonempty sep a). destruct (JS.split sep a); [contradiction | reflexivity].
Qed.

Lemma concat_app sep l1 l2 :
  l1 <> [] -> l2 <> [] ->
  String.concat sep (l1 ++ l2) = String.concat sep l1 +:+ sep +:+ String.concat sep l2.
Proof.
  intros H1 H2. induction l1 as [|x l1 IH]; [contradiction|].
  destruct l1 as [|y l1].
  - destruct l2; [contradiction | reflexivity].
  - change ((x :: y :: l1) ++ l2) with (x :: (y :: l1) ++ l2).
    change (String.concat sep (x :: (y :: l1) ++ l2))
      with (x +:+ sep +:+ String.concat sep ((y :: l1) ++ l2)).
    rewrite IH by discriminate.
    change (String.concat sep (x :: y :: l1)) with (x +:+ sep +:+ String.concat sep (y :: l1)).
    rewrite !app_assoc_s. reflexivity.
Qed.

Lemma join_map_split f sep a b :
  JS.join ", " (map f (JS.split sep (a +:+ String sep b)))
  = JS.join ", " (map f (JS.split sep a)) +:+ ", " +:+ JS.join ", " (map f (JS.split sep b)).
Proof.
  unfold JS.join. rewrite split_app, map_app. apply concat_app.
  - pose proof (split_nonempty sep a). destruct (JS.split sep a); [contradiction | discriminate].
  - pose proof (split_nonempty sep b). destruct (JS.split sep b); [contradiction | discriminate].
Qed.

(** Joining the parts of a text with the separator gives the text back. *)
Lemma join_split sep s : JS.join (String sep EmptyString) (JS.split sep s) = s.
Proof.
  unfold JS.join. induction s as [|c s IH]; [reflexivity|].
  cbn [JS.split]. pose proof (split_nonempty sep s) as Hne.
  destruct (Ascii.eqb_spec c sep) as [->|Hc].
  - destruct (JS.split sep s) as [|h t]; [contradiction|].
    change (String.concat (String sep EmptyString) (EmptyString :: h :: t))
      with (String sep (String.concat (String sep EmptyString) (h :: t))).
    rewrite IH. reflexivity.
  - destruct (JS.split sep s) as [|h t]; [contradiction|].
    destruct t as [|h' t]; cbn [String.concat] in IH |- *; rewrite <- IH; reflexivity.
Qed.

(** X7: A list of selectors is scoped selector by selector: scoping two lists
    joined by a comma gives the two scoped lists joined by a comma and a
    blank, in [scopeSelectors] and in [scopeSelectorsSafe]. *)
Theorem scopeSelectors_comma a b scope :
  scopeSelectors (a +:+ "," +:+ b) scope
  = scopeSelectors a scope +:+ ", " +:+ scopeSelectors b scope
  /\ scopeSelectorsSafe (a +:+ "," +:+ b) scope
     = scopeSelectorsSafe a scope +:+ ", " +:+ scopeSelectorsSafe b scope.
Proof.
  unfold scopeSelectors, scopeSelectorsSafe.
  change ("," +:+ b) with (String "," b). split; apply join_map_split.
Qed.

(** ** [scopeCSSSafe], line by line *)

(** What a line adds to [result] does not depend on the state. *)
Lemma safeLine_result scope line :
  exists out, forall st, result (safeLine scope st line) = result st +:+ out.
Proof.
  unfold safeLine.
  destruct (JS.isEmpty (JS.trim line)); [eexists; intros st; reflexivity|].
  destruct (JS.includes (JS.trim line) "{" && negb (JS.includes (JS.trim line) "}")).
  { eexists. intros st. cbn [result]. reflexivity. }
  exists (line +:+ nl). intros st.
  repeat match goal with |- context [if ?b then _ else _] => destruct b end; reflexivity.
Qed.

Lemma safeLines_result scope lines :
  exists out, forall st,
    result (fold_left (safeLine scope) lines st) = result st +:+ out.
Proof.
  induction lines as [|line lines [out IH]].
  - exists EmptyString. intros st. cbn [fold_left]. rewrite app_nil_r_s. reflexivity.
  - destruct (safeLine_result scope line) as [out1 H1].
    exists (out1 +:+ out). intros st. cbn [fold_left]. rewrite IH, H1.
    apply app_assoc_s.
Qed.

(** X8: [scopeCSSSafe] works line by line and carries nothing over from one
    line to the next: the scoped text of two texts joined by a line feed
    is the scoped text of the first followed by the scoped text of the
    second. *)
Theorem scopeCSSSafe_line_feed a b scope :
  scopeCSSSafe (a +:+ nl +:+ b) scope = scopeCSSSafe a scope +:+ scopeCSSSafe b scope.
Proof.
  unfold scopeCSSSafe. change (nl +:+ b) with (String "010" b).
  rewrite split_app, fold_left_app.
  destruct (safeLines_result scope (JS.split "010" b)) as [out Hout].
  rewrite !Hout. reflexivity.
Qed.

Lemma all_trimStart p s : all p s = true -> all p (JS.trimStart s) = true.
Proof.
  induction s as [|c s IH]; [reflexivity|]. cbn [all JS.trimStart]. intros H.
  destruct (JS.is_whitespace c); [|exact H].
  apply andb_true_iff in H as [_ H]. exact (IH H).
Qed.

Lemma all_trimEnd p s : all p s = true -> all p (JS.trimEnd s) = true.
Proof.
  induction s as [|c s IH]; [reflexivity|]. cbn [all JS.trimEnd]. intros H.
  apply andb_true_iff in H as [Hc H]. specialize (IH H).
  destruct (JS.trimEnd s) as [|d t].
  - destruct (JS.is_whitespace c); [reflexivity|]. cbn [all]. rewrite Hc. reflexivity.
  - cbn [all] in IH |- *. rewrite Hc. exact IH.
Qed.

Lemma all_trim p s : all p s = true -> all p (JS.trim s) = true.
Proof. intros H. unfold JS.trim. apply all_trimEnd, all_trimStart, H. Qed.

Lemma indexOfFrom_char_absent x s : forall i,
  all (not_chr x) s = true -> JS.indexOfFrom (String x EmptyString) s i = -1.
Proof.
  induction s as [|c s IH]; intros i H; cbn [JS.indexOfFrom JS.isPrefix]; [reflexivity|].
  cbn [all] in H. apply andb_true_iff in H as [Hc H]. unfold not_chr in Hc.
  rewrite Ascii.eqb_sym. apply negb_true_iff in Hc. rewrite Hc. cbn [andb].
  apply IH. exact H.
Qed.

Lemma includes_char_absent x s :
  all (not_chr x) s = true -> JS.includes s (String x EmptyString) = false.
Proof.
  intros H. unfold JS.includes, JS.indexOf. rewrite indexOfFrom_char_absent by exact H.
  reflexivity.
Qed.

Lemma all_split p sep s : all p s = true -> Forall (fun l => all p l = true) (JS.split sep s).
Proof.
  induction s as [|c s IH]; cbn [all JS.split]; intros H.
  - constructor; [reflexivity | constructor].
  - apply andb_true_iff in H as [Hc H]. specialize (IH H).
    destruct (Ascii.eqb c sep); [constructor; [reflexivity | exact IH]|].
    destruct (JS.split sep s) as [|h t]; [repeat constructor; cbn [all]; rewrite Hc; reflexivity|].
    inversion IH; subst. constructor; [cbn [all]; rewrite Hc; assumption | assumption].
Qed.

Lemma safeLine_kept scope st line :
  JS.includes (JS.trim line) "{" = false \/ JS.includes (JS.trim line) "}" = true ->
  result (safeLine scope st line) = result st +:+ line +:+ nl.
Proof.
  intros H. unfold safeLine.
  destruct (JS.isEmpty (JS.trim line)); [reflexivity|].
  assert (E : JS.includes (JS.trim line) "{" && negb (JS.includes (JS.trim line) "}") = false).
  { destruct H as [-> | ->]; [reflexivity | apply andb_false_r]. }
  rewrite E.
  repeat match goal with |- context [if ?b then _ else _] => destruct b end; reflexivity.
Qed.

Lemma split_one_line s : all (not_chr "010") s = true -> JS.split "010" s = [s].
Proof.
  induction s as [|c s IH]; [reflexivity|]. cbn [all JS.split]. intros H.
  apply andb_true_iff in H as [Hc H]. unfold not_chr in Hc. apply negb_true_iff in Hc.
  rewrite Hc, (IH H). reflexivity.
Qed.

Lemma concat_cons x xs :
  String.concat EmptyString (x :: xs) = x +:+ String.concat EmptyString xs.
Proof. destruct xs; cbn [String.concat]; [rewrite app_nil_r_s|]; reflexivity. Qed.

Lemma safeLines_kept scope lines : forall st,
  Forall (fun l => all (not_chr "{") l = true) lines ->
  result (fold_left (safeLine scope) lines st)
  = result st +:+ String.concat EmptyString (map (fun l => l +:+ nl) lines).
Proof.
  induction lines as [|line lines IH]; intros st H; cbn [fold_left map].
  - cbn [String.concat]. rewrite app_nil_r_s. reflexivity.
  - inversion H as [|? ? Hl Hrest]; subst. rewrite IH by exact Hrest.
    rewrite safeLine_kept
      by (left; apply includes_char_absent, all_trim; exact Hl).
    rewrite concat_cons, !app_assoc_s. reflexivity.
Qed.

Lemma concat_lines lines :
  lines <> [] ->
  String.concat EmptyString (map (fun l => l +:+ nl) lines) = JS.join nl lines +:+ nl.
Proof.
  unfold JS.join. induction lines as [|l lines IH]; [contradiction|]. intros _.
  destruct lines as [|l' lines]; [reflexivity|].
  cbn [map]. rewrite concat_cons. cbn [map] in IH. rewrite IH by discriminate.
  change (String.concat nl (l :: l' :: lines)) with (l +:+ nl +:+ String.concat nl (l' :: lines)).
  rewrite !app_assoc_s. reflexivity.
Qed.

(** X9: [scopeCSSSafe] copies a line that holds no opening brace, or that
    holds a closing brace, as it is; a text without any opening brace
    comes back unchanged, with a line feed after it. *)
Theorem scopeCSSSafe_kept scope :
  (forall line,
     all (not_chr "010") line = true ->
     JS.includes (JS.trim line) "{" = false \/ JS.includes (JS.trim line) "}" = true ->
     scopeCSSSafe line scope = line +:+ nl)
  /\ (forall css,
        all (not_chr "{") css = true -> scopeCSSSafe css scope = css +:+ nl).
Proof.
  split.
  - intros line Hone Hkept. unfold scopeCSSSafe. rewrite split_one_line by exact Hone.
    cbn [fold_left]. rewrite safeLine_kept by exact Hkept. reflexivity.
  - intros css Hcss. unfold scopeCSSSafe.
    rewrite safeLines_kept by (apply all_split; exact Hcss).
    cbn [result String.append]. rewrite concat_lines by apply split_nonempty.
    change nl with (String "010" EmptyString) at 1. rewrite join_split. reflexivity.
Qed.

Lemma scopeCSSSafe_kept_witness :
  scopeCSSSafe btn_rule scope_x = btn_rule +:+ nl
  /\ scopeCSSSafe ("color: red;" +:+ nl +:+ "margin: 0;") scope_x
     = ("color: red;" +:+ nl +:+ "margin: 0;") +:+ nl.
Proof.
  split.
  - apply (proj1 (scopeCSSSafe_kept scope_x)); [reflexivity | right; reflexivity].
  - apply (proj2 (scopeCSSSafe_kept scope_x)). reflexivity.
Defined.

(** ** [simpleScopeCSS], line by line *)

Lemma simpleLines_result (f : string -> string) lines : forall acc,
  fold_left (fun result line => result +:+ f line +:+ nl) lines acc
  = acc +:+ String.concat EmptyString (map (fun l => f l +:+ nl) lines).
Proof.
  induction lines as [|line lines IH]; intros acc; cbn [fold_left map].
  - cbn [String.concat]. rewrite app_nil_r_s. reflexivity.
  - rewrite IH, concat_cons, !app_assoc_s. reflexivity.
Qed.

Lemma simpleLine_kept scope line :
  all (not_chr "{") line = true -> simpleLine scope false line = line.
Proof.
  intros H. unfold simpleLine. rewrite (includes_char_absent "{" line H).
  rewrite andb_false_r. reflexivity.
Qed.

(** X10: [simpleScopeCSS] works line by line: the scoped text of two texts
    joined by a line feed is the scoped text of the first followed by the
    scoped text of the second; and a text without any opening brace comes
    back unchanged, with a line feed after it. *)
Theorem simpleScopeCSS_line_feed scopeId :
  (forall a b,
     simpleScopeCSS (a +:+ nl +:+ b) scopeId
     = simpleScopeCSS a scopeId +:+ simpleScopeCSS b scopeId)
  /\ (forall css,
        all (not_chr "{") css = true -> simpleScopeCSS css scopeId = css +:+ nl).
Proof.
  split.
  - intros a b. unfold simpleScopeCSS. change (nl +:+ b) with (String "010" b).
    rewrite split_app, fold_left_app.
    rewrite (simpleLines_result _ (JS.split "010" b)).
    rewrite (simpleLines_result _ (JS.split "010" b) EmptyString). reflexivity.
  - intros css Hcss. unfold simpleScopeCSS. rewrite simpleLines_result.
    cbn [String.append].
    assert (E : map (fun l => simpleLine (scopeSelectorOf scopeId) false l +:+ nl)
                    (JS.split "010" css)
                = map (fun l => l +:+ nl) (JS.split "010" css)).
    { pose proof (all_split _ "010" css Hcss) as Hall.
      induction Hall as [|l ls Hl _ IH]; [reflexivity|].
      cbn [map]. rewrite IH, simpleLine_kept by exact Hl. reflexivity. }
    rewrite E, concat_lines by apply split_nonempty.
    change nl with (String "010" EmptyString) at 1. rewrite join_split. reflexivity.
Qed.

Lemma simpleScopeCSS_line_feed_witness :
  simpleScopeCSS ("color: red;" +:+ nl +:+ "margin: 0;") "x"
  = ("color: red;" +:+ nl +:+ "margin: 0;") +:+ nl.
Proof. apply (proj2 (simpleScopeCSS_line_feed "x")). reflexivity. Defined.

(** * Text without a [var()] call *)

Lemma searchFrom_nowhere r s : forall b,
  (forall g t, s = g +:+ t -> matchHere r t = None) ->
  searchFrom r b s = None.
Proof.
  induction s as [|c s IH]; intros b H; cbn [searchFrom].
  - rewrite (H EmptyString EmptyString eq_refl). reflexivity.
  - rewrite (H EmptyString (String c s) eq_refl). apply IH.
    intros g t Hs. apply (H (String c g) t). rewrite Hs. reflexivity.
Qed.

Lemma brokenPattern_head s :
  JS.isPrefix "var(" s = false -> matchHere brokenPattern s = None.
Proof.
  intros H. unfold matchHere, brokenPattern. cbn [seq run]. rewrite H. reflexivity.
Qed.

(** X11: A text that holds no [var(] is neither reported by [needsFix] nor
    changed by [fixBrokenCSS]. *)
Theorem fixBrokenCSS_without_var css :
  JS.includes css "var(" = false ->
  needsFix css = false /\ fixBrokenCSS css = css.
Proof.
  intros H.
  assert (Hn : needsFix css = false).
  { unfold needsFix, test, exec. rewrite searchFrom_nowhere; [reflexivity|].
    intros g t Hs. apply brokenPattern_head. eapply includes_suffix; eassumption. }
  split; [exact Hn | apply fixBrokenCSS_without_pattern; exact Hn].
Qed.

Lemma fixBrokenCSS_without_var_witness :
  needsFix ".a{color:red}" = false /\ fixBrokenCSS ".a{color:red}" = ".a{color:red}".
Proof. apply (fixBrokenCSS_without_var ".a{color:red}"). reflexivity. Defined.

(** * The forms of [:host] *)

Section Backtrack.
Context {A : Type}.

(** A greedy run gives back one character after the other; when what
    follows fits nowhere, the run fails. *)
Lemma star_fail p a : forall rest (k : string -> option A),
  all p a = true -> stops p rest = true ->
  (forall a1 a2, a = a1 +:+ a2 -> k (a2 +:+ rest) = None) ->
  star p (a +:+ rest) k = None.
Proof.
  induction a as [|c a IH]; intros rest k Ha Hstop Hk.
  - cbn [String.append]. pose proof (Hk EmptyString EmptyString eq_refl) as H0.
    cbn [String.append] in H0.
    destruct rest as [|c rest]; cbn [star]; [exact H0|].
    cbn [stops] in Hstop. destruct (p c); [discriminate | exact H0].
  - cbn [all] in Ha. apply andb_true_iff in Ha as [Hc Ha].
    change (String c a +:+ rest) with (String c (a +:+ rest)).
    cbn [star]. rewrite Hc. rewrite IH; [| exact Ha | exact Hstop |].
    + exact (Hk EmptyString (String c a) eq_refl).
    + intros a1 a2 Hsplit. apply (Hk (String c a1) a2). rewrite Hsplit. reflexivity.
Qed.

Lemma run_Plus_fail p a rest caps (k : string -> captures -> option A) :
  all p a = true -> stops p rest = true ->
  (forall a1 a2, a = a1 +:+ a2 -> k (a2 +:+ rest) caps = None) ->
  run (Plus p) (a +:+ rest) caps k = None.
Proof.
  intros Ha Hstop Hk. destruct a as [|c a].
  - cbn [String.append run]. destruct rest as [|c rest]; [reflexivity|].
    cbn [stops] in Hstop. destruct (p c); [discriminate | reflexivity].
  - cbn [all] in Ha. apply andb_true_iff in Ha as [Hc Ha].
    change (String c a +:+ rest) with (String c (a +:+ rest)).
    cbn [run]. rewrite Hc. apply star_fail; [exact Ha | exact Hstop |].
    intros a1 a2 Hsplit. apply (Hk (String c a1) a2). rewrite Hsplit. reflexivity.
Qed.
End Backtrack.

Lemma consumed_all s : consumed s EmptyString = s.
Proof. unfold consumed. cbn [String.length]. rewrite Nat.sub_0_r. apply take_all. Qed.

Lemma letter_not_colon c : letter_or_dash c = true -> Ascii.eqb ":" c = false.
Proof. destruct (Ascii.eqb_spec ":" c) as [<-|]; [discriminate | reflexivity]. Qed.

Lemma all_suffix_head p a a1 d a2 :
  all p a = true -> a = a1 +:+ String d a2 -> p d = true.
Proof.
  revert a. induction a1 as [|c a1 IH]; intros a Ha ->.
  - cbn [String.append all] in Ha. apply andb_true_iff in Ha as [Hd _]. exact Hd.
  - change (String c a1 +:+ String d a2) with (String c (a1 +:+ String d a2)) in Ha.
    cbn [all] in Ha. apply andb_true_iff in Ha as [_ Ha]. exact (IH _ Ha eq_refl).
Qed.

(** The pseudo-class part of the [:host] patterns on a colon and a name:
    the name is its first capture, its argument list takes no part. *)
Lemma run_pseudo {A} name caps (k : string -> captures -> option A) x :
  nonEmpty name = true -> all letter_or_dash name = true ->
  k EmptyString (<[length caps := Some (":" +:+ name)]> ((caps ++ [None]) ++ [None]))
    = Some x ->
  run re_pseudo (":" +:+ name) caps k = Some x.
Proof.
  intros Hne Hall Hk. unfold re_pseudo. cbn [seq].
  rewrite run_Grp, run_Seq, run_Lit, run_Seq.
  assert (Hopt : forall k' : string -> captures -> option A,
            run (Opt (Lit ":")) name (caps ++ [None]) k' = k' name (caps ++ [None])).
  { intros k'. destruct name as [|c n]; [discriminate Hne|].
    cbn [all] in Hall. apply andb_true_iff in Hall as [Hc _].
    cbn [run JS.isPrefix ngroups replicate]. rewrite (letter_not_colon c Hc).
    cbn [andb]. rewrite app_nil_r. reflexivity. }
  rewrite Hopt. rewrite run_Seq. rewrite <- (app_nil_r_s name) at 1.
  apply run_Plus; [exact Hne | exact Hall | reflexivity |].
  cbn [run seq JS.isPrefix ngroups replicate].
  rewrite consumed_all. exact Hk.
Qed.

Lemma matchHere_host_class cls :
  nonEmpty cls = true -> all (not_chr ")") cls = true ->
  matchHere re_host_class (":host(" +:+ cls +:+ ")") = Some (EmptyString, [Some cls]).
Proof.
  intros Hne Hall. unfold matchHere, re_host_class. cbn [seq].
  rewrite run_Seq, run_Lit, run_Seq, run_Grp.
  apply run_Plus; [exact Hne | exact Hall | reflexivity |].
  cbn [run JS.isPrefix Ascii.eqb Bool.eqb andb JS.drop String.length].
  rewrite consumed_app. reflexivity.
Qed.

Lemma matchHere_host_class_then cls name :
  all (not_chr ")") cls = true ->
  matchHere re_host_class (":host(" +:+ cls +:+ "):" +:+ name) = None.
Proof.
  intros Hall. unfold matchHere, re_host_class. cbn [seq].
  rewrite run_Seq, run_Lit, run_Seq, run_Grp.
  apply run_Plus_fail; [exact Hall | reflexivity |].
  intros a1 a2 Hsplit. destruct a2 as [|d a2].
  - reflexivity.
  - pose proof (all_suffix_head _ _ _ _ _ Hall Hsplit) as Hd.
    unfold not_chr in Hd. apply negb_true_iff in Hd.
    change (String d a2 +:+ "):" +:+ name) with (String d (a2 +:+ "):" +:+ name)).
    cbn [run JS.isPrefix]. rewrite Ascii.eqb_sym, Hd. reflexivity.
Qed.

Lemma matchHere_host_class_pseudo cls name :
  nonEmpty cls = true -> all (not_chr ")") cls = true ->
  nonEmpty name = true -> all letter_or_dash name = true ->
  matchHere re_host_class_pseudo (":host(" +:+ cls +:+ "):" +:+ name)
  = Some (EmptyString, [Some cls; Some (":" +:+ name); None]).
Proof.
  intros Hne Hall Hn Hname. unfold matchHere, re_host_class_pseudo. cbn [seq].
  rewrite run_Seq, run_Lit, run_Seq, run_Grp.
  apply run_Plus; [exact Hne | exact Hall | reflexivity |].
  change ("):" +:+ name) with (")" +:+ ":" +:+ name).
  rewrite run_Seq, run_Lit, run_Seq.
  apply run_pseudo; [exact Hn | exact Hname |].
  rewrite consumed_app. reflexivity.
Qed.

Lemma matchHere_host_pseudo name :
  nonEmpty name = true -> all letter_or_dash name = true ->
  matchHere re_host_pseudo (":host:" +:+ name)
  = Some (EmptyString, [Some (":" +:+ name); None]).
Proof.
  intros Hn Hname. unfold matchHere, re_host_pseudo. cbn [seq].
  change (":host:" +:+ name) with (":host" +:+ ":" +:+ name).
  rewrite run_Seq, run_Lit, run_Seq.
  apply run_pseudo; [exact Hn | exact Hname |]. reflexivity.
Qed.

(** X12: [handleHostSelector] on the forms of its comments, for every class
    argument without closing parenthesis and every pseudo-class name of
    letters and hyphens: [:host(arg)] gives the scope selector followed by
    the argument, [:host:name] the scope selector followed by [:name], and
    [:host(arg):name] the scope selector followed by the argument and
    [:name]. *)
Theorem handleHostSelector_forms arg name scope :
  nonEmpty arg = true -> all (not_chr ")") arg = true ->
  nonEmpty name = true -> all letter_or_dash name = true ->
  handleHostSelector (":host(" +:+ arg +:+ ")") scope = scope +:+ arg
  /\ handleHostSelector (":host:" +:+ name) scope = scope +:+ ":" +:+ name
  /\ handleHostSelector (":host(" +:+ arg +:+ "):" +:+ name) scope
     = scope +:+ arg +:+ ":" +:+ name.
Proof.
  intros Hne Hall Hn Hname. unfold handleHostSelector, exec. repeat split.
  - rewrite matchHere_host_class by assumption. reflexivity.
  - rewrite matchHere_host_pseudo by assumption. reflexivity.
  - rewrite matchHere_host_class_then by assumption.
    rewrite matchHere_host_class_pseudo by assumption. reflexivity.
Qed.

Lemma handleHostSelector_forms_witness :
  handleHostSelector ":host(.is-open)" scope_x = scope_x +:+ ".is-open"
  /\ handleHostSelector ":host:focus-within" scope_x = scope_x +:+ ":focus-within"
  /\ handleHostSelector ":host(.is-open):focus-within" scope_x
     = scope_x +:+ ".is-open:focus-within".
Proof.
  apply (handleHostSelector_forms ".is-open" "focus-within" scope_x); reflexivity.
Defined.

(** ** Flat rules *)

Lemma flatChar_cases c :
  flatChar c = true ->
  Ascii.eqb c "{" = false /\ Ascii.eqb c "}" = false /\ is_quote c = false
  /\ Ascii.eqb c "/" = false /\ Ascii.eqb c "(" = false /\ Ascii.eqb c ")" = false.
Proof.
  unfold flatChar. intros H.
  repeat (apply andb_true_iff in H; destruct H as [H ?]).
  repeat match goal with H : negb _ = true |- _ => apply negb_true_iff in H end.
  auto 10.
Qed.

(** At a flat character that is followed by flat characters and then by
    a brace or by the end of the text, no [var(] starts. *)
Lemma not_var_call c t rest :
  flat (String c t) = true ->
  match rest with
  | EmptyString => True
  | String b _ => b = "{"%char \/ b = "}"%char
  end ->
  Ascii.eqb c "v" && String.eqb (JS.take 4 (String c (t +:+ rest))) "var(" = false.
Proof.
  intros Hflat Hrest. apply not_true_iff_false. intros H.
  apply andb_true_iff in H as [_ H]. apply String.eqb_eq in H.
  assert (Hb : forall b, b = "{"%char \/ b = "}"%char ->
                         b <> "a"%char /\ b <> "r"%char /\ b <> "("%char).
  { intros b [-> | ->]; repeat split; discriminate. }
  unfold flat in Hflat.
  destruct t as [|a [|r [|x t]]]; cbn [String.append JS.take] in H.
  - destruct rest as [|b rest]; cbn [JS.take] in H; [discriminate H|].
    destruct rest as [|b2 rest]; cbn [JS.take] in H; [discriminate H|].
    injection H as _ Hb1. destruct (Hb b Hrest) as (Ha & _). congruence.
  - destruct rest as [|b rest]; cbn [JS.take] in H; [discriminate H|].
    destruct rest as [|b2 rest]; cbn [JS.take] in H; [discriminate H|].
    injection H as _ _ Hb1. destruct (Hb b Hrest) as (_ & Hr & _). congruence.
  - destruct rest as [|b rest]; cbn [JS.take] in H; [discriminate H|].
    injection H as _ _ _ Hb1. destruct (Hb b Hrest) as (_ & _ & Hp). congruence.
  - injection H as _ _ _ Hx. subst x. cbn [all] in Hflat.
    repeat (apply andb_true_iff in Hflat; destruct Hflat as [? Hflat]).
    discriminate.
Qed.

Lemma body_flat prev c t rest st :
  inString st = false -> inComment st = false -> inVarFunction st = false ->
  flat (String c t) = true ->
  match rest with
  | EmptyString => True
  | String b _ => b = "{"%char \/ b = "}"%char
  end ->
  body prev c (t +:+ rest) st = (kept (String c EmptyString) false (stringChar st) st, Next).
Proof.
  intros Hs Hc Hv Hflat Hrest.
  pose proof (not_var_call c t rest Hflat Hrest) as Hvar.
  unfold flat in Hflat. cbn [all] in Hflat. apply andb_true_iff in Hflat as [Hch _].
  destruct (flatChar_cases c Hch) as (Hob & Hcb & Hq & Hsl & _ & _).
  destruct st as [rs cur d inS sc inC inV pd].
  cbn [inString inComment inVarFunction] in Hs, Hc, Hv. subst inS inC inV.
  unfold body, quoteStep, varStep, braceStep, kept.
  cbn [inString inComment stringChar inVarFunction set_string set_comment set_rule set_var
       rules currentRule depth parenDepth negb andb].
  rewrite Hq, Hsl. cbn [negb andb inString inComment]. rewrite Hvar.
  cbn [inString inComment stringChar inVarFunction set_string set_comment set_rule set_var
       rules currentRule depth parenDepth negb andb].
  rewrite Hob, Hcb. reflexivity.
Qed.

Lemma loop_flat t : forall prev rest st,
  inString st = false -> inComment st = false -> inVarFunction st = false ->
  flat t = true ->
  match rest with
  | EmptyString => True
  | String b _ => b = "{"%char \/ b = "}"%char
  end ->
  loop Next prev (t +:+ rest) st
  = loop Next (lastChar prev t) rest (kept t false (stringChar st) st).
Proof.
  induction t as [|c t IH]; intros prev rest st Hs Hc Hv Hflat Hrest.
  - cbn [lastChar]. pose proof (kept_nil st) as E. rewrite Hs in E. rewrite E. reflexivity.
  - change (String c t +:+ rest) with (String c (t +:+ rest)).
    cbn [loop lastChar]. rewrite body_flat by assumption.
    unfold flat in Hflat. cbn [all] in Hflat. apply andb_true_iff in Hflat as [_ Hflat].
    rewrite IH by first [reflexivity | assumption]. rewrite kept_kept. reflexivity.
Qed.

(** A flat rule read from the start of a rule: the chunk is pushed, and
    the state is as at the start. *)
Lemma loop_flat_rule sel decls prev rest rs q :
  flat sel = true -> flat decls = true ->
  loop Next prev (sel +:+ "{" +:+ decls +:+ "}" +:+ rest)
       (mkPState rs EmptyString 0 false q false false 0)
  = loop Next (Some "}"%char) rest
      (mkPState (rs ++ [JS.trim (sel +:+ "{" +:+ decls +:+ "}")])
                EmptyString 0 false q false false 0).
Proof.
  intros Hsel Hdecls.
  rewrite loop_flat by first [reflexivity | assumption | cbn; auto].
  change ("{" +:+ decls +:+ "}" +:+ rest) with (String "{" (decls +:+ "}" +:+ rest)).
  rewrite loop_Next. unfold kept.
  cbn -[loop String.append JS.trim lastChar].
  unfold set_rule.
  cbn [rules currentRule depth inString stringChar inComment inVarFunction parenDepth].
  rewrite loop_flat by first [reflexivity | assumption | cbn; auto].
  change ("}" +:+ rest) with (String "}" rest).
  rewrite loop_Next. unfold kept.
  cbn -[loop String.append JS.trim lastChar].
  unfold set_rule.
  cbn [rules currentRule depth inString stringChar inComment inVarFunction parenDepth].
  do 3 f_equal. rewrite !app_assoc_s. reflexivity.
Qed.

Lemma body_prev prev prev' c rest st :
  inString st = false -> body prev c rest st = body prev' c rest st.
Proof.
  intros Hs. unfold body, quoteStep. rewrite Hs. reflexivity.
Qed.

Lemma loop_prev prev prev' s st :
  inString st = false -> loop Next prev s st = loop Next prev' s st.
Proof.
  intros Hs. destruct s as [|c s]; [reflexivity|].
  cbn [loop]. rewrite (body_prev prev prev') by exact Hs. reflexivity.
Qed.

Lemma prepend_quoteStep rs prev c st :
  quoteStep prev c (prepend rs st) = prepend rs (quoteStep prev c st).
Proof.
  destruct st as [r cur d inS sc inC inV pd]. unfold quoteStep, prepend.
  cbn [inString inComment stringChar set_rule set_string rules currentRule depth
       inVarFunction parenDepth].
  destruct (negb inC && is_quote c); [|reflexivity].
  destruct inS; cbn [negb]; [|reflexivity].
  destruct (same_char sc c && negb (same_char prev "\")); reflexivity.
Qed.

Lemma prepend_varStep rs c rest st :
  varStep c rest (prepend rs st) = prepend rs (varStep c rest st).
Proof.
  destruct st as [r cur d inS sc inC inV pd]. unfold varStep, prepend.
  cbn [inString inComment stringChar set_rule set_var rules currentRule depth
       inVarFunction parenDepth].
  destruct inS; cbn [negb]; [reflexivity|].
  destruct (Ascii.eqb c "v" && String.eqb _ "var("), inV, (Ascii.eqb c "("), (Ascii.eqb c ")");
    cbn [inString inComment stringChar set_rule set_var rules currentRule depth
         inVarFunction parenDepth];
    try reflexivity; destruct (_ =? 0); reflexivity.
Qed.

Lemma prepend_braceStep rs c st :
  braceStep c (prepend rs st) = prepend rs (braceStep c st).
Proof.
  destruct st as [r cur d inS sc inC inV pd]. unfold braceStep, prepend.
  cbn [inString inComment stringChar set_rule rules currentRule depth
       inVarFunction parenDepth].
  destruct (Ascii.eqb c "{" && negb inS && negb inV); [reflexivity|].
  destruct (Ascii.eqb c "}" && negb inS && negb inV); [|reflexivity].
  destruct (_ =? 0);
    cbn [inString inComment stringChar set_rule rules currentRule depth
         inVarFunction parenDepth]; rewrite <- ?app_assoc; reflexivity.
Qed.

Lemma prepend_body rs prev c rest st :
  body prev c rest (prepend rs st)
  = (prepend rs (fst (body prev c rest st)), snd (body prev c rest st)).
Proof.
  unfold body. rewrite prepend_quoteStep.
  set (st1 := quoteStep prev c st).
  assert (Hs : inString (prepend rs st1) = inString st1) by reflexivity.
  assert (Hc : inComment (prepend rs st1) = inComment st1) by reflexivity.
  rewrite Hs, Hc.
  destruct (negb (inString st1) && Ascii.eqb c "/" && next_is rest "*"); [reflexivity|].
  destruct (inComment st1 && Ascii.eqb c "*" && next_is rest "/"); [reflexivity|].
  destruct (inComment st1); [reflexivity|].
  destruct (negb (inString st1) && Ascii.eqb c "/" && next_is rest "/"); [reflexivity|].
  cbn [fst snd]. rewrite prepend_varStep, prepend_braceStep. reflexivity.
Qed.

Lemma prepend_loop rs s : forall j prev st,
  loop j prev s (prepend rs st) = prepend rs (loop j prev s st).
Proof.
  induction s as [|c s IH]; intros j prev st; [reflexivity|].
  cbn [loop]. destruct j.
  - rewrite prepend_body. destruct (body prev c s st) as [st' j']. cbn [fst snd]. apply IH.
  - apply IH.
  - destruct (Ascii.eqb c "010"); apply IH.
Qed.

Lemma flush_prepend rs st : flush (prepend rs st) = rs ++ flush st.
Proof.
  unfold flush, prepend. cbn [set_rule rules currentRule].
  destruct (JS.isEmpty _); [reflexivity | symmetry; apply app_assoc].
Qed.

(** ** The manual parser on a flat rule *)

Lemma indexOfFrom_char_at x before after : forall i,
  all (not_chr x) before = true ->
  JS.indexOfFrom (String x EmptyString) (before +:+ String x after) i = i + JS.len before.
Proof.
  induction before as [|c before IH]; intros i H.
  - cbn [String.append JS.indexOfFrom JS.isPrefix]. rewrite Ascii.eqb_refl.
    cbn [andb]. unfold JS.len. cbn [String.length]. lia.
  - change (String c before +:+ String x after) with (String c (before +:+ String x after)).
    cbn [all] in H. apply andb_true_iff in H as [Hc H]. unfold not_chr in Hc.
    apply negb_true_iff in Hc.
    cbn [JS.indexOfFrom JS.isPrefix]. rewrite Ascii.eqb_sym, Hc. cbn [andb].
    rewrite IH by exact H. unfold JS.len. cbn [String.length]. lia.
Qed.

(** [scopeRule] on a style rule, whatever stands for the recursive call. *)
Lemma scopeRuleIn_style self before block scope :
  all (not_chr "{") before = true ->
  JS.startsWith (JS.trim before) "@" = false ->
  scopeRuleIn self (before +:+ String "{" block) scope
  = Some (scopeSelectors (JS.trim before) scope +:+ String "{" block).
Proof.
  intros Hall Hat. unfold scopeRuleIn, JS.indexOf.
  rewrite indexOfFrom_char_at by exact Hall. rewrite Z.add_0_l.
  destruct (JS.len before =? -1) eqn:E; [apply Z.eqb_eq in E; unfold JS.len in E; lia|].
  rewrite substring_prefix, substringFrom_suffix, Hat. reflexivity.
Qed.

Lemma trimStart_app c a b :
  JS.is_whitespace c = false ->
  JS.trimStart (a +:+ String c b) = JS.trimStart a +:+ String c b.
Proof.
  intros Hc. induction a as [|d a IH].
  - cbn [String.append JS.trimStart]. rewrite Hc. reflexivity.
  - change (String d a +:+ String c b) with (String d (a +:+ String c b)).
    cbn [JS.trimStart]. destruct (JS.is_whitespace d); [exact IH | reflexivity].
Qed.

Lemma trimStart_idem s : JS.trimStart (JS.trimStart s) = JS.trimStart s.
Proof.
  induction s as [|c s IH]; [reflexivity|]. cbn [JS.trimStart].
  destruct (JS.is_whitespace c) eqn:E; [exact IH|]. cbn [JS.trimStart]. rewrite E. reflexivity.
Qed.

Lemma flat_not_brace s : flat s = true -> all (not_chr "{") s = true.
Proof.
  unfold flat. induction s as [|c s IH]; [reflexivity|]. cbn [all]. intros H.
  apply andb_true_iff in H as [Hc H]. rewrite (IH H), andb_true_r.
  destruct (flatChar_cases c Hc) as (Hob & _). unfold not_chr. rewrite Hob. reflexivity.
Qed.

(** The chunk of a flat rule: the rule without the white space before
    its selector. *)
Lemma trim_flat_rule sel decls :
  JS.trim (sel +:+ "{" +:+ decls +:+ "}") = JS.trimStart sel +:+ "{" +:+ decls +:+ "}".
Proof.
  unfold JS.trim. change ("{" +:+ decls +:+ "}") with (String "{" (decls +:+ "}")).
  rewrite trimStart_app by reflexivity.
  replace (JS.trimStart sel +:+ String "{" (decls +:+ "}"))
    with ((JS.trimStart sel +:+ String "{" decls) +:+ "}")
    by (rewrite app_assoc_s; reflexivity).
  apply trimEnd_snoc. reflexivity.
Qed.

(** After a flat rule the loop is where it started, with the chunk of
    the rule in front of the rules that follow. *)
Lemma loop_flat_rule_rest sel decls rest :
  flat sel = true -> flat decls = true ->
  loop Next None (sel +:+ "{" +:+ decls +:+ "}" +:+ rest) initial
  = prepend [JS.trim (sel +:+ "{" +:+ decls +:+ "}")] (loop Next None rest initial).
Proof.
  intros Hsel Hdecls. unfold initial.
  rewrite loop_flat_rule by assumption.
  rewrite (loop_prev _ None) by reflexivity.
  rewrite <- prepend_loop. reflexivity.
Qed.

(** X13: [scopeWithManualParser] on a rule whose selector and declarations
    are flat and whose selector does not start with [@]: the selector
    list is scoped by [scopeSelectors], the declarations come back as
    they are, and a line feed ends the rule. *)
Theorem scopeWithManualParser_flat_rule sel decls scope :
  flat sel = true -> flat decls = true ->
  JS.startsWith (JS.trim sel) "@" = false ->
  scopeWithManualParser (sel +:+ "{" +:+ decls +:+ "}") scope
  = Some (scopeSelectors (JS.trim sel) scope +:+ "{" +:+ decls +:+ "}" +:+ nl).
Proof.
  intros Hsel Hdecls Hat.
  assert (Hp : parseRules (sel +:+ "{" +:+ decls +:+ "}")
               = [JS.trim (sel +:+ "{" +:+ decls +:+ "}")]).
  { pose proof (loop_flat_rule_rest sel decls EmptyString Hsel Hdecls) as Hl.
    replace (sel +:+ "{" +:+ decls +:+ "}" +:+ EmptyString)
      with (sel +:+ "{" +:+ decls +:+ "}") in Hl by (rewrite !app_nil_r_s; reflexivity).
    unfold parseRules. rewrite Hl, flush_prepend. reflexivity. }
  unfold scopeWithManualParser. cbn [scopeWithManualParserN]. rewrite Hp.
  cbn [scopeRulesIn]. rewrite trim_flat_rule.
  change ("{" +:+ decls +:+ "}") with (String "{" (decls +:+ "}")).
  assert (Htrim : JS.trim (JS.trimStart sel) = JS.trim sel).
  { unfold JS.trim. rewrite trimStart_idem. reflexivity. }
  rewrite scopeRuleIn_style.
  - rewrite Htrim. cbn [String.append]. rewrite app_assoc_s. cbn [String.append].
    rewrite app_assoc_s. reflexivity.
  - apply all_trimStart, flat_not_brace, Hsel.
  - rewrite Htrim. exact Hat.
Qed.

Lemma scopeWithManualParser_flat_rule_witness :
  scopeWithManualParser (" .a, .b " +:+ "{" +:+ " color: red; " +:+ "}") scope_x
  = Some (scopeSelectors (JS.trim " .a, .b ") scope_x
          +:+ "{" +:+ " color: red; " +:+ "}" +:+ nl).
Proof.
  apply (scopeWithManualParser_flat_rule " .a, .b " " color: red; " scope_x); reflexivity.
Defined.

(** X14: A rule whose selector and declarations are flat is cut off as one
    chunk, trimmed, and what follows it is read as a text of its own. *)
Theorem parseRules_flat_rule sel decls rest :
  flat sel = true -> flat decls = true ->
  parseRules (sel +:+ "{" +:+ decls +:+ "}" +:+ rest)
  = JS.trim (sel +:+ "{" +:+ decls +:+ "}") :: parseRules rest.
Proof.
  intros Hsel Hdecls. unfold parseRules.
  rewrite loop_flat_rule_rest by assumption. apply flush_prepend.
Qed.

Lemma parseRules_flat_rule_witness :
  parseRules (" .a, .b " +:+ "{" +:+ " color: red; " +:+ "}" +:+ " .c{margin:0}")
  = JS.trim (" .a, .b " +:+ "{" +:+ " color: red; " +:+ "}") :: parseRules " .c{margin:0}".
Proof. apply (parseRules_flat_rule " .a, .b " " color: red; " " .c{margin:0}"); reflexivity. Defined.

(** * Style blocks *)

Lemma upper_lt c : Ascii.eqb (upper "<") (upper c) = Ascii.eqb "<" c.
Proof. destruct c as [[] [] [] [] [] [] [] []]; reflexivity. Qed.

Lemma matchStyle_head c t : not_chr "<" c = true -> matchStyle (String c t) = None.
Proof.
  unfold not_chr. intros H. apply negb_true_iff in H.
  unfold matchStyle. cbn [isPrefixCI]. rewrite upper_lt, Ascii.eqb_sym, H. reflexivity.
Qed.

Lemma extractFrom_gap pre r :
  all (not_chr "<") pre = true -> extractFrom O (pre +:+ r) = extractFrom O r.
Proof.
  induction pre as [|c pre IH]; intros H; [reflexivity|].
  cbn [all] in H. apply andb_true_iff in H as [Hc H].
  change (String c pre +:+ r) with (String c (pre +:+ r)).
  cbn [extractFrom]. rewrite matchStyle_head by exact Hc. exact (IH H).
Qed.

Lemma removeFrom_gap pre r :
  all (not_chr "<") pre = true -> removeFrom O (pre +:+ r) = pre +:+ removeFrom O r.
Proof.
  induction pre as [|c pre IH]; intros H; [reflexivity|].
  cbn [all] in H. apply andb_true_iff in H as [Hc H].
  change (String c pre +:+ r) with (String c (pre +:+ r)).
  cbn [removeFrom]. rewrite matchStyle_head by exact Hc. rewrite (IH H). reflexivity.
Qed.












Lemma extractFrom_none s : all (not_chr "<") s = true -> extractFrom O s = EmptyString.
Proof.
  intros H. rewrite <- (app_nil_r_s s). rewrite extractFrom_gap by exact H. reflexivity.
Qed.

Lemma removeFrom_none s : all (not_chr "<") s = true -> removeFrom O s = s.
Proof.
  intros H. rewrite <- (app_nil_r_s s) at 1. rewrite removeFrom_gap by exact H.
  cbn [removeFrom matchStyle isPrefixCI]. apply app_nil_r_s.
Qed.



(** X15: A markup text without [<] holds no style: [extractFromHTML] answers
    the empty text and [removeFromHTML] the text as it is. *)
Theorem extractFromHTML_without_tag html :
  all (not_chr "<") html = true ->
  extractFromHTML html = EmptyString /\ removeFromHTML html = html.
Proof.
  intros H. unfold extractFromHTML, removeFromHTML.
  rewrite extractFrom_none by exact H. split; [reflexivity | apply removeFrom_none; exact H].
Qed.

Lemma extractFromHTML_without_tag_witness :
  extractFromHTML "header" = EmptyString /\ removeFromHTML "header" = "header".
Proof. apply (extractFromHTML_without_tag "header"). reflexivity. Defined.



(** ** A rule over three lines on the render path *)








(** * Injected styles and their removal *)

Lemma removeChild_absent style children :
  hasParent style children = false -> removeChild style children = children.
Proof.
  unfold hasParent, removeChild. induction children as [|c cs IH]; [reflexivity|].
  cbn [existsb List.filter]. intros H. apply orb_false_iff in H as [Hc H].
  rewrite Hc. cbn [negb]. rewrite (IH H). reflexivity.
Qed.

Lemma filter_all_true {A} (f : A -> bool) l :
  (forall x, f x = true) -> List.filter f l = l.
Proof.
  intros Hf. induction l as [|x l IH]; [reflexivity|].
  cbn [List.filter]. rewrite Hf, IH. reflexivity.
Qed.

(** What is left of the children after the loop of [cleanupStyles]: the
    elements whose identity is none of the recorded ones. *)
Lemma cleanup_loop recorded : forall children,
  fold_left (fun children style =>
               if hasParent style children then removeChild style children
               else children) recorded children
  = List.filter (fun child => negb (existsb (Nat.eqb (node child)) (map node recorded)))
                children.
Proof.
  induction recorded as [|style rest IH]; intros children; cbn [fold_left map existsb].
  - symmetry. apply filter_all_true. reflexivity.
  - assert (E : (if hasParent style children then removeChild style children else children)
                = removeChild style children).
    { destruct (hasParent style children) eqn:Hp; [reflexivity|].
      symmetry. apply removeChild_absent. exact Hp. }
    rewrite E, IH. unfold removeChild. clear.
    induction children as [|c cs IHc]; [reflexivity|].
    cbn [List.filter]. destruct (Nat.eqb (node c) (node style)); cbn [negb orb].
    + exact IHc.
    + cbn [List.filter]. destruct (negb _); rewrite IHc; reflexivity.
Qed.

Lemma cleanupStyles_head scopeId page :
  headChildren (cleanupStyles scopeId page)
  = List.filter (fun child =>
                   negb (existsb (Nat.eqb (node child)) (map node (recorded scopeId page))))
                (headChildren page).
Proof.
  unfold cleanupStyles, recorded. destruct (styles page !! scopeId) as [l|]; cbn [default headChildren].
  - apply cleanup_loop.
  - rewrite <- (cleanup_loop []). reflexivity.
Qed.

Lemma cleanupStyles_styles scopeId page :
  styles (cleanupStyles scopeId page) = delete scopeId (styles page).
Proof.
  unfold cleanupStyles. destruct (styles page !! scopeId) as [l|] eqn:E; [reflexivity|].
  symmetry. apply delete_id. exact E.
Qed.

Lemma cleanupStyles_nextNode scopeId page :
  nextNode (cleanupStyles scopeId page) = nextNode page.
Proof. unfold cleanupStyles. destruct (styles page !! scopeId); reflexivity. Qed.

Lemma filter_fresh (f : StyleElement -> bool) n children :
  Forall (fun e => (node e < n)%nat) children ->
  (forall e, (node e < n)%nat -> f e = true) ->
  List.filter f children = children.
Proof.
  intros Hall Hf. induction Hall as [|c cs Hc _ IH]; [reflexivity|].
  cbn [List.filter]. rewrite (Hf c Hc), IH. reflexivity.
Qed.

Lemma existsb_node_app n (l1 l2 : list StyleElement) :
  existsb (Nat.eqb n) (map node (l1 ++ l2))
  = existsb (Nat.eqb n) (map node l1) || existsb (Nat.eqb n) (map node l2).
Proof. rewrite map_app. apply existsb_app. Qed.

(** X18: Injecting a style for a scope id and then cleaning that scope id up
    leaves the head and the map of styles as cleaning up alone would, on
    a page whose elements were all made before [nextNode]; when nothing
    was recorded for the scope id, the head and the map are back as they
    were before the injection. *)
Theorem injectStyles_then_cleanupStyles css scopeId page :
  Forall (fun e => (node e < nextNode page)%nat) (headChildren page) ->
  let page1 := snd (injectStyles css scopeId page) in
  headChildren (cleanupStyles scopeId page1) = headChildren (cleanupStyles scopeId page)
  /\ styles (cleanupStyles scopeId page1) = styles (cleanupStyles scopeId page)
  /\ (styles page !! scopeId = None ->
      headChildren (cleanupStyles scopeId page1) = headChildren page
      /\ styles (cleanupStyles scopeId page1) = styles page).
Proof.
  intros Hfresh page1.
  assert (Hgen : headChildren (cleanupStyles scopeId page1)
                 = headChildren (cleanupStyles scopeId page)
                 /\ styles (cleanupStyles scopeId page1) = styles (cleanupStyles scopeId page)).
  { subst page1. unfold injectStyles.
    destruct (JS.isEmpty (JS.trim css)); [split; reflexivity|]. cbn [snd].
    rewrite !cleanupStyles_head, !cleanupStyles_styles. unfold recorded.
    cbn [styles headChildren]. split.
    - assert (Hrec : default [] ((<[scopeId :=
                default [] (match styles page !! scopeId with
                            | Some _ => styles page
                            | None => <[scopeId := []]> (styles page)
                            end !! scopeId)
                ++ [mkStyle (nextNode page) scopeId "true" css]]>
                (match styles page !! scopeId with
                 | Some _ => styles page
                 | None => <[scopeId := []]> (styles page)
                 end)) !! scopeId)
              = default [] (styles page !! scopeId)
                ++ [mkStyle (nextNode page) scopeId "true" css]).
      { rewrite lookup_insert_eq. cbn [default].
        destruct (styles page !! scopeId) as [old|] eqn:E; [rewrite E; reflexivity|].
        rewrite lookup_insert_eq. reflexivity. }
      rewrite Hrec. rewrite List.filter_app. cbn [List.filter].
      rewrite existsb_node_app. cbn [map existsb node].
      rewrite Nat.eqb_refl, orb_true_r. cbn [negb]. rewrite app_nil_r.
      apply List.filter_ext_in. intros e He.
      rewrite existsb_node_app. cbn [map existsb node].
      rewrite List.Forall_forall in Hfresh. specialize (Hfresh e He).
      destruct (Nat.eqb_spec (node e) (nextNode page)); [lia|].
      rewrite !orb_false_r. reflexivity.
    - rewrite delete_insert_eq.
      destruct (styles page !! scopeId); [reflexivity | apply delete_insert_eq]. }
  destruct Hgen as [Hh Hs]. split; [exact Hh|]. split; [exact Hs|].
  intros Hnone. rewrite Hh, Hs. unfold cleanupStyles. rewrite Hnone. split; reflexivity.
Qed.

Lemma injectStyles_then_cleanupStyles_witness :
  headChildren (cleanupStyles "y" (snd (injectStyles ".b{}" "y" page_with_x)))
  = headChildren page_with_x
  /\ styles (cleanupStyles "y" (snd (injectStyles ".b{}" "y" page_with_x)))
     = styles page_with_x.
Proof.
  apply (injectStyles_then_cleanupStyles ".b{}" "y" page_with_x).
  - repeat constructor.
  - reflexivity.
Defined.

(** ** The pages that the loader reaches *)

Lemma NoDup_node_inj (l : list StyleElement) a b :
  List.NoDup (map node l) -> In a l -> In b l -> node a = node b -> a = b.
Proof.
  induction l as [|c l IH]; intros Hnd Ha Hb Hab; [contradiction|].
  cbn [map] in Hnd. apply List.NoDup_cons_iff in Hnd as [Hc Hnd].
  destruct Ha as [<-|Ha], Hb as [<-|Hb]; [reflexivity | | |auto].
  - exfalso. apply Hc. rewrite Hab. apply in_map. exact Hb.
  - exfalso. apply Hc. rewrite <- Hab. apply in_map. exact Ha.
Qed.

Lemma NoDup_node_filter (f : StyleElement -> bool) l :
  List.NoDup (map node l) -> List.NoDup (map node (List.filter f l)).
Proof.
  induction l as [|c l IH]; cbn [map List.filter]; intros Hnd; [constructor|].
  apply List.NoDup_cons_iff in Hnd as [Hc Hnd]. specialize (IH Hnd).
  destruct (f c); [|exact IH]. cbn [map]. constructor; [|exact IH].
  intros Hin. apply Hc. apply in_map_iff in Hin as (e & He & Hin).
  apply List.filter_In in Hin as [Hin _]. rewrite <- He. apply in_map. exact Hin.
Qed.

Lemma Forall_filter_keep {A} (P : A -> Prop) (f : A -> bool) l :
  Forall P l -> Forall P (List.filter f l).
Proof.
  intros H. induction H as [|x l Hx _ IH]; cbn [List.filter]; [constructor|].
  destruct (f x); [constructor; assumption | exact IH].
Qed.

Lemma existsb_node e l :
  existsb (Nat.eqb (node e)) (map node l) = true <-> exists e', In e' l /\ node e' = node e.
Proof.
  rewrite existsb_exists. split.
  - intros (n & Hin & Hn). apply in_map_iff in Hin as (e' & He' & Hin).
    apply Nat.eqb_eq in Hn. exists e'. split; [exact Hin | congruence].
  - intros (e' & Hin & He'). exists (node e'). split; [apply in_map; exact Hin|].
    apply Nat.eqb_eq. congruence.
Qed.

(** On a page of the loader, an element of the head has the identity of
    a style recorded for a scope id only when it is that style. *)
Lemma recorded_by_node page scopeId e :
  PageOk page -> In e (headChildren page) ->
  existsb (Nat.eqb (node e)) (map node (recorded scopeId page)) = true
  <-> In e (recorded scopeId page).
Proof.
  intros Hok He. rewrite existsb_node. split.
  - intros (e' & Hin & Hn). unfold recorded in *.
    destruct (styles page !! scopeId) as [l|] eqn:El; [|contradiction]. cbn [default] in *.
    destruct (ok_recorded page Hok scopeId l e' El Hin) as [Hhead _].
    rewrite <- (NoDup_node_inj _ e' e (ok_nodup page Hok) Hhead He Hn). exact Hin.
  - intros Hin. exists e. auto.
Qed.

Lemma cleanupStyles_keeps page scopeId other e :
  PageOk page -> other <> scopeId -> In e (recorded other page) ->
  In e (headChildren (cleanupStyles scopeId page)).
Proof.
  intros Hok Hne Hin. unfold recorded in Hin.
  destruct (styles page !! other) as [l|] eqn:El; [|contradiction]. cbn [default] in Hin.
  destruct (ok_recorded page Hok other l e El Hin) as [Hhead Hscope].
  rewrite cleanupStyles_head. apply List.filter_In. split; [exact Hhead|].
  apply negb_true_iff. apply not_true_iff_false. intros Hex.
  apply (recorded_by_node page scopeId e Hok Hhead) in Hex. unfold recorded in Hex.
  destruct (styles page !! scopeId) as [l'|] eqn:El'; [|contradiction]. cbn [default] in Hex.
  destruct (ok_recorded page Hok scopeId l' e El' Hex) as [_ Hscope']. congruence.
Qed.

Lemma PageOk_cleanupStyles scopeId page :
  PageOk page -> PageOk (cleanupStyles scopeId page).
Proof.
  intros Hok. constructor.
  - rewrite cleanupStyles_head, cleanupStyles_nextNode.
    apply Forall_filter_keep. exact (ok_fresh page Hok).
  - rewrite cleanupStyles_head. apply NoDup_node_filter. exact (ok_nodup page Hok).
  - intros k l e Hl Hin. rewrite cleanupStyles_styles in Hl.
    destruct (decide (k = scopeId)) as [->|Hne]; [rewrite lookup_delete_eq in Hl; discriminate|].
    rewrite lookup_delete_ne in Hl by congruence.
    destruct (ok_recorded page Hok k l e Hl Hin) as [_ Hscope]. split; [|exact Hscope].
    apply (cleanupStyles_keeps page scopeId k e Hok Hne).
    unfold recorded. rewrite Hl. exact Hin.
Qed.

(** X19: The page before any injection is a page of the loader, and
    [injectStyles] and [cleanupStyles] lead from a page of the loader to a
    page of the loader: identities stay distinct, and what the map of
    styles records is in the head, under the scope id it carries. *)
Theorem PageOk_kept :
  PageOk emptyPage
  /\ forall page,
       PageOk page ->
       (forall css scopeId, PageOk (snd (injectStyles css scopeId page)))
       /\ (forall scopeId, PageOk (cleanupStyles scopeId page)).
Proof.
  split.
  - constructor; cbn [emptyPage headChildren styles map]; [constructor | constructor|].
    intros k l e Hl. rewrite lookup_empty in Hl. discriminate.
  - intros page Hok. split.
    + intros css scopeId. apply PageOk_injectStyles. exact Hok.
    + intros scopeId. apply PageOk_cleanupStyles. exact Hok.
Qed.

Lemma PageOk_kept_witness :
  PageOk (cleanupStyles "x" (snd (injectStyles ".a{}" "x" emptyPage))).
Proof.
  apply (proj2 PageOk_kept). apply (proj2 PageOk_kept). exact (proj1 PageOk_kept).
Defined.

(** X20: On a page of the loader [cleanupStyles] takes out of the head the
    styles recorded for the scope id and nothing else, forgets the entry
    of the scope id, and leaves the other entries and their styles where
    they are. *)
Theorem cleanupStyles_own_styles scopeId page :
  PageOk page ->
  let page' := cleanupStyles scopeId page in
  (forall e, In e (headChildren page')
             <-> In e (headChildren page) /\ ~ In e (recorded scopeId page))
  /\ styles page' !! scopeId = None
  /\ (forall other, other <> scopeId ->
        styles page' !! other = styles page !! other
        /\ forall e, In e (recorded other page) -> In e (headChildren page')).
Proof.
  intros Hok page'. subst page'. split; [|split].
  - intros e. rewrite cleanupStyles_head, List.filter_In. split.
    + intros [Hhead Hf]. split; [exact Hhead|]. intros Hin.
      apply (recorded_by_node page scopeId e Hok Hhead) in Hin.
      rewrite Hin in Hf. discriminate.
    + intros [Hhead Hn]. split; [exact Hhead|].
      apply negb_true_iff. apply not_true_iff_false. intros Hex.
      apply Hn. apply (recorded_by_node page scopeId e Hok Hhead). exact Hex.
  - rewrite cleanupStyles_styles. apply lookup_delete_eq.
  - intros other Hne. split.
    + rewrite cleanupStyles_styles. apply lookup_delete_ne. congruence.
    + intros e. apply cleanupStyles_keeps; assumption.
Qed.

Lemma cleanupStyles_own_styles_witness :
  styles (cleanupStyles "x" page_with_x) !! "x" = None.
Proof.
  refine (proj1 (proj2 (cleanupStyles_own_styles "x" page_with_x _))).
  constructor.
  - repeat constructor.
  - cbn. repeat constructor. intros [].
  - intros k l e Hl Hin. unfold page_with_x in *. cbn [styles headChildren] in *.
    apply lookup_singleton_Some in Hl as [<- <-]. destruct Hin as [<-|[]].
    split; [left; reflexivity | reflexivity].
Defined.

(** ** [cleanup] *)

Lemma filter_filter_and {A} (f g : A -> bool) l :
  List.filter f (List.filter g l) = List.filter (fun x => g x && f x) l.
Proof.
  induction l as [|x l IH]; [reflexivity|]. cbn [List.filter].
  destruct (g x); cbn [andb List.filter]; [destruct (f x)|]; rewrite IH; reflexivity.
Qed.

(** The loop of [cleanup] over the scope ids of [visited]: the entries
    visited are gone, and the head has lost the elements with the
    identity of a style recorded for a visited scope id. *)
Lemma cleanup_fold page (visited : gmap string (list StyleElement)) :
  let page' := map_fold (fun scopeId _ p => cleanupStyles scopeId p) page visited in
  nextNode page' = nextNode page
  /\ styles page' = styles page ∖ visited
  /\ (exists keep, headChildren page' = List.filter keep (headChildren page))
  /\ (forall e, In e (headChildren page')
                <-> In e (headChildren page)
                    /\ forall k x, visited !! k = Some x ->
                         existsb (Nat.eqb (node e)) (map node (recorded k page)) = false).
Proof.
  cbv zeta.
  apply (map_fold_weak_ind
           (fun page' visited =>
              nextNode page' = nextNode page
              /\ styles page' = styles page ∖ visited
              /\ (exists keep, headChildren page' = List.filter keep (headChildren page))
              /\ (forall e, In e (headChildren page')
                    <-> In e (headChildren page)
                        /\ forall k x, visited !! k = Some x ->
                             existsb (Nat.eqb (node e)) (map node (recorded k page)) = false))).
  - split; [reflexivity|]. split; [symmetry; apply map_difference_empty|].
    split; [exists (fun _ => true); symmetry; apply filter_all_true; reflexivity|].
    intros e. split; [intros H; split; [exact H|] | tauto].
    intros k x Hk. rewrite lookup_empty in Hk. discriminate.
  - intros i x m r Hi (Hnext & Hst & [keep Hkeep] & Hhead).
    assert (Hrec : recorded i r = recorded i page).
    { unfold recorded. rewrite Hst, lookup_difference, Hi. reflexivity. }
    split; [rewrite cleanupStyles_nextNode; exact Hnext|].
    split; [rewrite cleanupStyles_styles, Hst; apply delete_difference|].
    split.
    { eexists. rewrite cleanupStyles_head, Hkeep, filter_filter_and. reflexivity. }
    intros e. rewrite cleanupStyles_head, List.filter_In, Hhead, Hrec. split.
    + intros [[He Hm] Hf]. split; [exact He|]. intros k y Hk.
      apply lookup_insert_Some in Hk as [[<- _] | [_ Hk]].
      * apply negb_true_iff. exact Hf.
      * exact (Hm k y Hk).
    + intros [He Hm]. split; [split; [exact He|]|].
      * intros k y Hk. apply (Hm k y). rewrite lookup_insert_ne; [exact Hk|].
        intros <-. rewrite Hi in Hk. discriminate.
      * apply negb_true_iff. apply (Hm i x). apply lookup_insert_eq.
Qed.

(** The same loop over the scope ids of a list, in the order of the
    list, from a page [p] that the scope ids of [visited] were cleaned off
    the page [page]. *)
Lemma cleanup_order page order : forall visited p,
  (nextNode p = nextNode page
   /\ (forall k, In k visited -> styles p !! k = None)
   /\ (forall k, ~ In k visited -> styles p !! k = styles page !! k)
   /\ (exists keep, headChildren p = List.filter keep (headChildren page))
   /\ (forall e, In e (headChildren p)
                 <-> In e (headChildren page)
                     /\ forall k, In k visited ->
                          existsb (Nat.eqb (node e)) (map node (recorded k page)) = false)) ->
  let p' := fold_left (fun p k => cleanupStyles k p) order p in
  nextNode p' = nextNode page
  /\ (forall k, In k (visited ++ order) -> styles p' !! k = None)
  /\ (forall k, ~ In k (visited ++ order) -> styles p' !! k = styles page !! k)
  /\ (exists keep, headChildren p' = List.filter keep (headChildren page))
  /\ (forall e, In e (headChildren p')
                <-> In e (headChildren page)
                    /\ forall k, In k (visited ++ order) ->
                         existsb (Nat.eqb (node e)) (map node (recorded k page)) = false).
Proof.
  induction order as [|k order IH]; intros visited p Hinv; cbv zeta.
  - cbn [fold_left]. rewrite app_nil_r. exact Hinv.
  - cbn [fold_left].
    replace (visited ++ k :: order) with ((visited ++ [k]) ++ order)
      by (rewrite <- app_assoc; reflexivity).
    apply IH. clear IH.
    destruct Hinv as (Hnext & Hgone & Hkept & [keep Hkeep] & Hhead).
    assert (Hrec : forall e,
              existsb (Nat.eqb (node e)) (map node (recorded k p)) = false
              <-> (In k visited \/ existsb (Nat.eqb (node e)) (map node (recorded k page)) = false)).
    { intros e. unfold recorded.
      destruct (in_dec String.string_dec k visited) as [Hin|Hout].
      - rewrite (Hgone k Hin). cbn. tauto.
      - rewrite (Hkept k Hout). tauto. }
    split; [rewrite cleanupStyles_nextNode; exact Hnext|].
    split.
    { intros j Hj. rewrite cleanupStyles_styles.
      apply in_app_iff in Hj as [Hj | [<-|[]]].
      - destruct (String.string_dec k j) as [->|Hne]; [apply lookup_delete_eq|].
        rewrite lookup_delete_ne by exact Hne. exact (Hgone j Hj).
      - apply lookup_delete_eq. }
    split.
    { intros j Hj. rewrite cleanupStyles_styles.
      assert (Hne : k <> j) by (intros ->; apply Hj, in_app_iff; right; left; reflexivity).
      rewrite lookup_delete_ne by exact Hne. apply Hkept.
      intros Hin. apply Hj, in_app_iff. left. exact Hin. }
    split.
    { eexists. rewrite cleanupStyles_head, Hkeep, filter_filter_and. reflexivity. }
    intros e. rewrite cleanupStyles_head, List.filter_In, Hhead, negb_true_iff, Hrec. split.
    + intros [[He Hm] Hk]. split; [exact He|]. intros j Hj.
      apply in_app_iff in Hj as [Hj | [<-|[]]]; [exact (Hm j Hj)|].
      destruct Hk as [Hk|Hk]; [exact (Hm k Hk) | exact Hk].
    + intros [He Hm]. split; [split; [exact He|]|].
      * intros j Hj. apply Hm, in_app_iff. left. exact Hj.
      * right. apply Hm, in_app_iff. right. left. reflexivity.
Qed.

Lemma filter_same {A} (f g : A -> bool) l :
  (forall x, In x (List.filter f l) <-> In x (List.filter g l)) ->
  List.filter f l = List.filter g l.
Proof.
  intros H. apply List.filter_ext_in. intros x Hx.
  specialize (H x). rewrite !List.filter_In in H.
  destruct (f x), (g x); try reflexivity.
  - destruct H as [H _]. destruct (H (conj Hx eq_refl)) as [_ H']. discriminate H'.
  - destruct H as [_ H]. destruct (H (conj Hx eq_refl)) as [_ H']. discriminate H'.
Qed.

(** X21: After [cleanup] the cache, the loading states and the map of styles
    are empty; on a page of the loader the head has lost every recorded
    style and nothing else, and the page is again a page of the loader.
    [clearCache], which it calls, answers the number of cached
    components.  The order in which the scope ids are visited plays no
    part: cleaning up the scope ids of any list that names every entry of
    the map gives the same head and the same map. *)
Theorem cleanup_all ld page :
  PageOk page ->
  fst (clearCache ld) = size (components ld)
  /\ components (fst (cleanup ld page)) = ∅
  /\ loadingStates (fst (cleanup ld page)) = ∅
  /\ trace (fst (cleanup ld page)) = trace ld
  /\ styles (snd (cleanup ld page)) = ∅
  /\ (forall e, In e (headChildren (snd (cleanup ld page)))
                <-> In e (headChildren page)
                    /\ forall scopeId, ~ In e (recorded scopeId page))
  /\ PageOk (snd (cleanup ld page))
  /\ (forall order,
        (forall scopeId, styles page !! scopeId <> None -> In scopeId order) ->
        let page' := fold_left (fun p scopeId => cleanupStyles scopeId p) order page in
        headChildren page' = headChildren (snd (cleanup ld page))
        /\ styles page' = styles (snd (cleanup ld page))).
Proof.
  intros Hok. unfold cleanup, clearCache. cbn [fst snd components loadingStates trace].
  destruct (cleanup_fold page (styles page)) as (Hnext & Hst & [keep Hkeep] & Hhead).
  cbv zeta in Hnext, Hst, Hkeep, Hhead.
  set (page' := map_fold _ page (styles page)) in *.
  rewrite map_difference_diag in Hst.
  split; [reflexivity|]. split; [reflexivity|]. split; [reflexivity|].
  split; [reflexivity|]. split; [exact Hst|]. split; [|split].
  - intros e. rewrite Hhead. split.
    + intros [He Hm]. split; [exact He|]. intros scopeId Hin.
      pose proof Hin as Hin'. unfold recorded in Hin'.
      destruct (styles page !! scopeId) as [l|] eqn:El; [|contradiction].
      apply (recorded_by_node page scopeId e Hok He) in Hin.
      rewrite (Hm scopeId l El) in Hin. discriminate.
    + intros [He Hn]. split; [exact He|]. intros k x Hk.
      apply not_true_iff_false. intros Hex.
      apply (Hn k). apply (recorded_by_node page k e Hok He). exact Hex.
  - constructor.
    + rewrite Hkeep, Hnext. apply Forall_filter_keep. exact (ok_fresh page Hok).
    + rewrite Hkeep. apply NoDup_node_filter. exact (ok_nodup page Hok).
    + intros k l e Hl. rewrite Hst, lookup_empty in Hl. discriminate.
  - intros order Hcover. cbv zeta.
    destruct (cleanup_order page order [] page) as (_ & Hgone & Hkept & [keep' Hkeep'] & Hhead').
    { split; [reflexivity|]. split; [intros k []|]. split; [reflexivity|].
      split; [exists (fun _ => true); symmetry; apply filter_all_true; reflexivity|].
      intros e. split; [intros H; split; [exact H | intros k []] | tauto]. }
    cbv zeta in Hgone, Hkept, Hkeep', Hhead'. cbn [app] in Hgone, Hkept, Hhead'.
    set (p := fold_left _ order page) in *. split.
    + rewrite Hkeep, Hkeep'. apply filter_same. intros e.
      rewrite <- Hkeep, <- Hkeep', Hhead, Hhead'. split.
      * intros [He Hm]. split; [exact He|]. intros k x Hk. apply (Hm k).
        apply Hcover. rewrite Hk. discriminate.
      * intros [He Hm]. split; [exact He|]. intros k Hk.
        destruct (styles page !! k) as [l|] eqn:El; [exact (Hm k l El)|].
        unfold recorded. rewrite El. reflexivity.
    + rewrite Hst. apply map_eq. intros k. rewrite lookup_empty.
      destruct (in_dec String.string_dec k order) as [Hin|Hout]; [exact (Hgone k Hin)|].
      rewrite (Hkept k Hout).
      destruct (styles page !! k) eqn:El; [|reflexivity].
      exfalso. apply Hout, Hcover. rewrite El. discriminate.
Qed.

Lemma cleanup_all_witness :
  styles (snd (cleanup fresh_loader (snd (injectStyles ".a{}" "x" emptyPage)))) = ∅.
Proof.
  refine (proj1 (proj2 (proj2 (proj2 (proj2
            (cleanup_all fresh_loader (snd (injectStyles ".a{}" "x" emptyPage)) _)))))).
  apply PageOk_injectStyles.
  constructor; cbn [emptyPage headChildren styles map]; [constructor | constructor|].
  intros k l e Hl. rewrite lookup_empty in Hl. discriminate.
Defined.

(** * Fetching and loading *)

Lemma retryLoop_attempts (network : nat -> string -> Thrown + ComponentData)
    cfg name left : forall i last tr,
  (i + left = S (retryCount cfg))%nat -> (1 <= left)%nat ->
  exists k,
    (k < left)%nat
    /\ snd (retryLoop network cfg name left i last tr)
       = tr ++ failedAttempts (retryDelay cfg) name i k ++ [Fetch name]
    /\ (forall j, (j < k)%nat -> exists e, network (fetches tr + j)%nat name = inl e)
    /\ match network (fetches tr + k)%nat name with
       | inr data => fst (retryLoop network cfg name left i last tr) = inr data
       | inl e =>
           S k = left
           /\ fst (retryLoop network cfg name left i last tr) = inl (Some e)
       end.
Proof.
  induction left as [|left IH]; intros i last tr Hi Hleft; [lia|].
  cbn [retryLoop]. unfold fetchComponent.
  destruct (network (fetches tr) name) as [e|data] eqn:Hnet.
  - destruct left as [|left'].
    + assert (Hlt : (i <? retryCount cfg)%nat = false) by (apply Nat.ltb_ge; lia).
      rewrite Hlt. cbn [retryLoop fst snd].
      exists O. split; [lia|]. split; [reflexivity|].
      split; [intros j Hj; lia|].
      rewrite Nat.add_0_r, Hnet. split; reflexivity.
    + assert (Hlt : (i <? retryCount cfg)%nat = true) by (apply Nat.ltb_lt; lia).
      rewrite Hlt.
      set (tr2 := delay (retryDelay cfg * (Z.of_nat i + 1)) (tr ++ [Fetch name])).
      destruct (IH (S i) (Some e) tr2 ltac:(lia) ltac:(lia))
        as (k & Hk & Htrace & Hfails & Hlast).
      assert (Hn : fetches tr2 = S (fetches tr)).
      { subst tr2. unfold delay. rewrite !fetches_app. cbn. lia. }
      exists (S k). split; [lia|]. split; [|split].
      * rewrite Htrace. subst tr2. unfold delay. cbn [failedAttempts].
        rewrite <- !app_assoc. reflexivity.
      * intros [|j] Hj; [rewrite Nat.add_0_r; eauto|].
        destruct (Hfails j ltac:(lia)) as [e' He']. exists e'.
        rewrite <- He'. f_equal. lia.
      * replace (fetches tr + S k)%nat with (fetches tr2 + k)%nat by lia.
        destruct (network (fetches tr2 + k)%nat name); [|exact Hlast].
        destruct Hlast as [Hk' Hres]. split; [lia | exact Hres].
  - cbn [fst snd]. exists O. split; [lia|]. split; [reflexivity|].
    split; [intros j Hj; lia|]. rewrite Nat.add_0_r, Hnet. reflexivity.
Qed.

Lemma failedAttempts_exact retryDelay name bound : forall k i,
  exactNumber (retryDelay * Z.of_nat bound) -> (i + k <= bound)%nat ->
  Forall exactWait (failedAttempts retryDelay name i k).
Proof.
  unfold exactNumber. induction k as [|k IH]; intros i Hbound Hik; cbn [failedAttempts].
  - constructor.
  - constructor; [exact I|]. constructor; [|apply IH; [exact Hbound | lia]].
    cbn [exactWait]. unfold exactNumber. rewrite Z.abs_mul in *.
    rewrite (Z.abs_eq (Z.of_nat bound)) in Hbound by lia.
    rewrite (Z.abs_eq (Z.of_nat i + 1)) by lia.
    pose proof (Z.abs_nonneg retryDelay). nia.
Qed.

(** X22: with a configuration whose loop counter, which goes up to
    [retryCount + 1], and whose products [retryDelay * (i + 1)] are whole
    numbers up to [2^53] in absolute value, where the arithmetic of the
    code is exact,
    [fetchComponentWithRetry] fetches until a fetch succeeds or
    [retryCount] retries are used up: it makes [k + 1] fetches for some
    [k] up to [retryCount], the first [k] of them failed and each was
    followed by a wait of [retryDelay] times its number, a whole number
    in that range; it returns what the last fetch returned, or throws the
    error of the last fetch after [retryCount] retries.  No wait follows
    the last fetch. *)
Theorem fetchComponentWithRetry_attempts
    (network : nat -> string -> Thrown + ComponentData) cfg name tr :
  exactDelays cfg ->
  exists k,
    (k <= retryCount cfg)%nat
    /\ snd (fetchComponentWithRetry network cfg name tr)
       = tr ++ failedAttempts (retryDelay cfg) name 0 k ++ [Fetch name]
    /\ Forall exactWait (failedAttempts (retryDelay cfg) name 0 k)
    /\ (forall j, (j < k)%nat -> exists e, network (fetches tr + j)%nat name = inl e)
    /\ match network (fetches tr + k)%nat name with
       | inr data => fst (fetchComponentWithRetry network cfg name tr) = inr data
       | inl e =>
           k = retryCount cfg
           /\ fst (fetchComponentWithRetry network cfg name tr) = inl (Some e)
       end.
Proof.
  intros [_ Hexact]. unfold fetchComponentWithRetry.
  destruct (retryLoop_attempts network cfg name (S (retryCount cfg)) 0 None tr ltac:(lia) ltac:(lia))
    as (k & Hk & Htrace & Hfails & Hlast).
  exists k. split; [lia|]. split; [exact Htrace|].
  split; [apply (failedAttempts_exact _ _ (retryCount cfg)); [exact Hexact | lia]|].
  split; [exact Hfails|].
  destruct (network (fetches tr + k)%nat name); [|exact Hlast].
  destruct Hlast as [Hk' Hres]. split; [lia | exact Hres].
Qed.

Lemma fetchComponentWithRetry_attempts_witness :
  exists k,
    (k <= 2)%nat
    /\ snd (fetchComponentWithRetry flaky_network defaultConfig "header" [])
       = [] ++ failedAttempts 1000 "header" 0 k ++ [Fetch "header"]
    /\ Forall exactWait (failedAttempts 1000 "header" 0 k).
Proof.
  assert (Hexact : exactDelays defaultConfig).
  { split; unfold exactNumber; cbn; lia. }
  destruct (fetchComponentWithRetry_attempts flaky_network defaultConfig "header" [] Hexact)
    as (k & Hk & Htrace & Hwaits & _).
  exists k. split; [exact Hk|]. split; [exact Htrace | exact Hwaits].
Defined.

(** ** [loadComponent] and the cache *)

(** X23: With the cache on and the component in it, [loadComponent] does not
    go to the network: the trace and the cache stay as they were, and the
    cached text is what is rendered. *)
Theorem loadComponent_cache_hit
    (network : nat -> string -> Thrown + ComponentData)
    (renderComponent : Element -> ComponentData -> string -> option Thrown * Element)
    (errorHTML : string -> option Thrown -> string)
    cfg loadId name el retry ld data :
  cache cfg = true ->
  components ld !! name = Some data ->
  let el0 := set_data "loadId" loadId (set_data "loading" "true" el) in
  let '(outcome, el', ld') :=
    loadComponent network renderComponent errorHTML cfg loadId name el retry ld in
  trace ld' = trace ld
  /\ components ld' = components ld
  /\ outcome = match fst (renderComponent el0 data name) with
               | None => Returned
               | Some error =>
                   if String.eqb (errorHandling cfg) "graceful" then Returned
                   else Rejected (Some error)
               end.
Proof.
  intros Hcache Hhit el0. unfold loadComponent, loadAndRender.
  cbn [components trace loadingStates]. rewrite Hcache, Hhit. fold el0.
  destruct (renderComponent el0 data name) as [[error|] el1]; cbn [fst].
  - destruct (String.eqb (errorHandling cfg) "graceful"); cbn [trace components]; auto.
  - cbn [trace components]. auto.
Qed.

Lemma loadComponent_cache_hit_witness :
  trace (snd (loadComponent dead_network no_render no_panel defaultConfig
                "header-1-abc" "header" placeholder 0 loader_with_header))
  = [].
Proof.
  pose proof (loadComponent_cache_hit dead_network no_render no_panel defaultConfig
                "header-1-abc" "header" placeholder 0 loader_with_header header_data
                eq_refl eq_refl) as H.
  cbv zeta in H.
  destruct (loadComponent _ _ _ _ _ _ _ _ _) as [[outcome el'] ld'].
  exact (proj1 H).
Defined.

(** What [loadAndRender] does to the maps of the loader. *)
Lemma loadAndRender_loader
    (network : nat -> string -> Thrown + ComponentData)
    (renderComponent : Element -> ComponentData -> string -> option Thrown * Element)
    cfg name el ld :
  let fetched := fetchComponentWithRetry network cfg name (trace ld) in
  let ld1 := snd (loadAndRender network renderComponent cfg name el ld) in
  loadingStates ld1 = loadingStates ld
  /\ match (if cache cfg then components ld !! name else None) with
     | Some _ => components ld1 = components ld /\ trace ld1 = trace ld
     | None =>
         trace ld1 = snd fetched
         /\ components ld1
            = match fst fetched with
              | inr data => if cache cfg then <[name := data]> (components ld)
                            else components ld
              | inl _ => components ld
              end
     end.
Proof.
  cbv zeta. unfold loadAndRender.
  destruct (if cache cfg then components ld !! name else None) as [data|].
  - destruct (renderComponent el data name) as [[error|] el1]; cbn [snd]; auto.
  - destruct (fetchComponentWithRetry network cfg name (trace ld)) as [[error|data] tr1];
      cbn [fst snd].
    + auto.
    + destruct (renderComponent el data name) as [[error|] el1]; cbn [snd]; auto.
Qed.

Lemma loadComponent_loader
    (network : nat -> string -> Thrown + ComponentData)
    (renderComponent : Element -> ComponentData -> string -> option Thrown * Element)
    (errorHTML : string -> option Thrown -> string)
    cfg loadId name el retry ld :
  let el0 := set_data "loadId" loadId (set_data "loading" "true" el) in
  let ld0 := mkLoader (components ld)
               (<[loadId := mkLoading name retry None]> (loadingStates ld)) (trace ld) in
  let ld1 := snd (loadAndRender network renderComponent cfg name el0 ld0) in
  let ld' := snd (loadComponent network renderComponent errorHTML cfg loadId name el retry ld) in
  components ld' = components ld1 /\ trace ld' = trace ld1.
Proof.
  cbv zeta. unfold loadComponent.
  destruct (loadAndRender _ _ _ _ _ _) as [[[error|] el1] ld1]; cbn [snd].
  - destruct (String.eqb (errorHandling cfg) "graceful"); cbn [snd components trace]; auto.
  - cbn [components trace]. auto.
Qed.

(** X24: [loadComponent] writes to the cache only under the name of the
    component, only when the cache is on, and only the text that a fetch
    returned: the other entries stay, a failed fetch leaves the cache as
    it was, and after a fetch that succeeded the cache holds the text,
    whether rendering then throws or not. *)
Theorem loadComponent_cache
    (network : nat -> string -> Thrown + ComponentData)
    (renderComponent : Element -> ComponentData -> string -> option Thrown * Element)
    (errorHTML : string -> option Thrown -> string)
    cfg loadId name el retry ld :
  let fetched := fst (fetchComponentWithRetry network cfg name (trace ld)) in
  let ld' := snd (loadComponent network renderComponent errorHTML cfg loadId name el retry ld) in
  (forall other, other <> name -> components ld' !! other = components ld !! other)
  /\ (cache cfg = false -> components ld' = components ld)
  /\ (forall error, fetched = inl error -> components ld' = components ld)
  /\ (forall data,
        cache cfg = true -> components ld !! name = None -> fetched = inr data ->
        components ld' !! name = Some data).
Proof.
  cbv zeta.
  destruct (loadComponent_loader network renderComponent errorHTML cfg loadId name el retry ld)
    as [Hc _]. cbv zeta in Hc. rewrite Hc. clear Hc.
  match goal with
  | |- context [loadAndRender network renderComponent cfg name ?e ?l] =>
      destruct (loadAndRender_loader network renderComponent cfg name e l) as [_ H]
  end.
  cbv zeta in H. cbn [components trace] in H.
  set (ld1 := snd (loadAndRender _ _ _ _ _ _)) in *.
  destruct (cache cfg) eqn:Hcache.
  - destruct (components ld !! name) as [cached|] eqn:Hhit.
    + destruct H as [H _]. rewrite H.
      split; [reflexivity|]. split; [discriminate|]. split; [reflexivity|]. discriminate.
    + destruct H as [_ H]. rewrite H.
      destruct (fst (fetchComponentWithRetry network cfg name (trace ld))) as [error|data].
      * split; [reflexivity|]. split; [discriminate|]. split; [reflexivity|]. discriminate.
      * split; [intros other Hne; apply lookup_insert_ne; congruence|].
        split; [discriminate|]. split; [discriminate|].
        intros data' _ _ [= <-]. apply lookup_insert_eq.
  - destruct H as [_ H]. rewrite H.
    destruct (fst (fetchComponentWithRetry network cfg name (trace ld))) as [error|data];
      (split; [reflexivity|]; split; [reflexivity|]; split; [reflexivity|]; discriminate).
Qed.

Lemma loadComponent_cache_witness :
  components (snd (loadComponent dead_network no_render no_panel defaultConfig
                     "header-1-abc" "header" placeholder 0 fresh_loader))
  = components fresh_loader.
Proof.
  apply (proj1 (proj2 (proj2
           (loadComponent_cache dead_network no_render no_panel defaultConfig
              "header-1-abc" "header" placeholder 0 fresh_loader)))
         (Some not_found)).
  reflexivity.
Defined.

(** ** The marks that [loadComponent] leaves *)

Lemma loadAndRender_states
    (network : nat -> string -> Thrown + ComponentData)
    (renderComponent : Element -> ComponentData -> string -> option Thrown * Element)
    cfg name el ld :
  loadingStates (snd (loadAndRender network renderComponent cfg name el ld))
  = loadingStates ld.
Proof. apply (loadAndRender_loader network renderComponent cfg name el ld). Qed.

(** X25: However the fetch and the rendering end, [loadComponent] leaves the
    placeholder with [loading] set to [false] and in one of two states.
    After a load without error: [loaded] is [true], [error] and [loadId]
    are gone, and the loading state of this load is forgotten.  After a
    load that threw: [loaded] is [false], [error] is [true],
    [errorMessage] is the message, and the loading state of this load
    stays in the map with the error in it; the method returns under the
    graceful policy, with [loadId] gone, and rejects with the error
    otherwise. *)
Theorem loadComponent_marks
    (network : nat -> string -> Thrown + ComponentData)
    (renderComponent : Element -> ComponentData -> string -> option Thrown * Element)
    (errorHTML : string -> option Thrown -> string)
    cfg loadId name el retry ld :
  let '(outcome, el', ld') :=
    loadComponent network renderComponent errorHTML cfg loadId name el retry ld in
  dataset el' !! "loading" = Some "false"
  /\ ((outcome = Returned
       /\ dataset el' !! "loaded" = Some "true"
       /\ dataset el' !! "error" = None
       /\ dataset el' !! "loadId" = None
       /\ loadingStates ld' !! loadId = None)
      \/ exists error,
           dataset el' !! "loaded" = Some "false"
           /\ dataset el' !! "error" = Some "true"
           /\ dataset el' !! "errorMessage" = Some (message_of error)
           /\ loadingStates ld' !! loadId = Some (mkLoading name retry (Some error))
           /\ (if String.eqb (errorHandling cfg) "graceful"
               then outcome = Returned /\ dataset el' !! "loadId" = None
               else outcome = Rejected error)).
Proof.
  unfold loadComponent.
  match goal with
  | |- context [loadAndRender network renderComponent cfg name ?e ?l] =>
      pose proof (loadAndRender_states network renderComponent cfg name e l) as Hst;
      destruct (loadAndRender network renderComponent cfg name e l) as [[[error|] el1] ld1]
  end; cbn [snd loadingStates] in Hst.
  - assert (Hl : loadingStates ld1 !! loadId = Some (mkLoading name retry None))
      by (rewrite Hst; apply lookup_insert_eq).
    rewrite Hl. cbn [ls_name ls_retryCount].
    destruct (String.eqb (errorHandling cfg) "graceful").
    + split.
      * unfold delete_data, set_data, renderError. cbn [dataset innerHTML].
        destruct (_ !! "errorRendered") as [v|]; [destruct (JS.isEmpty v)|];
          cbn [dataset innerHTML]; simplify_map_eq; reflexivity.
      * right. exists error. cbn [loadingStates].
        unfold delete_data, set_data, renderError. cbn [dataset innerHTML].
        destruct (_ !! "errorRendered") as [v|]; [destruct (JS.isEmpty v)|];
          cbn [dataset innerHTML]; repeat split; simplify_map_eq; reflexivity.
    + split; [unfold set_data; cbn [dataset]; simplify_map_eq; reflexivity|].
      right. exists error. cbn [loadingStates]. unfold set_data. cbn [dataset].
      repeat split; simplify_map_eq; reflexivity.
  - split; [unfold delete_data, set_data; cbn [dataset]; simplify_map_eq; reflexivity|].
    left. cbn [loadingStates]. unfold delete_data, set_data. cbn [dataset].
    repeat split; simplify_map_eq; reflexivity.
Qed.

(** ** The error panel *)

(** X26: When the fetch fails under the graceful policy, [loadComponent] draws
    the error panel unless the placeholder is already marked by
    [errorRendered], in which case the content of the placeholder stays
    as it is; either way it leaves the placeholder marked, so that a
    later failing load does not draw the panel again. *)
Theorem error_panel_once
    (network : nat -> string -> Thrown + ComponentData)
    (renderComponent : Element -> ComponentData -> string -> option Thrown * Element)
    (errorHTML : string -> option Thrown -> string)
    cfg loadId name el retry ld error :
  String.eqb (errorHandling cfg) "graceful" = true ->
  (if cache cfg then components ld !! name else None) = None ->
  fst (fetchComponentWithRetry network cfg name (trace ld)) = inl error ->
  let el' :=
    snd (fst (loadComponent network renderComponent errorHTML cfg loadId name el retry ld)) in
  innerHTML el' = (if errorRendered el then innerHTML el else errorHTML name error)
  /\ errorRendered el' = true.
Proof.
  intros Hgraceful Hmiss Hfail. cbv zeta.
  unfold loadComponent, loadAndRender. cbn [components trace loadingStates].
  rewrite Hmiss.
  destruct (fetchComponentWithRetry network cfg name (trace ld)) as [fetched tr1].
  cbn [fst] in Hfail. subst fetched. cbn [loadingStates].
  rewrite lookup_insert_eq, Hgraceful. cbn [fst snd].
  unfold errorRendered, delete_data, set_data, renderError. cbn [dataset innerHTML].
  rewrite !lookup_insert_ne by discriminate.
  destruct (dataset el !! "errorRendered") as [v|] eqn:Ev.
  - destruct (JS.isEmpty v) eqn:Hv; cbn [dataset innerHTML negb].
    + split; [reflexivity|]. simplify_map_eq. reflexivity.
    + split; [reflexivity|]. simplify_map_eq. rewrite Hv. reflexivity.
  - cbn [dataset innerHTML]. split; [reflexivity|]. simplify_map_eq. reflexivity.
Qed.

Lemma error_panel_once_witness :
  let el' :=
    snd (fst (loadComponent dead_network no_render no_panel defaultConfig
                "header-1-abc" "header" placeholder 0 fresh_loader)) in
  innerHTML el'
  = (if errorRendered placeholder then innerHTML placeholder
     else no_panel "header" (Some not_found))
  /\ errorRendered el' = true.
Proof.
  apply (error_panel_once dead_network no_render no_panel defaultConfig
           "header-1-abc" "header" placeholder 0 fresh_loader (Some not_found));
    reflexivity.
Defined.

(** ** [log] *)

Lemma arrayIndexOf_lower x array : forall i, 0 <= i -> -1 <= arrayIndexOf x array i.
Proof.
  induction array as [|y array IH]; intros i Hi; cbn [arrayIndexOf]; [lia|].
  destruct (String.eqb y x); [lia | apply IH; lia].
Qed.

Lemma arrayIndexOf_absent x array : forall i,
  ~ In x array -> arrayIndexOf x array i = -1.
Proof.
  induction array as [|y array IH]; intros i Hx; cbn [arrayIndexOf]; [reflexivity|].
  destruct (String.eqb_spec y x) as [->|Hne]; [exfalso; apply Hx; left; reflexivity|].
  apply IH. intros Hin. apply Hx. right. exact Hin.
Qed.

Lemma arrayIndexOf_present x array : forall i,
  0 <= i -> In x array -> 0 <= arrayIndexOf x array i.
Proof.
  induction array as [|y array IH]; intros i Hi Hx; [contradiction|]. cbn [arrayIndexOf].
  destruct (String.eqb_spec y x) as [->|Hne]; [exact Hi|].
  destruct Hx as [Hx|Hx]; [contradiction|]. apply IH; [lia | exact Hx].
Qed.

(** X27: [log] writes every message whose type is none of the four levels,
    [success] among them, whatever [logLevel] is configured; and when the
    configured [logLevel] is none of the four levels, it writes no
    message of the four levels, errors included. *)
Theorem log_outside_levels logLevel message type console :
  (~ In type logLevels ->
     log logLevel message type console = console ++ [(type, message)])
  /\ (~ In logLevel logLevels -> In type logLevels ->
      log logLevel message type console = console).
Proof.
  unfold log. split.
  - intros Ht. rewrite (arrayIndexOf_absent type) by exact Ht.
    pose proof (arrayIndexOf_lower logLevel logLevels 0 ltac:(lia)) as Hl.
    destruct (-1 <=? _) eqn:E; [reflexivity|]. apply Z.leb_gt in E. lia.
  - intros Hl Ht. rewrite (arrayIndexOf_absent logLevel) by exact Hl.
    pose proof (arrayIndexOf_present type logLevels 0 ltac:(lia) Ht) as Hp.
    destruct (_ <=? -1) eqn:E; [|reflexivity]. apply Z.leb_le in E. lia.
Qed.

Lemma log_outside_levels_witness :
  log "error" "loaded" "success" [] = [("success", "loaded")]
  /\ log "verbose" "failed" "error" [] = [].
Proof.
  split.
  - apply (proj1 (log_outside_levels "error" "loaded" "success" [])).
    cbn. intros [H|[H|[H|[H|[]]]]]; discriminate H.
  - apply (proj2 (log_outside_levels "verbose" "failed" "error" [])).
    + cbn. intros [H|[H|[H|[H|[]]]]]; discriminate H.
    + left. reflexivity.
Defined.

(** ** [retryComponent] *)

(** X28: [retryComponent] clears the marks of the error before it loads
    again: when the fetch fails once more under the graceful policy, the
    error panel is drawn anew with the new error, whether the placeholder
    was marked by [errorRendered] or not. *)
Theorem retryComponent_redraws
    (network : nat -> string -> Thrown + ComponentData)
    (renderComponent : Element -> ComponentData -> string -> option Thrown * Element)
    (errorHTML : string -> option Thrown -> string)
    cfg loadId name el ld error :
  dataset el !! "errorComponent" = Some name ->
  JS.isEmpty name = false ->
  String.eqb (errorHandling cfg) "graceful" = true ->
  (if cache cfg then components ld !! name else None) = None ->
  fst (fetchComponentWithRetry network cfg name (trace ld)) = inl error ->
  exists outcome el' ld',
    retryComponent network renderComponent errorHTML cfg loadId el ld
    = Some (outcome, el', ld')
    /\ outcome = Returned
    /\ innerHTML el' = errorHTML name error
    /\ dataset el' !! "errorRendered" = Some "true"
    /\ dataset el' !! "errorMessage" = Some (message_of error)
    /\ dataset el' !! "error" = Some "true".
Proof.
  intros Hname Hne Hgraceful Hmiss Hfail. unfold retryComponent.
  rewrite Hname, Hne.
  unfold loadComponent, loadAndRender. cbn [components trace loadingStates].
  rewrite Hmiss.
  destruct (fetchComponentWithRetry network cfg name (trace ld)) as [fetched tr1].
  cbn [fst] in Hfail. subst fetched. cbn [loadingStates].
  rewrite lookup_insert_eq, Hgraceful.
  unfold delete_data, set_data, renderError. cbn [dataset innerHTML].
  eexists _, _, _. split; [reflexivity|]. split; [reflexivity|].
  rewrite !lookup_insert_ne by discriminate.
  rewrite lookup_delete_ne by discriminate. rewrite lookup_delete_eq.
  cbn [dataset innerHTML]. repeat split; simplify_map_eq; reflexivity.
Qed.

Lemma retryComponent_redraws_witness :
  exists outcome el' ld',
    retryComponent dead_network no_render no_panel defaultConfig "header-2-abc"
      (mkElement {[ "errorComponent" := "header"; "errorRendered" := "true" ]} "old panel")
      fresh_loader
    = Some (outcome, el', ld')
    /\ outcome = Returned
    /\ innerHTML el' = no_panel "header" (Some not_found)
    /\ dataset el' !! "errorRendered" = Some "true"
    /\ dataset el' !! "errorMessage" = Some (message_of (Some not_found))
    /\ dataset el' !! "error" = Some "true".
Proof.
  apply (retryComponent_redraws dead_network no_render no_panel defaultConfig "header-2-abc"
           "header"
           (mkElement {[ "errorComponent" := "header"; "errorRendered" := "true" ]} "old panel")
           fresh_loader (Some not_found)); reflexivity.
Defined.

(** ** [getStatus] *)

Lemma statusStep_inv cached acc el name :
  dataset el !! "component" = Some name ->
  statusInv cached acc ->
  statusInv cached (statusStep acc el)
  /\ fst (statusStep acc el) = fst acc ∪ {[ name ]}.
Proof.
  destruct acc as [seen status]. intros Hname Hinv. unfold statusStep.
  rewrite Hname. change (default EmptyString (Some name)) with name.
  destruct (decide (name ∈ seen)) as [Hin|Hnew].
  - split; [exact Hinv|]. cbn [fst]. symmetry. rewrite (comm_L (∪)).
    apply subseteq_union_1_L. apply singleton_subseteq_l. exact Hin.
  - split; [|reflexivity].
    destruct Hinv as (Htotal & Hlen & Hnd & Hseen & Hl & Hg & He & Hc).
    cbn [statusInv s_total s_loaded s_loading s_error s_cached s_details].
    split; [rewrite size_union by (apply disjoint_singleton_r; exact Hnew);
            rewrite size_singleton; lia|].
    split; [rewrite length_app; cbn [length]; lia|].
    split.
    { rewrite map_app. apply List.NoDup_app; [exact Hnd | |].
      - cbn [map]. constructor; [intros [] | constructor].
      - intros n Hn [<-|[]]. apply Hnew. apply Hseen. exact Hn. }
    split.
    { intros n Hn. rewrite map_app in Hn. apply in_app_iff in Hn as [Hn | [<-|[]]].
      - apply elem_of_union_l. apply Hseen. exact Hn.
      - cbn [d_name]. apply elem_of_union_r, elem_of_singleton. reflexivity. }
    repeat split; try exact Hc;
      match goal with |- context [if ?b then _ else _] => destruct b end; lia.
Qed.

Lemma statusLoop_inv cached document : forall acc,
  statusInv cached acc ->
  statusInv cached (fold_left statusStep (placeholders document) acc)
  /\ fst (fold_left statusStep (placeholders document) acc)
     = fst acc ∪ list_to_set (componentNames document).
Proof.
  induction document as [|el document IH]; intros acc Hinv.
  - split; [exact Hinv|]. cbn. symmetry. apply (right_id_L ∅ (∪)).
  - unfold placeholders, componentNames in *. cbn [List.filter omap list_omap].
    destruct (dataset el !! "component") as [name|] eqn:Hname.
    + cbn [fold_left].
      destruct (statusStep_inv cached acc el name Hname Hinv) as [Hstep Hfst].
      destruct (IH _ Hstep) as [Hrest Hset]. split; [exact Hrest|].
      rewrite Hset, Hfst. cbn [list_to_set]. symmetry. apply (assoc_L (∪)).
    + exact (IH acc Hinv).
Qed.

(** X29: [getStatus] counts component names, not placeholders: [total] is the
    number of different names among the placeholders of the document,
    [details] has one entry for each of them, and [loaded], [loading] and
    [error] never exceed [total]; [cached] is the size of the cache. *)
Theorem getStatus_counts ld document :
  let status := getStatus ld document in
  s_total status = size (list_to_set (componentNames document) : gset string)
  /\ length (s_details status) = s_total status
  /\ List.NoDup (map d_name (s_details status))
  /\ (s_loaded status <= s_total status)%nat
  /\ (s_loading status <= s_total status)%nat
  /\ (s_error status <= s_total status)%nat
  /\ s_cached status = size (components ld).
Proof.
  cbv zeta. unfold getStatus.
  destruct (statusLoop_inv (size (components ld)) document
              (∅, mkStatus 0 0 0 0 (size (components ld)) [])) as [Hinv Hset].
  { cbn. repeat split; try lia; try constructor; intros n []. }
  destruct (fold_left statusStep (placeholders document) _) as [seen status].
  cbn [fst snd] in *.
  destruct Hinv as (Htotal & Hlen & Hnd & Hseen & Hl & Hg & He & Hc).
  split; [|repeat split; assumption].
  rewrite Htotal, Hset. f_equal. apply (left_id_L ∅ (∪)).
Qed.

(** ** Comments at the head of a text *)



